(** * Cross-venue market matching: entity extraction, semantic context,
      candidate pre-filter, match decision engine and match cache.

    Shallow embedding of [src/services/matching.ts] and of the match-cache
    functions of the database module ([upsertMarketMatch], [getMarketMatch]).

    Conventions of the embedding.
    - Text is a [string] of ASCII characters; [toLowerCase], [trim],
      [includes] and the regular-expression classes [\b] and [\s] are the
      ASCII parts of their JavaScript counterparts.
    - A JavaScript [number] is an exact rational ([Q]); [Math.round] is
      [floor (x + 1/2)].
    - [null] and [undefined] are [None].
    - The text of a JSON column is kept as what [JSON.parse] makes of it,
      an exception included.
    - The external classifier ([callLLMForMatch]) is a function parameter;
      every invocation of it is recorded in the call log of the run.
    - A rejected promise and a refused SQL statement are the left summand
      of a sum type.
    - The clock is a parameter: milliseconds since the epoch. *)

From Stdlib Require Import List Bool Arith ZArith QArith Qround Lia.
From Stdlib Require Import Ascii String Permutation Sorted.
Import ListNotations.

Local Open Scope string_scope.
Local Open Scope list_scope.

(* ================================================================== *)
(** ** Host primitives on text *)
(* ================================================================== *)

Module Text.

Definition isUpper (c : ascii) : bool :=
  let n := nat_of_ascii c in (65 <=? n)%nat && (n <=? 90)%nat.

Definition lowerChar (c : ascii) : ascii :=
  if isUpper c then ascii_of_nat (nat_of_ascii c + 32) else c.

(** [String.prototype.toLowerCase]. *)
Fixpoint toLowerCase (s : string) : string :=
  match s with
  | EmptyString => EmptyString
  | String c s' => String (lowerChar c) (toLowerCase s')
  end.

(** White space as [\s] and [trim] see it: TAB, LF, VT, FF, CR, SPACE. *)
Definition isSpace (c : ascii) : bool :=
  let n := nat_of_ascii c in ((9 <=? n)%nat && (n <=? 13)%nat) || (n =? 32)%nat.

(** Word characters as [\b] sees them: [A-Za-z0-9_]. *)
Definition isWordChar (c : ascii) : bool :=
  let n := nat_of_ascii c in
  ((48 <=? n)%nat && (n <=? 57)%nat) || ((65 <=? n)%nat && (n <=? 90)%nat)
  || ((97 <=? n)%nat && (n <=? 122)%nat) || (n =? 95)%nat.

Fixpoint dropSpaces (l : list ascii) : list ascii :=
  match l with
  | c :: l' => if isSpace c then dropSpaces l' else l
  | [] => []
  end.

(** [String.prototype.trim]. *)
Definition trim (s : string) : string :=
  string_of_list_ascii
    (rev (dropSpaces (rev (dropSpaces (list_ascii_of_string s))))).

(** The text consists of ASCII characters. *)
Definition isAscii (s : string) : bool :=
  forallb (fun c => (nat_of_ascii c <? 128)%nat) (list_ascii_of_string s).

(** [String.prototype.includes]. *)
Fixpoint includes (s kw : string) : bool :=
  if prefix kw s then true
  else match s with
       | EmptyString => false
       | String _ s' => includes s' kw
       end.

(** [Array.prototype.join] on strings. *)
Fixpoint join (sep : string) (l : list string) : string :=
  match l with
  | [] => ""
  | [x] => x
  | x :: l' => x ++ sep ++ join sep l'
  end.

(** Membership in a list of strings ([Set.prototype.has],
    [Array.prototype.includes]). *)
Definition mem (x : string) (l : list string) : bool :=
  existsb (String.eqb x) l.

End Text.

(* ================================================================== *)
(** ** Regular expressions: the fragment used by [ENTITY_PATTERNS] *)
(* ================================================================== *)

Module Regex.

Inductive cclass : Type :=
| CLit (c : ascii)        (* a literal character, compared ignoring case *)
| CSpace.                 (* \s *)

Inductive regex : Type :=
| Eps
| Never
| Chr (p : cclass)
| Plus (p : cclass)       (* p+, greedy *)
| Opt (r : regex)         (* r?, greedy *)
| WordB                   (* \b *)
| Seq (r1 r2 : regex)
| Alt (r1 r2 : regex)     (* ordered alternation *)
| Group (r : regex).      (* the capturing group; the table has at most one *)

(** *** Reading a pattern source *)

Definition postfix (a : regex) (s : list ascii) : option (regex * list ascii) :=
  match s with
  | "+"%char :: s' =>
      match a with
      | Chr p => Some (Plus p, s')
      | _ => None
      end
  | "?"%char :: s' => Some (Opt a, s')
  | _ => Some (a, s)
  end.

Fixpoint pAlt (n : nat) (s : list ascii) : option (regex * list ascii) :=
  match n with
  | O => None
  | S n =>
      match pSeq n s with
      | Some (r1, "|"%char :: s') =>
          match pAlt n s' with
          | Some (r2, s'') => Some (Alt r1 r2, s'')
          | None => None
          end
      | other => other
      end
  end
with pSeq (n : nat) (s : list ascii) : option (regex * list ascii) :=
  match n with
  | O => None
  | S n =>
      match s with
      | [] => Some (Eps, [])
      | "|"%char :: _ => Some (Eps, s)
      | ")"%char :: _ => Some (Eps, s)
      | _ =>
          match pAtom n s with
          | Some (a, s') =>
              match pSeq n s' with
              | Some (Eps, s'') => Some (a, s'')
              | Some (r, s'') => Some (Seq a r, s'')
              | None => None
              end
          | None => None
          end
      end
  end
with pAtom (n : nat) (s : list ascii) : option (regex * list ascii) :=
  match n with
  | O => None
  | S n =>
      match s with
      | "("%char :: s' =>
          match pAlt n s' with
          | Some (r, ")"%char :: s'') => postfix (Group r) s''
          | _ => None
          end
      | "\"%char :: "b"%char :: s' => Some (WordB, s')
      | "\"%char :: "s"%char :: s' => postfix (Chr CSpace) s'
      | "\"%char :: c :: s' => postfix (Chr (CLit c)) s'
      | c :: s' => postfix (Chr (CLit c)) s'
      | [] => None
      end
  end.

(** [rx src] is the pattern whose source text is [src] (flags [gi]). *)
Definition rx (src : string) : regex :=
  match pAlt (3 * String.length src + 3) (list_ascii_of_string src) with
  | Some (r, []) => r
  | _ => Never
  end.

(** *** Backtracking matcher *)

(** The cursor: the text before it (most recent character first), the text
    after it, and the capture of group 1. *)
Record cursor : Type := mkCursor {
  before : list ascii;
  after : list ascii;
  group1 : option (list ascii)
}.

Definition matches (p : cclass) (c : ascii) : bool :=
  match p with
  | CLit x => Ascii.eqb (Text.lowerChar x) (Text.lowerChar c)
  | CSpace => Text.isSpace c
  end.

Definition atBoundary (st : cursor) : bool :=
  let a := match before st with c :: _ => Text.isWordChar c | [] => false end in
  let b := match after st with c :: _ => Text.isWordChar c | [] => false end in
  negb (Bool.eqb a b).

(** Text consumed between two cursors of one scan. *)
Definition between (st st' : cursor) : list ascii :=
  rev (firstn (List.length (before st') - List.length (before st)) (before st')).

Fixpoint plus (p : cclass) (pre rest : list ascii) (g : option (list ascii))
    (k : cursor -> option cursor) {struct rest} : option cursor :=
  match rest with
  | c :: tl =>
      if matches p c then
        match plus p (c :: pre) tl g k with
        | Some r => Some r
        | None => k (mkCursor (c :: pre) tl g)
        end
      else None
  | [] => None
  end.

Fixpoint run (r : regex) (st : cursor) (k : cursor -> option cursor)
    {struct r} : option cursor :=
  match r with
  | Eps => k st
  | Never => None
  | Chr p =>
      match after st with
      | c :: tl => if matches p c then k (mkCursor (c :: before st) tl (group1 st))
                   else None
      | [] => None
      end
  | Plus p => plus p (before st) (after st) (group1 st) k
  | Opt r1 =>
      match run r1 st k with
      | Some res => Some res
      | None => k st
      end
  | WordB => if atBoundary st then k st else None
  | Seq r1 r2 => run r1 st (fun st' => run r2 st' k)
  | Alt r1 r2 =>
      match run r1 st k with
      | Some res => Some res
      | None => run r2 st k
      end
  | Group r1 =>
      run r1 st (fun st' =>
        k (mkCursor (before st') (after st') (Some (between st st'))))
  end.

(** [match[1] || match[0]] of a successful match from [st] to [st']. *)
Definition matchValue (st st' : cursor) : string :=
  match group1 st' with
  | Some (c :: g) => string_of_list_ascii (c :: g)
  | _ => string_of_list_ascii (between st st')
  end.

(** The [while ((match = regex.exec(text)) !== null)] loop of a global
    pattern: the leftmost match at or after [lastIndex], then again from the
    end of that match.  [skip] counts the characters still to step over
    before the next search position. *)
Fixpoint execFrom (r : regex) (pre rest : list ascii) (skip : nat)
    {struct rest} : list string :=
  match skip with
  | S n =>
      match rest with
      | c :: tl => execFrom r (c :: pre) tl n
      | [] => []
      end
  | O =>
      let st := mkCursor pre rest None in
      match run r st Some with
      | Some st' =>
          matchValue st st' ::
          match rest with
          | c :: tl => execFrom r (c :: pre) tl (List.length (between st st') - 1)
          | [] => []
          end
      | None =>
          match rest with
          | c :: tl => execFrom r (c :: pre) tl 0
          | [] => []
          end
      end
  end.

Definition execAll (r : regex) (text : string) : list string :=
  execFrom r [] (list_ascii_of_string text) 0.

(** A lower bound on the number of characters a match consumes. *)
Fixpoint minLen (r : regex) : nat :=
  match r with
  | Eps | Never | WordB | Opt _ => 0
  | Chr _ | Plus _ => 1
  | Seq r1 r2 => minLen r1 + minLen r2
  | Alt r1 r2 => Nat.min (minLen r1) (minLen r2)
  | Group r1 => minLen r1
  end.

Definition isNever (r : regex) : bool :=
  match r with Never => true | _ => false end.

End Regex.

(* ================================================================== *)
(** ** Entity extraction *)
(* ================================================================== *)

Record PatternGroup : Type := mkGroup {
  category : string;
  patterns : list Regex.regex
}.

Import Regex.

Definition ENTITY_PATTERNS : list PatternGroup := [
  mkGroup "people" [
    rx "\b(trump|donald\s+trump)\b";
    rx "\b(biden|joe\s+biden)\b";
    rx "\b(harris|kamala)\b";
    rx "\b(musk|elon\s+musk|elon)\b";
    rx "\b(putin|vladimir\s+putin)\b";
    rx "\b(xi\s+jinping|xi)\b";
    rx "\b(zelensky|zelenskyy)\b";
    rx "\b(powell|jerome\s+powell)\b";
    rx "\b(desantis|ron\s+desantis)\b";
    rx "\b(newsom|gavin\s+newsom)\b";
    rx "\b(vance|jd\s+vance)\b";
    rx "\b(ramaswamy|vivek)\b";
    rx "\b(haley|nikki\s+haley)\b";
    rx "\b(stephen\s+miran|miran)\b";
    rx "\b(judy\s+shelton|shelton)\b";
    rx "\b(kevin\s+warsh|warsh)\b";
    rx "\b(kevin\s+hassett|hassett)\b";
    rx "\b(christopher\s+waller|waller)\b";
    rx "\b(michelle\s+bowman|bowman)\b";
    rx "\b(rick\s+rieder|rieder)\b" ];
  mkGroup "orgs" [
    rx "\b(fed|federal\s+reserve|fomc)\b";
    rx "\b(openai)\b";
    rx "\b(spacex)\b";
    rx "\b(tesla)\b";
    rx "\b(nvidia)\b";
    rx "\b(nato)\b";
    rx "\bun\s|united\s+nations\b";
    rx "\b(doge|department\s+of\s+government\s+efficiency)\b" ];
  mkGroup "places" [
    rx "\b(ukraine|ukrainian)\b";
    rx "\b(russia|russian)\b";
    rx "\b(china|chinese|beijing)\b";
    rx "\b(iran|iranian|tehran)\b";
    rx "\b(gaza|palestinian|hamas)\b";
    rx "\b(israel|israeli)\b";
    rx "\b(taiwan|taiwanese)\b";
    rx "\b(north\s+korea|dprk|pyongyang)\b";
    rx "\b(mexico|mexican)\b";
    rx "\b(mars)\b";
    rx "\b(u\.?k\.?|united\s+kingdom|britain)\b" ];
  mkGroup "topics" [
    rx "\b(shutdown|government\s+shutdown)\b";
    rx "\b(interest\s+rate|rate\s+cut|rate\s+hike)\b";
    rx "\b(inflation)\b";
    rx "\b(recession)\b";
    rx "\b(tariff|tariffs)\b";
    rx "\b(impeach|impeachment)\b";
    rx "\b(bitcoin|btc)\b";
    rx "\b(ethereum|eth)\b";
    rx "\b(ipo)\b";
    rx "\b(ai\s+|artificial\s+intelligence)\b";
    rx "\b(ceasefire)\b";
    rx "\b(executive\s+order)\b";
    rx "\b(nominate|nomination)\b";
    rx "\b(leader|supreme\s+leader)\b";
    rx "\b(successor)\b" ]
].

Record ExtractedEntity : Type := mkEntity {
  value : string;
  entCategory : string;
  normalized : string
}.

Definition mappings : list (string * string) := [
  ("donald trump", "trump"); ("donald j trump", "trump"); ("donald j. trump", "trump");
  ("joe biden", "biden"); ("joseph biden", "biden");
  ("kamala harris", "harris"); ("kamala", "harris");
  ("elon musk", "musk"); ("elon", "musk");
  ("vladimir putin", "putin");
  ("xi jinping", "xi");
  ("jerome powell", "powell");
  ("ron desantis", "desantis");
  ("gavin newsom", "newsom");
  ("jd vance", "vance");
  ("nikki haley", "haley");
  ("vivek ramaswamy", "ramaswamy"); ("vivek", "ramaswamy");
  ("stephen miran", "miran");
  ("judy shelton", "shelton");
  ("kevin warsh", "warsh");
  ("kevin hassett", "hassett");
  ("christopher waller", "waller");
  ("michelle bowman", "bowman");
  ("rick rieder", "rieder");
  ("federal reserve", "fed"); ("fomc", "fed");
  ("united nations", "un");
  ("department of government efficiency", "doge");
  ("north korea", "dprk"); ("pyongyang", "dprk");
  ("united kingdom", "uk"); ("britain", "uk"); ("u.k.", "uk");
  ("palestinian", "gaza"); ("hamas", "gaza");
  ("israeli", "israel");
  ("btc", "bitcoin");
  ("eth", "ethereum");
  ("artificial intelligence", "ai");
  ("government shutdown", "shutdown");
  ("rate cut", "interest rate"); ("rate hike", "interest rate")
].

Fixpoint lookup (key : string) (table : list (string * string)) : option string :=
  match table with
  | [] => None
  | (k, v) :: rest => if String.eqb k key then Some v else lookup key rest
  end.

(** [mappings[lower] || lower]: every value of the table is non-empty. *)
Definition normalizeEntity (entity : string) : string :=
  let lower := Text.trim (Text.toLowerCase entity) in
  match lookup lower mappings with
  | Some canonical => canonical
  | None => lower
  end.

(** One iteration of the [while] body: [entities] and the [seen] set. *)
Definition recordMatch (cat : string)
    (acc : list ExtractedEntity * list string) (v : string)
    : list ExtractedEntity * list string :=
  let '(entities, seen) := acc in
  let norm := normalizeEntity v in
  if Text.mem norm seen then acc
  else (entities ++ [mkEntity v cat norm], seen ++ [norm]).

Definition scanPattern (cat : string) (text : string)
    (acc : list ExtractedEntity * list string) (pattern : regex) :=
  fold_left (recordMatch cat) (execAll pattern text) acc.

Definition scanGroup (text : string)
    (acc : list ExtractedEntity * list string) (group : PatternGroup) :=
  fold_left (scanPattern (category group) text) (patterns group) acc.

Definition extractEntities (text : string) : list ExtractedEntity :=
  fst (fold_left (scanGroup text) ENTITY_PATTERNS ([], [])).

(* ================================================================== *)
(** ** Semantic context *)
(* ================================================================== *)

Inductive SemanticContext : Type :=
| leadership | action | price | timing | outcome | comparison | unknown.

Definition ctx_eqb (a b : SemanticContext) : bool :=
  match a, b with
  | leadership, leadership | action, action | price, price
  | timing, timing | outcome, outcome | comparison, comparison
  | unknown, unknown => true
  | _, _ => false
  end.

(** [Object.entries(CONTEXT_KEYWORDS)], in insertion order. *)
Definition CONTEXT_KEYWORDS : list (SemanticContext * list string) := [
  (leadership, ["nominate"; "nomination"; "successor"; "prime minister"; "chief";
                "chair"; "chairman"; "president"; "elect"; "win"; "governor";
                "senator"; "mayor"; "appointee"]);
  (action, ["strike"; "attack"; "ban"; "sanction"; "deport"; "pardon"; "invade";
            "war"; "ceasefire"; "shutdown"; "impeach"; "veto"]);
  (price, ["cost"; "above"; "below"; "reach"; "hit"; "price"; "rate"; "gdp";
           "inflation"; "cpi"]);
  (timing, ["before"; "after"; "by"; "date"; "deadline"; "end of"; "year"; "month"]);
  (outcome, ["happen"; "occur"; "will"; "resolve"]);
  (comparison, ["more"; "less"; "higher"; "lower"; "beat"; "vs"]);
  (unknown, [])
].

(** [keywords.filter((kw) => lower.includes(kw)).length]. *)
Definition keywordCount (lower : string) (keywords : list string) : nat :=
  List.length (filter (Text.includes lower) keywords).

(** Body of the [for] loop over the entries: the state is [(best, bestCount)]. *)
Definition contextStep (lower : string) (st : SemanticContext * nat)
    (entry : SemanticContext * list string) : SemanticContext * nat :=
  let '(ctx, keywords) := entry in
  if ctx_eqb ctx unknown then st
  else
    let count := keywordCount lower keywords in
    if (snd st <? count)%nat then (ctx, count) else st.

Definition classifyWith (table : list (SemanticContext * list string))
    (text : string) : SemanticContext :=
  let lower := Text.toLowerCase text in
  fst (fold_left (contextStep lower) table (unknown, O)).

Definition extractSemanticContext (text : string) : SemanticContext :=
  classifyWith CONTEXT_KEYWORDS text.

Definition compatible (ctx : SemanticContext) : list SemanticContext :=
  match ctx with
  | leadership => [outcome; timing]
  | action => [outcome; timing]
  | price => [timing; comparison]
  | timing => [leadership; action; price; outcome]
  | outcome => [leadership; action; timing]
  | comparison => [price]
  | unknown => []
  end.

Definition areContextsCompatible (ctx1 ctx2 : SemanticContext) : bool :=
  if ctx_eqb ctx1 unknown || ctx_eqb ctx2 unknown then true
  else if ctx_eqb ctx1 ctx2 then true
  else existsb (ctx_eqb ctx2) (compatible ctx1)
       || existsb (ctx_eqb ctx1) (compatible ctx2).

(* ================================================================== *)
(** ** Numbers *)
(* ================================================================== *)

Module Num.

Definition ltb (x y : Q) : bool := negb (Qle_bool y x).
Definition geb (x y : Q) : bool := Qle_bool y x.

(** [Math.min] *)
Definition min (x y : Q) : Q := if Qle_bool x y then x else y.

(** [Math.round]: the nearest integer, halves upwards. *)
Definition round (x : Q) : Q := inject_Z (Qfloor (x + (1 # 2))).

Definition ofNat (n : nat) : Q := inject_Z (Z.of_nat n).

(** The number is a whole number. *)
Definition isInteger (x : Q) : bool := Qeq_bool x (inject_Z (Qfloor x)).

(** The exponent [e] of a positive fraction: [2^e <= n/d < 2^(e+1)]. *)
Definition floorLog2 (n d : positive) : Z :=
  let e0 := (Z.log2 (Zpos n) - Z.log2 (Zpos d))%Z in
  let reached := if (0 <=? e0)%Z then (Zpos d * 2 ^ e0 <=? Zpos n)%Z
                 else (Zpos d <=? Zpos n * 2 ^ (- e0))%Z in
  if reached then e0 else (e0 - 1)%Z.

(** The integer nearest to [p/q], the even one of two that are equally
    near. *)
Definition nearestEven (p q : Z) : Z :=
  let f := (p / q)%Z in
  let r := (p mod q)%Z in
  if (2 * r <? q)%Z then f
  else if (q <? 2 * r)%Z then (f + 1)%Z
  else if Z.even f then f else (f + 1)%Z.

(** A positive fraction rounded to 53 significant bits, and to a multiple
    of [2^-1074] below the normal range. *)
Definition roundPos (n d : positive) : Q :=
  let shift := Z.max (floorLog2 n d - 52) (-1074) in
  if (0 <=? shift)%Z
  then inject_Z (nearestEven (Zpos n) (Zpos d * 2 ^ shift) * 2 ^ shift)
  else Qmake (nearestEven (Zpos n * 2 ^ (- shift)) (Zpos d))
             (Z.to_pos (2 ^ (- shift))).

(** The IEEE 754 binary64 value of a real number below the overflow
    threshold: what an arithmetic operation of the code returns when its
    exact result is [x] (round to nearest, ties to even). *)
Definition double (x : Q) : Q :=
  match Qnum x with
  | Z0 => 0
  | Zpos n => roundPos n (Qden x)
  | Zneg n => - roundPos n (Qden x)
  end.

(** [arr[x]] for a number [x]: defined for the whole numbers
    [0 .. arr.length - 1], [undefined] otherwise. *)
Definition index {A : Type} (arr : list A) (x : Q) : option A :=
  if isInteger x && Qle_bool 0 x then nth_error arr (Z.to_nat (Qfloor x))
  else None.

End Num.

(* ================================================================== *)
(** ** Rows of the target-event pool *)
(* ================================================================== *)

(** An entry of the nested-markets array as [JSON.parse] delivers it:
    [null], or any other value, of which [status] is its [status] property
    when that is a string and [ticker] is its [ticker] property, a string
    or absent. *)
Inductive NestedMarket : Type :=
| NullEntry
| Market (status ticker : option string).

(** The text of a JSON column, kept as what [JSON.parse] makes of it. *)
Inductive JsonText : Type :=
| EmptyText                            (* the empty string *)
| Unparsable                           (* [JSON.parse] throws *)
| NotArray                             (* parses to something without [find] *)
| ArrayOf (ms : list NestedMarket).    (* parses to an array *)

Record KalshiEventRow : Type := mkEvent {
  event_ticker : string;
  title : string;
  subtitle : option string;
  markets_json : option JsonText
}.

(** [s || ""] *)
Definition orEmpty (s : option string) : string :=
  match s with Some x => x | None => "" end.

(** [s || null] for a string-valued [s]: the empty string is falsy. *)
Definition orNull (s : option string) : option string :=
  match s with
  | Some "" => None
  | other => other
  end.

(* ================================================================== *)
(** ** Entity-based pre-filter *)
(* ================================================================== *)

Record PreFilterResult : Type := mkPre {
  eventTicker : string;
  eventTitle : string;
  preSubtitle : string;
  entityScore : Q;
  matchedEntities : list string;
  contextCompatible : bool
}.

(** [new Set(xs)]: the distinct elements in order of first insertion. *)
Definition setOf (xs : list string) : list string :=
  fold_left (fun s x => if Text.mem x s then s else s ++ [x]) xs [].

Definition eventText (event : KalshiEventRow) : string :=
  (title event ++ " " ++ orEmpty (subtitle event))%string.

(** [for (const ne of questionNormalized) if (eventNormalized.has(ne)) push] *)
Definition intersect (questionNormalized eventNormalized : list string)
    : list string :=
  filter (fun ne => Text.mem ne eventNormalized) questionNormalized.

(** [(matchedEntities.length * 2) / (questionNormalized.size + eventNormalized.size)] *)
Definition dice (matched : nat) (sourceSize candidateSize : nat) : Q :=
  Num.ofNat (matched * 2) / Num.ofNat (sourceSize + candidateSize).

(** Body of the loop over the events: [None] is [continue]. *)
Definition considerEvent (questionNormalized : list string)
    (questionContext : SemanticContext) (event : KalshiEventRow)
    : option PreFilterResult :=
  let eventEntities := extractEntities (eventText event) in
  if (List.length eventEntities =? 0)%nat then None
  else
    let eventNormalized := setOf (map normalized eventEntities) in
    let matched := intersect questionNormalized eventNormalized in
    if (List.length matched =? 0)%nat then None
    else
      let score := dice (List.length matched)
                        (List.length questionNormalized)
                        (List.length eventNormalized) in
      let eventContext := extractSemanticContext (eventText event) in
      let compat := areContextsCompatible questionContext eventContext in
      if (List.length matched =? 1)%nat && negb compat then None
      else Some (mkPre (event_ticker event) (title event)
                       (orEmpty (subtitle event)) score matched compat).

Fixpoint collect {A B : Type} (f : A -> option B) (l : list A) : list B :=
  match l with
  | [] => []
  | x :: l' => match f x with
               | Some y => y :: collect f l'
               | None => collect f l'
               end
  end.

(** [results.sort((a, b) => b.entityScore - a.entityScore)]: a stable sort,
    descending by score. *)
Fixpoint insertByScore (x : PreFilterResult) (l : list PreFilterResult)
    : list PreFilterResult :=
  match l with
  | [] => [x]
  | y :: l' =>
      if Num.ltb (entityScore x) (entityScore y) then y :: insertByScore x l'
      else x :: l
  end.

Definition sortByScore (l : list PreFilterResult) : list PreFilterResult :=
  fold_right insertByScore [] l.

Definition preFilterEvents (question : string) (events : list KalshiEventRow)
    : list PreFilterResult :=
  let questionEntities := extractEntities question in
  let questionContext := extractSemanticContext question in
  if (List.length questionEntities =? 0)%nat then []
  else
    let questionNormalized := setOf (map normalized questionEntities) in
    sortByScore (collect (considerEvent questionNormalized questionContext) events).

(* ================================================================== *)
(** ** Match decision engine *)
(* ================================================================== *)

(** The declared interface of a classifier reply.  The code casts the
    parsed reply to it without a check; [decode] below says which parsed
    replies have this shape, and the decision engine is modelled on those. *)
Record AIMatchResponse : Type := mkAI {
  eventIndex : Q;
  aiConfidence : Q;
  aiReasoning : option string;
  matchedConcepts : option (list string)
}.

(** What is sent to the classifier: the candidates with their index. *)
Record Indexed : Type := mkIndexed {
  idx : nat;
  ixTitle : string;
  ixSubtitle : string
}.

(** [callLLMForMatch], with every failure already turned into [null]. *)
Definition Classifier : Type :=
  string -> list Indexed -> option AIMatchResponse.

(** *** The reply as [JSON.parse] delivers it *)

(** A number of a JSON text: finite, or an infinity when the literal
    overflows. *)
Inductive Number : Type :=
| Finite (q : Q)
| PlusInfinity
| MinusInfinity.

Unset Elimination Schemes.
Inductive Json : Type :=
| JNull
| JBool (b : bool)
| JNumber (x : Number)
| JString (s : string)
| JArray (items : list Json)
| JObject (members : list (string * Json)).
Set Elimination Schemes.

(** The own property [name] of a parsed object: of several members with
    one name [JSON.parse] keeps the last. *)
Fixpoint member (name : string) (members : list (string * Json)) : option Json :=
  match members with
  | [] => None
  | (k, v) :: rest =>
      match member name rest with
      | Some later => Some later
      | None => if String.eqb k name then Some v else None
      end
  end.

(** An array all of whose items are strings. *)
Fixpoint stringsOf (items : list Json) : option (list string) :=
  match items with
  | [] => Some []
  | JString s :: rest => option_map (cons s) (stringsOf rest)
  | _ :: _ => None
  end.

(** [reasoning: string], absent or [null] when none is given. *)
Definition reasoningOf (v : option Json) : option (option string) :=
  match v with
  | None | Some JNull => Some None
  | Some (JString s) => Some (Some s)
  | Some _ => None
  end.

(** [matchedConcepts: string[]], absent or [null] when none is given. *)
Definition conceptsOf (v : option Json) : option (option (list string)) :=
  match v with
  | None | Some JNull => Some None
  | Some (JArray items) => option_map Some (stringsOf items)
  | Some _ => None
  end.

(** The reply as the interface declares it, when it has that shape: [null],
    or an object whose [eventIndex] and [confidence] are finite numbers. *)
Definition decode (reply : Json) : option (option AIMatchResponse) :=
  match reply with
  | JNull => Some None
  | JObject members =>
      match member "eventIndex" members, member "confidence" members with
      | Some (JNumber (Finite i)), Some (JNumber (Finite c)) =>
          match reasoningOf (member "reasoning" members),
                conceptsOf (member "matchedConcepts" members) with
          | Some r, Some cs => Some (Some (mkAI i c r cs))
          | _, _ => None
          end
      | _, _ => None
      end
  | _ => None
  end.

(** What [callLLMForMatch] resolves to: [null] after a failure, and the
    parsed content of the reply otherwise. *)
Definition Replies : Type := string -> list Indexed -> Json.

(** Every reply has the declared shape, and [llm] is its typed reading. *)
Definition Conforms (reply : Replies) (llm : Classifier) : Prop :=
  forall question sent, decode (reply question sent) = Some (llm question sent).

(** Every reply that is an object has a [reasoning] member.  Without it the
    result carries [undefined] where the stored row gives [null]. *)
Definition statesReasoning (reply : Replies) : Prop :=
  forall question sent members,
    reply question sent = JObject members -> member "reasoning" members <> None.

Inductive MatchMethod : Type := entity | ai | none.

Record MatchResult : Type := mkResult {
  kalshiEventTicker : option string;
  kalshiMarketTicker : option string;
  kalshiEventTitle : option string;
  similarity : Q;
  confidence : Q;
  matchMethod : MatchMethod;
  resMatchedEntities : list string;
  reasoning : option string
}.

Inductive Thrown : Type := SyntaxError | TypeError.

(** A run of [matchSingleMarket]: the promise settles with a result or with
    an exception, after the recorded classifier calls. *)
Record Run : Type := mkRun {
  settled : Thrown + MatchResult;
  calls : list (string * list Indexed)
}.

Definition noMatch (why : string) : MatchResult :=
  mkResult None None None 0 0 none [] (Some why).

(** [kalshiEvents.find((e) => e.event_ticker === ticker)] *)
Definition findEvent (kalshiEvents : list KalshiEventRow) (ticker : string)
    : option KalshiEventRow :=
  find (fun e => String.eqb (event_ticker e) ticker) kalshiEvents.

(** [eventRow?.markets_json ? JSON.parse(eventRow.markets_json) : []],
    as far as the array that [find] is then called on. *)
Definition parseMarkets (eventRow : option KalshiEventRow)
    : Thrown + list NestedMarket :=
  match eventRow with
  | None => inr []
  | Some row =>
      match markets_json row with
      | None => inr []
      | Some EmptyText => inr []
      | Some Unparsable => inl SyntaxError
      | Some NotArray => inl TypeError
      | Some (ArrayOf ms) => inr ms
      end
  end.

Definition isOpen (st : option string) : bool :=
  match st with
  | Some s => String.eqb s "open" || String.eqb s "active"
  | None => false
  end.

(** [markets.find((m) => m.status === "open" || m.status === "active")]:
    reading [status] of a [null] entry throws. *)
Fixpoint findOpen (markets : list NestedMarket)
    : Thrown + option NestedMarket :=
  match markets with
  | [] => inr None
  | NullEntry :: _ => inl TypeError
  | Market st tk :: rest =>
      if isOpen st then inr (Some (Market st tk)) else findOpen rest
  end.

(** [bestMarket?.ticker || null] *)
Definition tickerOf (bestMarket : option NestedMarket) : option string :=
  match bestMarket with
  | Some (Market _ tk) => orNull tk
  | _ => None
  end.

(** The three lines that pick the target market of a matched event. *)
Definition bestMarketTicker (kalshiEvents : list KalshiEventRow)
    (ticker : string) : Thrown + option string :=
  match parseMarkets (findEvent kalshiEvents ticker) with
  | inl e => inl e
  | inr markets =>
      match findOpen markets with
      | inl e => inl e
      | inr (Some m) => inr (tickerOf (Some m))
      | inr None => inr (tickerOf (hd_error markets))
      end
  end.

Definition withMarket (kalshiEvents : list KalshiEventRow) (ticker : string)
    (build : option string -> MatchResult) : Thrown + MatchResult :=
  match bestMarketTicker kalshiEvents ticker with
  | inl e => inl e
  | inr tk => inr (build tk)
  end.

Fixpoint indexFrom (i : nat) (l : list PreFilterResult) : list Indexed :=
  match l with
  | [] => []
  | c :: l' => mkIndexed i (eventTitle c) (preSubtitle c) :: indexFrom (S i) l'
  end.

(** [Math.min(score * 1.5, 0.95)] and
    [Math.round(Math.min(score * 150, 95))] in binary64 arithmetic: the
    quotient that is the score, each product and the literal 0.95 are
    rounded to the nearest double. *)
Definition strongResult (top : PreFilterResult) (tk : option string) : MatchResult :=
  mkResult (Some (eventTicker top)) tk (Some (eventTitle top))
    (Num.min (Num.double (Num.double (entityScore top) * 1.5)) (Num.double 0.95))
    (Num.round (Num.min (Num.double (Num.double (entityScore top) * 150)) 95))
    entity (matchedEntities top)
    (Some ("Strong entity match: " ++ Text.join ", " (matchedEntities top))%string).

Definition fallbackResult (top : PreFilterResult) (tk : option string) : MatchResult :=
  mkResult (Some (eventTicker top)) tk (Some (eventTitle top))
    (entityScore top)
    (Num.round (entityScore top * 100))
    entity (matchedEntities top)
    (Some "Entity-based fallback (AI unavailable or low confidence)").

Definition aiResultOf (r : AIMatchResponse) (c : PreFilterResult)
    (tk : option string) : MatchResult :=
  mkResult (Some (eventTicker c)) tk (Some (eventTitle c))
    (aiConfidence r / 100)
    (aiConfidence r)
    ai
    (match matchedConcepts r with Some l => l | None => matchedEntities c end)
    (aiReasoning r).

(** [!aiResult || aiResult.eventIndex < 0 || aiResult.confidence < 25] *)
Definition rejected (aiResult : option AIMatchResponse) : bool :=
  match aiResult with
  | None => true
  | Some r => Num.ltb (eventIndex r) 0 || Num.ltb (aiConfidence r) 25
  end.

(** [aiResult?.reasoning || "No confident match found"] *)
Definition statedReasoning (aiResult : option AIMatchResponse) : string :=
  match aiResult with
  | Some r => match orNull (aiReasoning r) with
              | Some s => s
              | None => "No confident match found"
              end
  | None => "No confident match found"
  end.

Definition isStrong (top : PreFilterResult) : bool :=
  (3 <=? List.length (matchedEntities top))%nat && contextCompatible top.

Definition matchSingleMarket (callLLMForMatch : Classifier)
    (question : string) (kalshiEvents : list KalshiEventRow) : Run :=
  let candidates := preFilterEvents question kalshiEvents in
  match candidates with
  | [] => mkRun (inr (noMatch "No entity overlap found")) []
  | topCandidate :: _ =>
      if isStrong topCandidate then
        mkRun (withMarket kalshiEvents (eventTicker topCandidate)
                 (strongResult topCandidate)) []
      else
        let topN := firstn 30 candidates in
        let eventList := indexFrom 0 topN in
        let aiResult := callLLMForMatch question eventList in
        let log := [(question, eventList)] in
        if rejected aiResult then
          if Num.geb (entityScore topCandidate) 0.4
             && contextCompatible topCandidate
          then mkRun (withMarket kalshiEvents (eventTicker topCandidate)
                        (fallbackResult topCandidate)) log
          else mkRun (inr (noMatch (statedReasoning aiResult))) log
        else
          match aiResult with
          | None => mkRun (inr (noMatch (statedReasoning aiResult))) log
          | Some r =>
              match Num.index topN (eventIndex r) with
              | None => mkRun (inr (noMatch "AI returned out-of-bounds index")) log
              | Some matchedCandidate =>
                  mkRun (withMarket kalshiEvents (eventTicker matchedCandidate)
                           (aiResultOf r matchedCandidate)) log
              end
          end
  end.

(* ================================================================== *)
(** ** Match cache (database module) *)
(* ================================================================== *)

Module Db.

(** A TEXT timestamp [YYYY-MM-DD?HH:MM:SS...] (years 0000 to 9999), kept as
    its day number, the separator character after the date, and the time of
    day in milliseconds.  Text comparison orders the ten date characters
    like the day number, then the separator, then the time of day. *)
Record Stamp : Type := mkStamp {
  day : Z;
  sep : ascii;
  clock : Z
}.

Definition msPerDay : Z := 86400000.

(** SQLite [datetime('now')] at [now] milliseconds since the epoch:
    [YYYY-MM-DD HH:MM:SS]. *)
Definition datetimeNow (now : Z) : Stamp :=
  mkStamp (now / msPerDay) " " (((now mod msPerDay) / 1000) * 1000).

(** [new Date(ms).toISOString()]: [YYYY-MM-DDTHH:MM:SS.sssZ]. *)
Definition toISOString (ms : Z) : Stamp :=
  mkStamp (ms / msPerDay) "T" (ms mod msPerDay).

(** The instant lies in the years 0000 to 9999, for which [toISOString]
    and [datetime] write the year with four digits. *)
Definition plainEra (ms : Z) : Prop :=
  (-62167219200000 <= ms <= 253402300799999)%Z.

(** [a > b] on TEXT values. *)
Definition textGt (a b : Stamp) : bool :=
  (day b <? day a)%Z
  || ((day a =? day b)%Z
      && ((nat_of_ascii (sep b) <? nat_of_ascii (sep a))%nat
          || (Ascii.eqb (sep a) (sep b) && (clock b <? clock a)%Z))).

Record MarketMatchRow : Type := mkRow {
  id : Z;
  polymarket_id : string;
  polymarket_question : string;
  kalshi_event_ticker : option string;
  kalshi_market_ticker : option string;
  kalshi_event_title : option string;
  row_similarity : Q;
  row_confidence : Q;
  match_method : string;
  (** JSON text of an array of strings, kept as the array it denotes *)
  matched_entities : option (list string);
  row_reasoning : option string;
  matched_at : Stamp;
  expires_at : Stamp
}.

(** The argument record of [upsertMarketMatch]. *)
Record MatchInput : Type := mkInput {
  polymarketId : string;
  polymarketQuestion : string;
  inEventTicker : option string;
  inMarketTicker : option string;
  inEventTitle : option string;
  inSimilarity : Q;
  inConfidence : Q;
  inMatchMethod : string;
  inMatchedEntities : list string;
  inReasoning : option string;
  ttlHours : option Z
}.

(** The tables the match cache touches: the ids of [markets] (target of the
    foreign key), the rows of [market_matches], and the AUTOINCREMENT
    sequence of [market_matches]. *)
Record Database : Type := mkDb {
  markets : list string;
  market_matches : list MarketMatchRow;
  sequence : Z
}.

Inductive SqliteError : Type := ForeignKeyConstraint.

(** [match.ttlHours || 24] *)
Definition ttlOrDefault (ttl : option Z) : Z :=
  match ttl with
  | Some 0%Z => 24
  | Some h => h
  | None => 24
  end.

Definition expiryOf (m : MatchInput) (now : Z) : Z :=
  (now + ttlOrDefault (ttlHours m) * 60 * 60 * 1000)%Z.

(** [DELETE FROM market_matches WHERE polymarket_id = ?] *)
Definition deleteMatches (pid : string) (rows : list MarketMatchRow)
    : list MarketMatchRow :=
  filter (fun r => negb (String.eqb (polymarket_id r) pid)) rows.

Definition newRow (rowid : Z) (m : MatchInput) (now : Z) : MarketMatchRow :=
  mkRow rowid (polymarketId m) (polymarketQuestion m)
    (inEventTicker m) (inMarketTicker m) (inEventTitle m)
    (inSimilarity m) (inConfidence m) (inMatchMethod m)
    (Some (inMatchedEntities m)) (inReasoning m)
    (datetimeNow now) (toISOString (expiryOf m now)).

(** [upsertMarketMatch] at time [now].  The two statements run in
    autocommit mode: the DELETE stays when the INSERT is refused by the
    foreign key on [markets(id)]. *)
Definition upsertMarketMatch (db : Database) (m : MatchInput) (now : Z)
    : Database * (SqliteError + unit) :=
  let kept := deleteMatches (polymarketId m) (market_matches db) in
  if Text.mem (polymarketId m) (markets db) then
    let rowid := (sequence db + 1)%Z in
    (mkDb (markets db) (kept ++ [newRow rowid m now]) rowid, inr tt)
  else
    (mkDb (markets db) kept (sequence db), inl ForeignKeyConstraint).

(** [ORDER BY matched_at DESC LIMIT 1]: a row with the greatest
    [matched_at], the earliest such row of the table among equals. *)
Fixpoint latest (rows : list MarketMatchRow) : option MarketMatchRow :=
  match rows with
  | [] => None
  | r :: rest =>
      match latest rest with
      | Some r' => if textGt (matched_at r') (matched_at r) then Some r' else Some r
      | None => Some r
      end
  end.

(** [getMarketMatch] at time [now]. *)
Definition getMarketMatch (db : Database) (pid : string) (now : Z)
    : option MarketMatchRow :=
  latest (filter (fun r => String.eqb (polymarket_id r) pid
                           && textGt (expires_at r) (datetimeNow now))
                 (market_matches db)).

(** Number of rows of [market_matches] for one source market id. *)
Definition rowsFor (pid : string) (db : Database) : nat :=
  List.length (filter (fun r => String.eqb (polymarket_id r) pid) (market_matches db)).

End Db.

Arguments Num.double : simpl never.
Arguments extractEntities : simpl never.
Arguments extractSemanticContext : simpl never.
Arguments areContextsCompatible : simpl never.
Arguments preFilterEvents : simpl never.
Arguments normalizeEntity : simpl never.

(* ================================================================== *)
(** ** Specification-side vocabulary *)
(* ================================================================== *)

(** The deduplicated normalized keys of a text. *)
Definition keysOf (text : string) : list string :=
  setOf (map normalized (extractEntities text)).

(** The candidate record that the pre-filter loop builds for an event. *)
Definition candidateOf (question : string) (event : KalshiEventRow)
    : PreFilterResult :=
  let matched := intersect (keysOf question) (keysOf (eventText event)) in
  mkPre (event_ticker event) (title event) (orEmpty (subtitle event))
    (dice (List.length matched) (List.length (keysOf question))
          (List.length (keysOf (eventText event))))
    matched
    (areContextsCompatible (extractSemanticContext question)
                           (extractSemanticContext (eventText event))).

(** Range invariant of a match result. *)
Definition inRange (r : MatchResult) : Prop :=
  (0 <= similarity r /\ similarity r <= 1)%Q
  /\ (0 <= confidence r /\ confidence r <= 100)%Q
  /\ Num.isInteger (confidence r) = true.

(** The keyword count of one entry of the keyword table. *)
Definition entryCount (lower : string) (e : SemanticContext * list string) : nat :=
  keywordCount lower (snd e).

(** The row belongs to the source market [pid]. *)
Definition forMarket (pid : string) (r : Db.MarketMatchRow) : bool :=
  String.eqb (Db.polymarket_id r) pid.

(** The nested-market lookup of an event does not throw. *)
Definition readable (kalshiEvents : list KalshiEventRow) (ticker : string) : Prop :=
  exists tk, bestMarketTicker kalshiEvents ticker = inr tk.

Definition properMarket (m : NestedMarket) : Prop :=
  match m with NullEntry => False | Market _ _ => True end.


(** A run matches candidate [c] and builds its result with [build]: the
    three tiers that name a target event. *)
Inductive Matches (llm : Classifier) (question : string)
    (kalshiEvents : list KalshiEventRow)
    : PreFilterResult -> (option string -> MatchResult) -> Prop :=
| ByStrongEntity top rest :
    preFilterEvents question kalshiEvents = top :: rest ->
    isStrong top = true ->
    Matches llm question kalshiEvents top (strongResult top)
| ByEntityFallback top rest :
    preFilterEvents question kalshiEvents = top :: rest ->
    isStrong top = false ->
    rejected (llm question (indexFrom 0 (firstn 30 (top :: rest)))) = true ->
    Num.geb (entityScore top) 0.4 && contextCompatible top = true ->
    Matches llm question kalshiEvents top (fallbackResult top)
| ByAIAccept top rest a c :
    preFilterEvents question kalshiEvents = top :: rest ->
    isStrong top = false ->
    llm question (indexFrom 0 (firstn 30 (top :: rest))) = Some a ->
    rejected (Some a) = false ->
    Num.index (firstn 30 (top :: rest)) (eventIndex a) = Some c ->
    Matches llm question kalshiEvents c (aiResultOf a c).

(** *** Sample data *)

Module Sample.

Definition electionQuestion : string :=
  "Will Donald Trump win the 2028 election?".

Definition electionEvent : KalshiEventRow :=
  mkEvent "K1" "Who will win the 2028 presidential election?"
          (Some "Trump vs others") None.

(** The same event with [markets_json = "{}"]. *)
Definition electionEventObject : KalshiEventRow :=
  mkEvent "K1" "Who will win the 2028 presidential election?"
          (Some "Trump vs others") (Some NotArray).

Definition ceasefireQuestion : string :=
  "Will Trump and Putin sign a Ukraine ceasefire?".

Definition ceasefireEvent : KalshiEventRow :=
  mkEvent "K2" "Trump, Putin and Zelensky agree a Ukraine ceasefire" None
          (Some (ArrayOf [Market (Some "closed") (Some "K2-A");
                          Market (Some "active") (Some "K2-B")])).

(** The same event with [markets_json = "{}"]. *)
Definition ceasefireEventObject : KalshiEventRow :=
  mkEvent "K2" "Trump, Putin and Zelensky agree a Ukraine ceasefire" None
          (Some NotArray).

Definition plainQuestion : string := "Will it rain in Paris tomorrow?".

Definition fedQuestion : string := "Will Trump replace the Fed chair?".

Definition fedEvent : KalshiEventRow :=
  mkEvent "K3" "Trump, the Fed and the government shutdown" None
          (Some (ArrayOf [Market (Some "settled") (Some "K3-A");
                          Market None (Some "K3-B")])).

(** The candidate records that the pre-filter builds for the election and
    the ceasefire scenario. *)
Definition electionCandidate : PreFilterResult :=
  mkPre "K1" "Who will win the 2028 presidential election?" "Trump vs others"
        (2 # 2) ["trump"] true.

Definition ceasefireCandidate : PreFilterResult :=
  mkPre "K2" "Trump, Putin and Zelensky agree a Ukraine ceasefire" ""
        (8 # 9) ["trump"; "putin"; "ukraine"; "ceasefire"] true.

(** Classifier stubs. *)
Definition unavailable : Classifier := fun _ _ => None.

Definition silent : Replies := fun _ _ => JNull.

Definition replying (index confidence : Q) : Replies :=
  fun _ _ => JObject [("eventIndex", JNumber (Finite index));
                      ("confidence", JNumber (Finite confidence));
                      ("reasoning", JString "Same resolution criteria");
                      ("matchedConcepts", JArray [JString "trump"; JString "election"])].

Definition answering (index confidence : Q) : Classifier :=
  fun _ _ => Some (mkAI index confidence (Some "Same resolution criteria")
                        (Some ["trump"; "election"])).

Definition storedMatch : Db.MatchInput :=
  Db.mkInput "poly-1" electionQuestion (Some "K1") None
             (Some "Who will win the 2028 presidential election?")
             0.9 90 "ai" ["trump"] (Some "Same resolution criteria")
             (Some 24%Z).

Definition staleRow : Db.MarketMatchRow :=
  Db.mkRow 1 "poly-1" electionQuestion None None None 0 0 "none" (Some [])
           (Some "No entity overlap found")
           (Db.datetimeNow 0) (Db.toISOString 86400000).

Definition sampleDb : Db.Database :=
  Db.mkDb ["poly-1"; "poly-2"] [staleRow] 1.

End Sample.

(* ================================================================== *)
(** ** The tables around the match cache *)
(* ================================================================== *)

Module Store.

(** The columns of [markets] that the queries below read. *)
Record MarketRow : Type := mkMarket {
  id : string;
  question : string;
  active : Z;
  closed : Z;
  volume_24hr : Q
}.

(** A row of [kalshi_events]: the columns the matcher reads, and the two
    columns [getKalshiEvents] filters and orders by. *)
Record KalshiStored : Type := mkStored {
  event : KalshiEventRow;
  category : option string;
  updated_at : Db.Stamp
}.

Record Tables : Type := mkTables {
  markets : list MarketRow;
  kalshi_events : list KalshiStored;
  market_matches : list Db.MarketMatchRow;
  sequence : Z
}.

(** The part of the tables that [upsertMarketMatch] and [getMarketMatch]
    work on, and its write-back. *)
Definition matchDb (t : Tables) : Db.Database :=
  Db.mkDb (map id (markets t)) (market_matches t) (sequence t).

Definition putMatchDb (t : Tables) (db : Db.Database) : Tables :=
  mkTables (markets t) (kalshi_events t) (Db.market_matches db) (Db.sequence db).

(** [ORDER BY key DESC]: [before y x] says that [y] sorts strictly before
    [x]; rows that compare equal keep the order of the table. *)
Fixpoint insertDesc {A : Type} (before : A -> A -> bool) (x : A) (l : list A)
    : list A :=
  match l with
  | [] => [x]
  | y :: l' => if before y x then y :: insertDesc before x l' else x :: l
  end.

Definition sortDesc {A : Type} (before : A -> A -> bool) (l : list A) : list A :=
  fold_right (insertDesc before) [] l.

(** [LIMIT ?]: a negative limit is no limit. *)
Definition limitTo {A : Type} (limit : Z) (l : list A) : list A :=
  if (limit <? 0)%Z then l else firstn (Z.to_nat limit) l.

(** The limit is an integer strictly between the least and the greatest
    integer of 64 bits.  The driver binds a number outside 32 bits as REAL,
    and SQLite takes a REAL after [LIMIT] only when it converts to such an
    integer; any other number is refused with a datatype mismatch. *)
Definition accepted (limit : Z) : Prop :=
  (-9223372036854775808 < limit < 9223372036854775807)%Z.

(** [expires_at > datetime('now')] *)
Definition isLive (now : Z) (r : Db.MarketMatchRow) : bool :=
  Db.textGt (Db.expires_at r) (Db.datetimeNow now).


(** The LEFT JOIN finds a live match row for the market. *)
Definition hasLiveMatch (t : Tables) (now : Z) (m : MarketRow) : bool :=
  existsb (fun mm => String.eqb (id m) (Db.polymarket_id mm) && isLive now mm)
          (market_matches t).

(** [getUnmatchedMarketIds] at time [now]. *)
Definition getUnmatchedMarketIds (t : Tables) (limit : Z) (now : Z)
    : list (string * string) :=
  map (fun m => (id m, question m))
      (limitTo limit
         (sortDesc (fun a b => Num.ltb (volume_24hr b) (volume_24hr a))
            (filter (fun m => (active m =? 1)%Z && (closed m =? 0)%Z
                              && negb (hasLiveMatch t now m))
                    (markets t)))).

(** [getKalshiEvents]: [category] is used when it is a non-empty string. *)
Definition getKalshiEvents (t : Tables) (limit : Z) (cat : option string)
    : list KalshiEventRow :=
  let selected :=
    match orNull cat with
    | Some c => filter (fun e => match category e with
                                 | Some c' => String.eqb c' c
                                 | None => false
                                 end) (kalshi_events t)
    | None => kalshi_events t
    end in
  map event
      (limitTo limit
         (sortDesc (fun a b => Db.textGt (updated_at a) (updated_at b)) selected)).

(** [getAllMarketMatches] at time [now]. *)
Definition getAllMarketMatches (t : Tables) (limit : Z) (minConfidence : Q)
    (now : Z) : list Db.MarketMatchRow :=
  limitTo limit
    (sortDesc (fun a b => Num.ltb (Db.row_confidence b) (Db.row_confidence a))
       (filter (fun r => isLive now r && Num.geb (Db.row_confidence r) minConfidence)
               (market_matches t))).

End Store.

(* ================================================================== *)
(** ** Callers of the decision engine *)
(* ================================================================== *)

Definition MATCH_TTL_HOURS : Z := 24.

(** The string a [matchMethod] is. *)
Definition methodName (m : MatchMethod) : string :=
  match m with
  | entity => "entity"
  | ai => "ai"
  | none => "none"
  end.

(** The argument that both callers hand to [upsertMarketMatch]. *)
Definition toInput (polymarketId question : string) (result : MatchResult)
    : Db.MatchInput :=
  Db.mkInput polymarketId question
    (kalshiEventTicker result) (kalshiMarketTicker result)
    (kalshiEventTitle result) (similarity result) (confidence result)
    (methodName (matchMethod result)) (resMatchedEntities result)
    (reasoning result) (Some MATCH_TTL_HOURS).

(** [MatchResult & { cached: boolean }], the method as the string it is. *)
Record Served : Type := mkServed {
  servedEventTicker : option string;
  servedMarketTicker : option string;
  servedEventTitle : option string;
  servedSimilarity : Q;
  servedConfidence : Q;
  servedMethod : string;
  servedEntities : list string;
  servedReasoning : option string;
  cached : bool
}.

(** The object built from a cached row. *)
Definition fromRow (row : Db.MarketMatchRow) : Served :=
  mkServed (Db.kalshi_event_ticker row) (Db.kalshi_market_ticker row)
    (Db.kalshi_event_title row) (Db.row_similarity row) (Db.row_confidence row)
    (Db.match_method row)
    (match Db.matched_entities row with Some l => l | None => [] end)
    (Db.row_reasoning row) true.

(** [{ ...result, cached: false }] *)
Definition fresh (result : MatchResult) : Served :=
  mkServed (kalshiEventTicker result) (kalshiMarketTicker result)
    (kalshiEventTitle result) (similarity result) (confidence result)
    (methodName (matchMethod result)) (resMatchedEntities result)
    (reasoning result) false.

Inductive Failure : Type :=
| DecisionThrew (e : Thrown)
| StoreRefused (e : Db.SqliteError).

(** A call of [getOrMatchMarket]: how the promise settles, the tables
    afterwards and the classifier calls made. *)
Record Lookup : Type := mkLookup {
  served : Failure + Served;
  tablesAfter : Store.Tables;
  lookupCalls : list (string * list Indexed)
}.

(** [getOrMatchMarket]: the cache is read at [now]; a fresh result is
    stored at [storedAt]. *)
Definition getOrMatchMarket (callLLMForMatch : Classifier) (t : Store.Tables)
    (polymarketId question : string) (now storedAt : Z) : Lookup :=
  match Db.getMarketMatch (Store.matchDb t) polymarketId now with
  | Some row => mkLookup (inr (fromRow row)) t []
  | None =>
      let kalshiEvents := Store.getKalshiEvents t 500 None in
      let run := matchSingleMarket callLLMForMatch question kalshiEvents in
      match settled run with
      | inl e => mkLookup (inl (DecisionThrew e)) t (calls run)
      | inr result =>
          let (db', stored) :=
            Db.upsertMarketMatch (Store.matchDb t)
                                 (toInput polymarketId question result) storedAt in
          match stored with
          | inl e => mkLookup (inl (StoreRefused e)) (Store.putMatchDb t db') (calls run)
          | inr _ => mkLookup (inr (fresh result)) (Store.putMatchDb t db') (calls run)
          end
      end
  end.

Record Counts : Type := mkCounts {
  matchedCount : nat;
  noMatchCount : nat;
  errorCount : nat
}.

(** The state of the batch loop: the tables, the counters and the
    classifier calls made so far. *)
Record Batch : Type := mkBatch {
  batchTables : Store.Tables;
  counts : Counts;
  batchCalls : list (string * list Indexed)
}.

(** [if (result.kalshiEventTicker)] *)
Definition truthy (s : option string) : bool :=
  match orNull s with Some _ => true | None => false end.

(** One iteration of the loop of [autoMatchMarkets], its result stored at
    [storedAt]; the [catch] counts an error. *)
Definition matchOne (callLLMForMatch : Classifier)
    (kalshiEvents : list KalshiEventRow) (st : Batch)
    (item : string * string) (storedAt : Z) : Batch :=
  let (marketId, question) := item in
  let run := matchSingleMarket callLLMForMatch question kalshiEvents in
  let log := batchCalls st ++ calls run in
  let c := counts st in
  match settled run with
  | inl _ => mkBatch (batchTables st)
                     (mkCounts (matchedCount c) (noMatchCount c) (S (errorCount c))) log
  | inr result =>
      let (db', stored) :=
        Db.upsertMarketMatch (Store.matchDb (batchTables st))
                             (toInput marketId question result) storedAt in
      let t' := Store.putMatchDb (batchTables st) db' in
      match stored with
      | inl _ => mkBatch t' (mkCounts (matchedCount c) (noMatchCount c) (S (errorCount c))) log
      | inr _ =>
          if truthy (kalshiEventTicker result)
          then mkBatch t' (mkCounts (S (matchedCount c)) (noMatchCount c) (errorCount c)) log
          else mkBatch t' (mkCounts (matchedCount c) (S (noMatchCount c)) (errorCount c)) log
      end
  end.

(** The loop over the unmatched markets; [clock i] is the time at which
    the result of the [i]-th market is stored. *)
Fixpoint matchFrom (callLLMForMatch : Classifier)
    (kalshiEvents : list KalshiEventRow) (clock : nat -> Z) (i : nat)
    (items : list (string * string)) (st : Batch) : Batch :=
  match items with
  | [] => st
  | item :: rest =>
      matchFrom callLLMForMatch kalshiEvents clock (S i) rest
        (matchOne callLLMForMatch kalshiEvents st item (clock i))
  end.

(** [autoMatchMarkets], started at [now]. *)
Definition autoMatchMarkets (callLLMForMatch : Classifier) (t : Store.Tables)
    (batchSize : Z) (now : Z) (clock : nat -> Z) : Batch :=
  let unmatched := Store.getUnmatchedMarketIds t batchSize now in
  if (List.length unmatched =? 0)%nat then mkBatch t (mkCounts 0 0 0) []
  else
    let kalshiEvents := Store.getKalshiEvents t 500 None in
    if (List.length kalshiEvents =? 0)%nat then mkBatch t (mkCounts 0 0 0) []
    else matchFrom callLLMForMatch kalshiEvents clock 0 unmatched
                   (mkBatch t (mkCounts 0 0 0) []).




(** *** Vocabulary for the properties of this code *)

(** The nested-markets JSON of a row is as the schema documents it: absent,
    or an array without [null] entries. *)
Definition wellFormedRow (e : KalshiEventRow) : Prop :=
  match markets_json e with
  | None | Some EmptyText => True
  | Some (ArrayOf ms) => Forall properMarket ms
  | Some Unparsable | Some NotArray => False
  end.

(** The invariant of the extraction loops: [seen] is the list of the
    normalized keys of [entities], without repetition, and every entity is
    well formed. *)
Definition extracted (good : ExtractedEntity -> Prop)
    (acc : list ExtractedEntity * list string) : Prop :=
  snd acc = map normalized (fst acc) /\ NoDup (snd acc) /\ Forall good (fst acc).

Definition goodEntity (cats : list string) (e : ExtractedEntity) : Prop :=
  normalized e = normalizeEntity (value e) /\ value e <> ""
  /\ In (entCategory e) cats.

(** Two states of the extraction loops with the same [seen] set and the
    same keys and categories, entity by entity. *)
Definition sameKeys (acc' acc : list ExtractedEntity * list string) : Prop :=
  snd acc' = snd acc
  /\ map normalized (fst acc') = map normalized (fst acc)
  /\ map entCategory (fst acc') = map entCategory (fst acc).

(** The comparison of [ORDER BY key DESC] for a numeric key. *)
Definition byKey (A : Type) (key : A -> Q) (y x : A) : bool :=
  Num.ltb (key x) (key y).

Definition lowerCursor (st : Regex.cursor) : Regex.cursor :=
  Regex.mkCursor (map Text.lowerChar (Regex.before st))
                 (map Text.lowerChar (Regex.after st))
                 (option_map (map Text.lowerChar) (Regex.group1 st)).


(** Integrity of the match table: every row refers to a row of [markets],
    and the row ids are distinct and not above the AUTOINCREMENT sequence. *)
Definition consistent (db : Db.Database) : Prop :=
  Forall (fun r => In (Db.polymarket_id r) (Db.markets db)) (Db.market_matches db)
  /\ Forall (fun r => (Db.id r <= Db.sequence db)%Z) (Db.market_matches db)
  /\ NoDup (map Db.id (Db.market_matches db)).

(** The market is active, not closed and has no live match row at [now]. *)
Definition unmatchedAt (t : Store.Tables) (now : Z) (m : Store.MarketRow) : Prop :=
  In m (Store.markets t) /\ Store.active m = 1%Z /\ Store.closed m = 0%Z
  /\ Db.getMarketMatch (Store.matchDb t) (Store.id m) now = None.

(** The row is live at [now] with at least the confidence asked for. *)
Definition listedAt (t : Store.Tables) (minConfidence : Q) (now : Z)
    (r : Db.MarketMatchRow) : Prop :=
  In r (Store.market_matches t) /\ Store.isLive now r = true
  /\ (minConfidence <= Db.row_confidence r)%Q.

(** A result can be stored at this instant: the instant and the expiry,
    [MATCH_TTL_HOURS] later, lie in the years 0000 to 9999. *)
Definition storable (instant : Z) : Prop :=
  Db.plainEra instant
  /\ Db.plainEra (instant + MATCH_TTL_HOURS * 60 * 60 * 1000).

(** The same answer, marked as read from the cache. *)
Definition asCached (s : Served) : Served :=
  mkServed (servedEventTicker s) (servedMarketTicker s) (servedEventTitle s)
    (servedSimilarity s) (servedConfidence s) (servedMethod s)
    (servedEntities s) (servedReasoning s) true.




Module Scenario.

Definition tables : Store.Tables :=
  Store.mkTables
    [Store.mkMarket "poly-1" Sample.electionQuestion 1 0 1500;
     Store.mkMarket "poly-2" Sample.plainQuestion 1 0 900;
     Store.mkMarket "poly-3" Sample.ceasefireQuestion 0 0 5000]
    [Store.mkStored Sample.electionEvent (Some "Politics")
                    (Db.datetimeNow 5000)]
    [] 0.

End Scenario.

(* ================================================================== *)
(** ** The pattern table *)
(* ================================================================== *)

Section Patterns.

Import Regex.

Lemma plus_progress (p : cclass) (pre rest : list ascii) (g : option (list ascii))
    (k : cursor -> option cursor) (res : cursor) :
  plus p pre rest g k = Some res ->
  exists mid, k mid = Some res
    /\ (List.length (after mid) + 1 <= List.length rest)%nat
    /\ (List.length (before mid) + List.length (after mid)
        = List.length pre + List.length rest)%nat.
Proof.
  revert pre. induction rest as [|c tl IH]; intros pre; cbn [plus]; [discriminate|].
  destruct (matches p c); [|discriminate].
  destruct (plus p (c :: pre) tl g k) as [r|] eqn:E.
  - intros H. injection H as ->. destruct (IH _ E) as [mid [Hk [Hlen Htot]]].
    exists mid. cbn [List.length] in *. repeat split; [assumption | lia | lia].
  - intros H. exists (mkCursor (c :: pre) tl g).
    cbn [before after List.length]. repeat split; [assumption | lia | lia].
Qed.

(** A successful match hands to its continuation a cursor of the same text
    that lies at least [minLen] characters further. *)
Lemma run_progress (r : regex) :
  forall (st : cursor) (k : cursor -> option cursor) (res : cursor),
    run r st k = Some res ->
    exists mid, k mid = Some res
      /\ (List.length (after mid) + minLen r <= List.length (after st))%nat
      /\ (List.length (before mid) + List.length (after mid)
          = List.length (before st) + List.length (after st))%nat.
Proof.
  induction r as [| |p|p|r1 IH1| |r1 IH1 r2 IH2|r1 IH1 r2 IH2|r1 IH1];
    intros st k res; cbn [run minLen].
  - intros H. exists st. repeat split; [assumption | lia].
  - discriminate.
  - destruct (after st) as [|c tl] eqn:Ea; [discriminate|].
    destruct (matches p c); [|discriminate].
    intros H. exists (mkCursor (c :: before st) tl (group1 st)).
    cbn [before after List.length]. repeat split; [assumption | lia | lia].
  - intros H. destruct (plus_progress _ _ _ _ _ _ H) as [mid [Hk [Hlen Htot]]].
    exists mid. auto.
  - destruct (run r1 st k) as [r|] eqn:E.
    + intros H. injection H as ->. destruct (IH1 _ _ _ E) as [mid [Hk [Hlen Htot]]].
      exists mid. repeat split; [assumption | lia | lia].
    + intros H. exists st. repeat split; [assumption | lia].
  - destruct (atBoundary st); [|discriminate].
    intros H. exists st. repeat split; [assumption | lia].
  - intros H. destruct (IH1 _ _ _ H) as [mid1 [Hk1 [Hlen1 Htot1]]].
    destruct (IH2 _ _ _ Hk1) as [mid [Hk [Hlen Htot]]].
    exists mid. repeat split; [assumption | lia | lia].
  - destruct (run r1 st k) as [r|] eqn:E.
    + intros H. injection H as ->. destruct (IH1 _ _ _ E) as [mid [Hk [Hlen Htot]]].
      exists mid. repeat split; [assumption | lia | lia].
    + intros H. destruct (IH2 _ _ _ H) as [mid [Hk [Hlen Htot]]].
      exists mid. repeat split; [assumption | lia | lia].
  - intros H. destruct (IH1 _ _ _ H) as [mid [Hk [Hlen Htot]]].
    eexists. split; [exact Hk|]. cbn [before after]. auto.
Qed.

(** Every match of a pattern with [minLen >= 1] is non-empty, so the
    [exec] loop of the source moves [lastIndex] forward at every match. *)
Lemma match_nonempty (r : regex) (st st' : cursor) :
  (1 <= minLen r)%nat ->
  run r st Some = Some st' ->
  (1 <= List.length (between st st'))%nat.
Proof.
  intros Hmin H. destruct (run_progress r st Some st' H) as [mid [Hk [Hlen Htot]]].
  injection Hk as ->. unfold between.
  rewrite length_rev, length_firstn. lia.
Qed.

(** Every pattern source of the table is read in full, and no pattern of
    the table matches the empty string. *)
Lemma ENTITY_PATTERNS_wellformed :
  forallb (fun g => forallb (fun r => negb (isNever r) && (1 <=? minLen r)%nat)
                            (patterns g))
          ENTITY_PATTERNS = true.
Proof. vm_compute. reflexivity. Qed.

End Patterns.

(* ================================================================== *)
(** ** Lists of keys *)
(* ================================================================== *)

Section Keys.

Lemma mem_In (x : string) (l : list string) : Text.mem x l = true <-> In x l.
Proof.
  unfold Text.mem. rewrite existsb_exists. split.
  - intros [y [Hy Heq]]. apply String.eqb_eq in Heq. now subst.
  - intros H. exists x. split; [assumption | apply String.eqb_refl].
Qed.

Lemma mem_false (x : string) (l : list string) : Text.mem x l = false <-> ~ In x l.
Proof.
  rewrite <- mem_In. destruct (Text.mem x l); split; congruence.
Qed.

Lemma setOf_fold_NoDup (xs acc : list string) :
  NoDup acc ->
  NoDup (fold_left (fun s x => if Text.mem x s then s else s ++ [x]) xs acc).
Proof.
  revert acc. induction xs as [|x xs IH]; intros acc Hacc; simpl; [assumption|].
  apply IH. destruct (Text.mem x acc) eqn:E; [assumption|].
  apply mem_false in E.
  apply NoDup_rev in Hacc.
  rewrite <- (rev_involutive (acc ++ [x])). apply NoDup_rev.
  rewrite rev_app_distr. simpl. constructor; [|assumption].
  now rewrite <- in_rev.
Qed.

Lemma setOf_NoDup (xs : list string) : NoDup (setOf xs).
Proof. apply setOf_fold_NoDup. constructor. Qed.

Lemma setOf_fold_In (xs acc : list string) (y : string) :
  In y (fold_left (fun s x => if Text.mem x s then s else s ++ [x]) xs acc)
  <-> In y acc \/ In y xs.
Proof.
  revert acc. induction xs as [|x xs IH]; intros acc; simpl.
  - tauto.
  - rewrite IH. destruct (Text.mem x acc) eqn:E.
    + apply mem_In in E. split; [tauto|].
      intros [H|[H|H]]; subst; tauto.
    + rewrite in_app_iff. simpl. tauto.
Qed.

Lemma setOf_In (xs : list string) (y : string) : In y (setOf xs) <-> In y xs.
Proof. unfold setOf. rewrite setOf_fold_In. simpl. tauto. Qed.

Lemma setOf_nil_iff (xs : list string) : setOf xs = [] <-> xs = [].
Proof.
  split; intros H; [|now subst].
  destruct xs as [|x xs]; [reflexivity|].
  assert (Hin : In x (setOf (x :: xs))) by (apply setOf_In; now left).
  rewrite H in Hin. contradiction.
Qed.

Lemma intersect_In (a b : list string) (x : string) :
  In x (intersect a b) <-> In x a /\ In x b.
Proof. unfold intersect. rewrite filter_In, mem_In. tauto. Qed.

Lemma intersect_NoDup (a b : list string) : NoDup a -> NoDup (intersect a b).
Proof. apply NoDup_filter. Qed.

Lemma intersect_length_l (a b : list string) :
  (List.length (intersect a b) <= List.length a)%nat.
Proof. apply filter_length_le. Qed.

Lemma intersect_length_r (a b : list string) :
  NoDup a -> (List.length (intersect a b) <= List.length b)%nat.
Proof.
  intros Ha. apply NoDup_incl_length; [now apply intersect_NoDup|].
  intros x Hx. now apply intersect_In in Hx.
Qed.

Lemma intersect_length_comm (a b : list string) :
  NoDup a -> NoDup b ->
  List.length (intersect a b) = List.length (intersect b a).
Proof.
  intros Ha Hb. apply Permutation_length.
  apply NoDup_Permutation; try now apply intersect_NoDup.
  intros x. rewrite !intersect_In. tauto.
Qed.

End Keys.

(* ================================================================== *)
(** ** Arithmetic of the overlap score *)
(* ================================================================== *)

Section Score.

Lemma ofNat_pos (n : nat) : (0 < n)%nat -> (0 < Num.ofNat n)%Q.
Proof. intros H. unfold Num.ofNat, Qlt. simpl. lia. Qed.

Lemma dice_pos (m s c : nat) :
  (0 < m)%nat -> (0 < s + c)%nat -> (0 < dice m s c)%Q.
Proof.
  intros Hm Hsc. unfold dice.
  apply Qlt_shift_div_l; [now apply ofNat_pos|].
  rewrite Qmult_0_l. apply ofNat_pos. lia.
Qed.

Lemma dice_le_1 (m s c : nat) :
  (m <= s)%nat -> (m <= c)%nat -> (0 < s + c)%nat -> (dice m s c <= 1)%Q.
Proof.
  intros Hs Hc Hsc. unfold dice.
  apply Qle_shift_div_r; [now apply ofNat_pos|].
  rewrite Qmult_1_l. unfold Num.ofNat, Qle. simpl. lia.
Qed.

Lemma dice_comm (m s c : nat) : dice m s c = dice m c s.
Proof. unfold dice. now rewrite (Nat.add_comm s c). Qed.

End Score.

(* ================================================================== *)
(** ** The pre-filter *)
(* ================================================================== *)

Section PreFilter.

Lemma intersect_nil_r (a : list string) : intersect a [] = [].
Proof. unfold intersect. induction a as [|x a IH]; simpl; auto. Qed.

Lemma length_zero_iff {A : Type} (l : list A) :
  (List.length l =? 0)%nat = true <-> l = [].
Proof.
  rewrite Nat.eqb_eq. destruct l; simpl; split; congruence.
Qed.

(** The loop body, in terms of the candidate record. *)
Lemma considerEvent_unfold (question : string) (event : KalshiEventRow) :
  considerEvent (keysOf question) (extractSemanticContext question) event =
  let c := candidateOf question event in
  if (List.length (matchedEntities c) =? 0)%nat then None
  else if (List.length (matchedEntities c) =? 1)%nat && negb (contextCompatible c)
       then None
       else Some c.
Proof.
  unfold considerEvent, candidateOf, keysOf.
  cbn [matchedEntities contextCompatible].
  generalize (extractSemanticContext question) (extractSemanticContext (eventText event)).
  generalize (setOf (map normalized (extractEntities question))).
  generalize (event_ticker event) (title event) (orEmpty (subtitle event)).
  generalize (extractEntities (eventText event)).
  intros [|e es] tk ti su qn c1 c2.
  - cbn [List.length Nat.eqb map]. unfold setOf. cbn [fold_left].
    rewrite intersect_nil_r. reflexivity.
  - cbn [List.length Nat.eqb]. reflexivity.
Qed.

Lemma collect_In {A B : Type} (f : A -> option B) (l : list A) (y : B) :
  In y (collect f l) <-> exists x, In x l /\ f x = Some y.
Proof.
  induction l as [|a l IH]; simpl.
  - split; [contradiction | intros [x [[] _]]].
  - destruct (f a) eqn:E; simpl; rewrite IH; split.
    + intros [H|[x [Hx Hf]]]; [exists a; subst; auto | exists x; auto].
    + intros [x [[H|H] Hf]]; [left; congruence | right; exists x; auto].
    + intros [x [Hx Hf]]. exists x; auto.
    + intros [x [[H|H] Hf]]; [congruence | exists x; auto].
Qed.

Lemma insertByScore_perm (x : PreFilterResult) (l : list PreFilterResult) :
  Permutation (insertByScore x l) (x :: l).
Proof.
  induction l as [|y l IH]; simpl; [reflexivity|].
  destruct (Num.ltb (entityScore x) (entityScore y)); [|reflexivity].
  rewrite IH. apply perm_swap.
Qed.

Lemma sortByScore_perm (l : list PreFilterResult) : Permutation (sortByScore l) l.
Proof.
  induction l as [|x l IH]; simpl; [reflexivity|].
  rewrite insertByScore_perm. now constructor.
Qed.

Lemma sortByScore_In (l : list PreFilterResult) (r : PreFilterResult) :
  In r (sortByScore l) <-> In r l.
Proof.
  split; apply Permutation_in; [|symmetry]; apply sortByScore_perm.
Qed.

(** Membership in the output of the pre-filter. *)
Lemma preFilterEvents_In (question : string) (events : list KalshiEventRow)
    (r : PreFilterResult) :
  In r (preFilterEvents question events) <->
  extractEntities question <> [] /\
  exists event, In event events /\
    considerEvent (keysOf question) (extractSemanticContext question) event = Some r.
Proof.
  unfold preFilterEvents.
  destruct (List.length (extractEntities question) =? 0)%nat eqn:E.
  - apply length_zero_iff in E. simpl. split; [contradiction | tauto].
  - rewrite sortByScore_In, collect_In. fold (keysOf question).
    split; [|tauto]. intros H. split; [|assumption].
    intros Hnil. rewrite Hnil in E. discriminate.
Qed.

(** What every surviving candidate looks like. *)
Lemma survivor_shape (question : string) (events : list KalshiEventRow)
    (r : PreFilterResult) :
  In r (preFilterEvents question events) ->
  exists event, In event events /\ r = candidateOf question event
    /\ matchedEntities r <> []
    /\ (List.length (matchedEntities r) = 1%nat -> contextCompatible r = true).
Proof.
  intros H. apply preFilterEvents_In in H. destruct H as [_ [event [Hin Hc]]].
  exists event. split; [assumption|].
  rewrite considerEvent_unfold in Hc. cbv zeta in Hc.
  destruct (List.length (matchedEntities (candidateOf question event)) =? 0)%nat eqn:E0;
    [discriminate|].
  destruct ((List.length (matchedEntities (candidateOf question event)) =? 1)%nat
            && negb (contextCompatible (candidateOf question event))) eqn:E1;
    [discriminate|].
  injection Hc as <-. split; [reflexivity|]. split.
  - intros Hnil. rewrite Hnil in E0. discriminate.
  - intros H1. rewrite H1 in E1. rewrite Nat.eqb_refl, andb_true_l in E1.
    now apply negb_false_iff in E1.
Qed.

Lemma candidate_score_bounds (question : string) (event : KalshiEventRow) :
  matchedEntities (candidateOf question event) <> [] ->
  (0 < entityScore (candidateOf question event)
   /\ entityScore (candidateOf question event) <= 1)%Q.
Proof.
  unfold candidateOf. cbn [entityScore matchedEntities]. intros Hne.
  set (a := keysOf question) in *. set (b := keysOf (eventText event)) in *.
  assert (Hpos : (0 < List.length (intersect a b))%nat).
  { destruct (intersect a b); [congruence | simpl; lia]. }
  pose proof (intersect_length_l a b) as Hl.
  pose proof (intersect_length_r a b (setOf_NoDup _)) as Hr.
  split; [apply dice_pos | apply dice_le_1]; lia.
Qed.

Lemma survivor_score_bounds (question : string) (events : list KalshiEventRow)
    (r : PreFilterResult) :
  In r (preFilterEvents question events) ->
  (0 < entityScore r /\ entityScore r <= 1)%Q.
Proof.
  intros H. destruct (survivor_shape _ _ _ H) as [event [_ [-> [Hne _]]]].
  now apply candidate_score_bounds.
Qed.

End PreFilter.

(** The pre-filter on the sample pools, evaluated once. *)
Section SampleFacts.

Lemma election_candidateOf :
  candidateOf Sample.electionQuestion Sample.electionEvent
  = Sample.electionCandidate.
Proof. vm_compute. reflexivity. Qed.

Lemma election_prefilter :
  preFilterEvents Sample.electionQuestion [Sample.electionEvent]
  = [Sample.electionCandidate].
Proof. vm_compute. reflexivity. Qed.

Lemma election_prefilter_object :
  preFilterEvents Sample.electionQuestion [Sample.electionEventObject]
  = [Sample.electionCandidate].
Proof. vm_compute. reflexivity. Qed.

Lemma ceasefire_prefilter :
  preFilterEvents Sample.ceasefireQuestion [Sample.ceasefireEvent]
  = [Sample.ceasefireCandidate].
Proof. vm_compute. reflexivity. Qed.

Lemma ceasefire_prefilter_object :
  preFilterEvents Sample.ceasefireQuestion [Sample.ceasefireEventObject]
  = [Sample.ceasefireCandidate].
Proof. vm_compute. reflexivity. Qed.

Lemma plain_no_entities : extractEntities Sample.plainQuestion = [].
Proof. vm_compute. reflexivity. Qed.

End SampleFacts.

(** C5. In the pre-filter, a candidate that shares at least one normalized
    entity with the source is dropped for context incompatibility only when
    exactly one entity matched: with exactly one matched entity it survives
    if and only if its context is compatible with the source's, and with two
    or more matched entities it survives whatever the contexts are. *)
Theorem prefilter_context_gate :
  forall (question : string) (events : list KalshiEventRow) (event : KalshiEventRow),
    In event events ->
    matchedEntities (candidateOf question event) <> [] ->
    let c := candidateOf question event in
    (List.length (matchedEntities c) = 1%nat ->
       (In c (preFilterEvents question events) <-> contextCompatible c = true))
    /\ ((2 <= List.length (matchedEntities c))%nat ->
       In c (preFilterEvents question events)).
Proof.
  intros question events event Hin Hne c.
  assert (Hq : extractEntities question <> []).
  { intros Hnil. apply Hne. unfold candidateOf, keysOf.
    cbn [matchedEntities]. rewrite Hnil. reflexivity. }
  assert (Hlen : (List.length (matchedEntities c) =? 0)%nat = false).
  { apply Nat.eqb_neq. intros H0. apply Hne.
    now apply length_zero_iff_nil in H0. }
  split.
  - intros H1. split.
    + intros Hsurv. destruct (survivor_shape _ _ _ Hsurv) as [_ [_ [_ [_ Hc]]]].
      now apply Hc.
    + intros Hcompat. apply preFilterEvents_In. split; [assumption|].
      exists event. split; [assumption|].
      rewrite considerEvent_unfold. cbv zeta. fold c.
      rewrite Hlen, Hcompat, andb_false_r. reflexivity.
  - intros H2. apply preFilterEvents_In. split; [assumption|].
    exists event. split; [assumption|].
    rewrite considerEvent_unfold. cbv zeta. fold c. rewrite Hlen.
    replace (List.length (matchedEntities c) =? 1)%nat with false
      by (symmetry; apply Nat.eqb_neq; lia).
    reflexivity.
Qed.

Lemma prefilter_context_gate_witness :
  let c := candidateOf Sample.electionQuestion Sample.electionEvent in
  (List.length (matchedEntities c) = 1%nat ->
     (In c (preFilterEvents Sample.electionQuestion [Sample.electionEvent])
      <-> contextCompatible c = true))
  /\ ((2 <= List.length (matchedEntities c))%nat ->
     In c (preFilterEvents Sample.electionQuestion [Sample.electionEvent])).
Proof.
  apply (prefilter_context_gate Sample.electionQuestion [Sample.electionEvent]
           Sample.electionEvent).
  - left. reflexivity.
  - rewrite election_candidateOf. discriminate.
Defined.

(** C6. Every surviving pre-filter candidate carries the Dice score
    [2 * |matched| / (|sourceKeys| + |candidateKeys|)] over the deduplicated
    normalized keys; the score lies in (0, 1]; and building the candidate
    with the roles of the two key sets swapped gives the same score. *)
Theorem entity_score_dice :
  forall (question : string) (events : list KalshiEventRow) (r : PreFilterResult),
    In r (preFilterEvents question events) ->
    exists event, In event events /\
      let sourceKeys := keysOf question in
      let candidateKeys := keysOf (eventText event) in
      NoDup sourceKeys /\ NoDup candidateKeys
      /\ matchedEntities r = intersect sourceKeys candidateKeys
      /\ (entityScore r ==
            2 * Num.ofNat (List.length (matchedEntities r))
            / (Num.ofNat (List.length sourceKeys)
               + Num.ofNat (List.length candidateKeys)))%Q
      /\ (0 < entityScore r)%Q /\ (entityScore r <= 1)%Q
      /\ (forall question' event',
            keysOf question' = candidateKeys ->
            keysOf (eventText event') = sourceKeys ->
            entityScore (candidateOf question' event') = entityScore r).
Proof.
  intros question events r Hin.
  destruct (survivor_score_bounds _ _ _ Hin) as [Hpos Hle].
  destruct (survivor_shape _ _ _ Hin) as [event [Hev [Hr [Hne _]]]].
  exists event. split; [assumption|]. cbv zeta.
  split; [apply setOf_NoDup|]. split; [apply setOf_NoDup|].
  split; [now subst r|]. split.
  - subst r. unfold candidateOf. cbn [entityScore matchedEntities].
    unfold dice, Num.ofNat.
    rewrite Nat2Z.inj_mul, Nat2Z.inj_add, inject_Z_mult, inject_Z_plus.
    change (inject_Z (Z.of_nat 2)) with 2%Q. field.
    rewrite <- inject_Z_plus, <- Nat2Z.inj_add.
    assert (Hlen : (0 < List.length (intersect (keysOf question) (keysOf (eventText event))))%nat).
    { unfold candidateOf in Hne. cbn [matchedEntities] in Hne.
      destruct (intersect (keysOf question) (keysOf (eventText event)));
        [congruence | cbn [List.length]; lia]. }
    pose proof (intersect_length_l (keysOf question) (keysOf (eventText event))) as Hl.
    unfold Qeq. cbn [Qnum Qden inject_Z]. lia.
  - split; [assumption|]. split; [assumption|].
    intros question' event' Hq' He'. subst r.
    unfold candidateOf. cbn [entityScore]. rewrite Hq', He'.
    rewrite dice_comm. f_equal.
    apply intersect_length_comm; apply setOf_NoDup.
Qed.

Lemma entity_score_dice_witness :
  exists event, In event [Sample.electionEvent]
    /\ matchedEntities Sample.electionCandidate
       = intersect (keysOf Sample.electionQuestion) (keysOf (eventText event))
    /\ (0 < entityScore Sample.electionCandidate)%Q
    /\ (entityScore Sample.electionCandidate <= 1)%Q.
Proof.
  assert (Hin : In Sample.electionCandidate
                   (preFilterEvents Sample.electionQuestion [Sample.electionEvent]))
    by (rewrite election_prefilter; left; reflexivity).
  destruct (entity_score_dice Sample.electionQuestion [Sample.electionEvent]
              Sample.electionCandidate Hin) as [event [Hev H]].
  cbv zeta in H. destruct H as [_ [_ [Hm [_ [Hpos [Hle _]]]]]].
  exists event. exact (conj Hev (conj Hm (conj Hpos Hle))).
Defined.

(* ================================================================== *)
(** ** The semantic-context classifier *)
(* ================================================================== *)

Section Context.

Variable lower : string.

Lemma ctx_eqb_eq (a b : SemanticContext) : ctx_eqb a b = true <-> a = b.
Proof. destruct a, b; simpl; split; congruence. Qed.

Lemma contextStep_cases (st : SemanticContext * nat)
    (e : SemanticContext * list string) :
  (contextStep lower st e = st /\ (fst e <> unknown -> (entryCount lower e <= snd st)%nat))
  \/ (contextStep lower st e = (fst e, entryCount lower e)
      /\ fst e <> unknown /\ (snd st < entryCount lower e)%nat).
Proof.
  unfold contextStep, entryCount. destruct e as [ctx kws]. cbn [fst snd].
  destruct (ctx_eqb ctx unknown) eqn:E.
  - left. apply ctx_eqb_eq in E. split; [reflexivity | congruence].
  - destruct (snd st <? keywordCount lower kws)%nat eqn:L.
    + right. apply Nat.ltb_lt in L. split; [reflexivity|]. split; [|assumption].
      intros ->. discriminate.
    + left. apply Nat.ltb_ge in L. auto.
Qed.

(** The loop keeps the first entry that attains the greatest count above the
    initial one. *)
Lemma contextFold_spec (entries : list (SemanticContext * list string))
    (st : SemanticContext * nat) :
  let res := fold_left (contextStep lower) entries st in
  (res = st
   /\ forall e, In e entries -> fst e <> unknown -> (entryCount lower e <= snd st)%nat)
  \/ (exists pre e post,
        entries = pre ++ e :: post /\ fst e <> unknown
        /\ res = (fst e, entryCount lower e) /\ (snd st < entryCount lower e)%nat
        /\ (forall e', In e' pre -> fst e' <> unknown ->
                       (entryCount lower e' < entryCount lower e)%nat)
        /\ (forall e', In e' post -> fst e' <> unknown ->
                       (entryCount lower e' <= entryCount lower e)%nat)).
Proof.
  revert st. induction entries as [|a l IH]; intros st; cbn [fold_left].
  - left. split; [reflexivity | intros e []].
  - destruct (IH (contextStep lower st a)) as [[Hres Hall] | Hex];
      destruct (contextStep_cases st a) as [[Hst Ha] | [Hst [Hk Ha]]].
    + left. rewrite Hst in *. split; [assumption|].
      intros e [<-|He]; auto.
    + right. exists [], a, l. rewrite Hst in *. cbn [snd] in Hall.
      repeat split; auto. intros e' [].
    + right. destruct Hex as [pre [e [post [-> [Hk [Hres [Hlt [Hpre Hpost]]]]]]]].
      rewrite Hst in *. exists (a :: pre), e, post.
      repeat split; auto.
      intros e' [<-|He'] Hu; [specialize (Ha Hu); lia | auto].
    + right. destruct Hex as [pre [e [post [-> [Hk' [Hres [Hlt [Hpre Hpost]]]]]]]].
      rewrite Hst in *. cbn [snd] in Hlt. exists (a :: pre), e, post.
      repeat split; auto; [lia|].
      intros e' [<-|He'] Hu; [assumption | auto].
Qed.

End Context.

Lemma prefix_spec (kw s : string) :
  prefix kw s = true <-> exists post, s = (kw ++ post)%string.
Proof.
  revert s. induction kw as [|c kw IH]; intros s.
  - split; [intros _; now exists s | intros _; now destruct s].
  - destruct s as [|c' s]; simpl;
      [split; [discriminate | intros [post H]; discriminate]|].
    destruct (ascii_dec c c') as [<- | Hne].
    + rewrite IH. split; intros [post H]; exists post; congruence.
    + split; [discriminate|]. intros [post H]. congruence.
Qed.

(** [includes] finds exactly the contiguous occurrences. *)
Lemma includes_spec (s kw : string) :
  Text.includes s kw = true <-> exists pre post, s = (pre ++ kw ++ post)%string.
Proof.
  induction s as [|c s IH].
  - cbn [Text.includes]. destruct (prefix kw "") eqn:E.
    + split; [|reflexivity]. intros _. apply prefix_spec in E.
      destruct E as [post E]. now exists ""%string, post.
    + split; [discriminate|]. intros [pre [post H]].
      destruct pre as [|c' pre]; [|discriminate].
      cbn [append] in H. assert (Hp : prefix kw "" = true)
        by (apply prefix_spec; now exists post).
      congruence.
  - cbn [Text.includes]. destruct (prefix kw (String c s)) eqn:E.
    + split; [|reflexivity]. intros _. apply prefix_spec in E.
      destruct E as [post E]. now exists ""%string, post.
    + rewrite IH. split.
      * intros [pre [post H]]. exists (String c pre), post. cbn [append]. now rewrite H.
      * intros [pre [post H]]. destruct pre as [|c' pre].
        -- cbn [append] in H. assert (Hp : prefix kw (String c s) = true)
             by (apply prefix_spec; now exists post).
           congruence.
        -- cbn [append] in H. injection H as _ H. now exists pre, post.
Qed.

(** C7. The semantic-context classifier returns exactly one category.  With
    the count of a category being the number of its keywords that occur as
    contiguous substrings of the lowercased text, the result is [unknown]
    if and only if every other category counts 0; otherwise it is the
    category with the highest count, the first in the enumeration among
    those that attain it. *)
Theorem semantic_context_argmax :
  forall (text : string),
    let lower := Text.toLowerCase text in
    let c := extractSemanticContext text in
    exists occurs : string -> bool,
      (forall kw, occurs kw = true
                  <-> exists pre post, lower = (pre ++ kw ++ post)%string)
      /\ let count := fun kws : list string => List.length (filter occurs kws) in
         (c = unknown <->
            forall ctx kws, In (ctx, kws) CONTEXT_KEYWORDS -> ctx <> unknown ->
                            count kws = O)
         /\ (c <> unknown ->
             exists pre kws post,
               CONTEXT_KEYWORDS = pre ++ (c, kws) :: post
               /\ (0 < count kws)%nat
               /\ (forall ctx' kws', In (ctx', kws') pre -> ctx' <> unknown ->
                                     (count kws' < count kws)%nat)
               /\ (forall ctx' kws', In (ctx', kws') post -> ctx' <> unknown ->
                                     (count kws' <= count kws)%nat)).
Proof.
  intros text lower c. subst c.
  exists (Text.includes lower). split; [intros kw; apply includes_spec|].
  cbv zeta. fold (keywordCount lower).
  unfold extractSemanticContext, classifyWith. cbv zeta. fold lower.
  destruct (contextFold_spec lower CONTEXT_KEYWORDS (unknown, O))
    as [[Hres Hall] | [pre [e [post [Hsplit [Hk [Hres [Hlt [Hpre Hpost]]]]]]]]];
    rewrite Hres; unfold entryCount in *; cbn [fst snd] in *.
  - split.
    + split; [|reflexivity]. intros _ ctx kws Hin Hu.
      specialize (Hall (ctx, kws) Hin Hu). unfold entryCount in Hall.
      cbn [snd] in Hall. unfold keywordCount in *. lia.
    + intros Hc. congruence.
  - destruct e as [ctx kws]. cbn [fst snd] in *. split.
    + split; [intros Hc; congruence|].
      intros Hzero. exfalso.
      assert (Hin : In (ctx, kws) CONTEXT_KEYWORDS).
      { rewrite Hsplit. apply in_or_app. right. now left. }
      specialize (Hzero ctx kws Hin Hk). unfold keywordCount in *. lia.
    + intros _. exists pre, kws, post. split; [assumption|]. split; [assumption|].
      split.
      * intros ctx' kws' Hin Hu. exact (Hpre (ctx', kws') Hin Hu).
      * intros ctx' kws' Hin Hu. exact (Hpost (ctx', kws') Hin Hu).
Qed.

(** The rate question counts one keyword for [price] ("rate") and one for
    [outcome] ("will"): [price], enumerated first, is returned, and one of
    its keywords occurs in the lowercased text. *)
Lemma semantic_context_argmax_witness :
  extractSemanticContext "Will the Fed raise the RATE?" = price
  /\ exists kws kw pre post,
       In (price, kws) CONTEXT_KEYWORDS /\ In kw kws
       /\ "will the fed raise the rate?"%string = (pre ++ kw ++ post)%string.
Proof.
  assert (Hc : extractSemanticContext "Will the Fed raise the RATE?" = price)
    by (vm_compute; reflexivity).
  split; [exact Hc|].
  destruct (semantic_context_argmax "Will the Fed raise the RATE?")
    as [occurs [Hocc [_ Hmax]]].
  rewrite Hc in Hmax.
  destruct Hmax as [pre [kws [post [Hsplit [Hpos _]]]]]; [discriminate|].
  destruct (filter occurs kws) as [|kw hits] eqn:Hf; [cbn in Hpos; lia|].
  assert (Hin : In kw (filter occurs kws)) by (rewrite Hf; now left).
  apply filter_In in Hin. destruct Hin as [Hkw Hhit].
  apply Hocc in Hhit. destruct Hhit as [pre' [post' Heq]].
  exists kws, kw, pre', post'. split.
  - rewrite Hsplit. apply in_or_app. right. now left.
  - split; [exact Hkw | exact Heq].
Defined.

(* ================================================================== *)
(** ** Number facts *)
(* ================================================================== *)

Section Numbers.

Lemma ltb_lt (x y : Q) : Num.ltb x y = true <-> (x < y)%Q.
Proof.
  unfold Num.ltb. rewrite negb_true_iff. split.
  - intros H. apply Qnot_le_lt. intros Hle. apply Qle_bool_iff in Hle. congruence.
  - intros H. destruct (Qle_bool y x) eqn:E; [|reflexivity].
    apply Qle_bool_iff in E. exfalso. now apply (Qlt_not_le x y).
Qed.

Lemma ltb_ge (x y : Q) : Num.ltb x y = false <-> (y <= x)%Q.
Proof.
  unfold Num.ltb. rewrite negb_false_iff. apply Qle_bool_iff.
Qed.

Lemma geb_le (x y : Q) : Num.geb x y = true <-> (y <= x)%Q.
Proof. unfold Num.geb. apply Qle_bool_iff. Qed.

Lemma min_le_r (x y : Q) : (Num.min x y <= y)%Q.
Proof.
  unfold Num.min. destruct (Qle_bool x y) eqn:E.
  - now apply Qle_bool_iff.
  - apply Qle_refl.
Qed.

Lemma min_nonneg (x y : Q) : (0 <= x)%Q -> (0 <= y)%Q -> (0 <= Num.min x y)%Q.
Proof. intros Hx Hy. unfold Num.min. now destruct (Qle_bool x y). Qed.

Lemma nearestEven_nonneg (p q : Z) :
  (0 <= p)%Z -> (0 < q)%Z -> (0 <= Num.nearestEven p q)%Z.
Proof.
  intros Hp Hq. unfold Num.nearestEven.
  assert (Hf : (0 <= p / q)%Z) by (apply Z.div_pos; assumption).
  destruct (2 * (p mod q) <? q)%Z; [assumption|].
  destruct (q <? 2 * (p mod q))%Z; [lia|].
  destruct (Z.even (p / q)); lia.
Qed.

Lemma roundPos_nonneg (n d : positive) : (0 <= Num.roundPos n d)%Q.
Proof.
  unfold Num.roundPos.
  destruct (0 <=? Z.max (Num.floorLog2 n d - 52) (-1074))%Z eqn:E.
  - apply Z.leb_le in E. change 0%Q with (inject_Z 0). rewrite <- Zle_Qle.
    apply Z.mul_nonneg_nonneg.
    + apply nearestEven_nonneg; [lia|].
      apply Z.mul_pos_pos; [lia|]. now apply Z.pow_pos_nonneg.
    + now apply Z.pow_nonneg.
  - unfold Qle. cbn [Qnum Qden]. rewrite Z.mul_0_l, Z.mul_1_r.
    apply nearestEven_nonneg; [|lia].
    apply Z.mul_nonneg_nonneg; [lia|]. now apply Z.pow_nonneg.
Qed.

(** Rounding keeps the sign. *)
Lemma double_nonneg (x : Q) : (0 <= x)%Q -> (0 <= Num.double x)%Q.
Proof.
  intros H. unfold Num.double. destruct x as [[|n|n] d]; cbn [Qnum Qden].
  - apply Qle_refl.
  - apply roundPos_nonneg.
  - exfalso. unfold Qle in H. cbn [Qnum Qden] in H. lia.
Qed.

Lemma double_095 : (Num.double 0.95 <= 1)%Q.
Proof. apply Qle_bool_iff. vm_compute. reflexivity. Qed.

Lemma round_isInteger (x : Q) : Num.isInteger (Num.round x) = true.
Proof.
  unfold Num.isInteger, Num.round. rewrite Qfloor_Z. apply Qeq_bool_refl.
Qed.

Lemma round_bounds (x : Q) (n : Z) :
  (0 <= x)%Q -> (x <= inject_Z n)%Q ->
  (0 <= Num.round x)%Q /\ (Num.round x <= inject_Z n)%Q.
Proof.
  intros H0 Hn. unfold Num.round. split.
  - change 0%Q with (inject_Z 0). rewrite <- Zle_Qle.
    rewrite <- (Qfloor_Z 0). apply Qfloor_resp_le.
    apply Qle_trans with x; [assumption|].
    rewrite <- (Qplus_0_r x) at 1. apply Qplus_le_r. discriminate.
  - rewrite <- Zle_Qle.
    assert (H : (Qfloor (x + (1 # 2)) <= Qfloor (inject_Z n + (1 # 2)))%Z).
    { apply Qfloor_resp_le. now apply Qplus_le_l. }
    assert (Hn2 : Qfloor (inject_Z n + (1 # 2)) = n).
    { unfold Qfloor, Qplus, inject_Z. cbn [Qnum Qden Pos.mul].
      symmetry. apply Z.div_unique with 1%Z; lia. }
    lia.
Qed.

End Numbers.

(* ================================================================== *)
(** ** The decision engine *)
(* ================================================================== *)

Section Decide.

Variable llm : Classifier.
Variable question : string.
Variable kalshiEvents : list KalshiEventRow.

Lemma run_no_candidates :
  preFilterEvents question kalshiEvents = [] ->
  matchSingleMarket llm question kalshiEvents
  = mkRun (inr (noMatch "No entity overlap found")) [].
Proof.
  intros H. unfold matchSingleMarket. rewrite H. reflexivity.
Qed.

Lemma run_strong (top : PreFilterResult) (rest : list PreFilterResult) :
  preFilterEvents question kalshiEvents = top :: rest ->
  isStrong top = true ->
  matchSingleMarket llm question kalshiEvents
  = mkRun (withMarket kalshiEvents (eventTicker top) (strongResult top)) [].
Proof.
  intros H Hs. unfold matchSingleMarket. rewrite H.
  cbv beta iota zeta. rewrite Hs. reflexivity.
Qed.

Lemma run_classifier (top : PreFilterResult) (rest : list PreFilterResult) :
  preFilterEvents question kalshiEvents = top :: rest ->
  isStrong top = false ->
  let topN := firstn 30 (top :: rest) in
  let sent := indexFrom 0 topN in
  let aiResult := llm question sent in
  calls (matchSingleMarket llm question kalshiEvents) = [(question, sent)]
  /\ settled (matchSingleMarket llm question kalshiEvents) =
     if rejected aiResult then
       if Num.geb (entityScore top) 0.4 && contextCompatible top
       then withMarket kalshiEvents (eventTicker top) (fallbackResult top)
       else inr (noMatch (statedReasoning aiResult))
     else
       match aiResult with
       | None => inr (noMatch (statedReasoning aiResult))
       | Some r =>
           match Num.index topN (eventIndex r) with
           | None => inr (noMatch "AI returned out-of-bounds index")
           | Some c => withMarket kalshiEvents (eventTicker c) (aiResultOf r c)
           end
       end.
Proof.
  intros H Hs topN sent aiResult. unfold matchSingleMarket.
  rewrite H. cbv beta iota zeta. rewrite Hs.
  fold topN. fold sent. fold aiResult.
  destruct (rejected aiResult).
  - destruct (Num.geb (entityScore top) 0.4 && contextCompatible top);
      split; reflexivity.
  - destruct aiResult as [r|]; [|split; reflexivity].
    destruct (Num.index topN (eventIndex r)); split; reflexivity.
Qed.

(** The classifier is consulted exactly on the classifier tier, with the
    indexed top 30 candidates. *)
Lemma calls_inv (q' : string) (sent : list Indexed) :
  calls (matchSingleMarket llm question kalshiEvents) = [(q', sent)] ->
  exists top rest,
    preFilterEvents question kalshiEvents = top :: rest
    /\ isStrong top = false
    /\ q' = question
    /\ sent = indexFrom 0 (firstn 30 (top :: rest)).
Proof.
  intros Hc.
  destruct (preFilterEvents question kalshiEvents) as [|top rest] eqn:H.
  - rewrite (run_no_candidates H) in Hc. discriminate.
  - destruct (isStrong top) eqn:Hs.
    + rewrite (run_strong _ _ H Hs) in Hc. discriminate.
    + destruct (run_classifier _ _ H Hs) as [Hcalls _]. rewrite Hcalls in Hc.
      injection Hc as <- <-. exists top, rest. auto.
Qed.

Lemma withMarket_inr (ticker : string) (build : option string -> MatchResult)
    (tk : option string) :
  bestMarketTicker kalshiEvents ticker = inr tk ->
  withMarket kalshiEvents ticker build = inr (build tk).
Proof. intros H. unfold withMarket. now rewrite H. Qed.

Lemma withMarket_inl (ticker : string) (build : option string -> MatchResult)
    (e : Thrown) :
  bestMarketTicker kalshiEvents ticker = inl e ->
  withMarket kalshiEvents ticker build = inl e.
Proof. intros H. unfold withMarket. now rewrite H. Qed.

Lemma withMarket_result (ticker : string) (build : option string -> MatchResult)
    (r : MatchResult) :
  withMarket kalshiEvents ticker build = inr r ->
  exists tk, bestMarketTicker kalshiEvents ticker = inr tk /\ r = build tk.
Proof.
  unfold withMarket. destruct (bestMarketTicker kalshiEvents ticker) as [e|tk].
  - discriminate.
  - intros H. injection H as <-. now exists tk.
Qed.

Lemma isStrong_iff (top : PreFilterResult) :
  isStrong top = true <->
  (3 <= List.length (matchedEntities top))%nat /\ contextCompatible top = true.
Proof. unfold isStrong. rewrite andb_true_iff, Nat.leb_le. tauto. Qed.

End Decide.

(** C8. For every text from which no entity is extracted, the pre-filter
    returns the empty sequence, and the decision engine returns a result
    with method [none], confidence 0, similarity 0, no target identifiers
    and the reasoning "No entity overlap found", without consulting the
    classifier. *)
Theorem no_entities_no_match :
  forall (llm : Classifier) (question : string) (events : list KalshiEventRow),
    extractEntities question = [] ->
    preFilterEvents question events = []
    /\ calls (matchSingleMarket llm question events) = []
    /\ exists r,
         settled (matchSingleMarket llm question events) = inr r
         /\ matchMethod r = none
         /\ confidence r = 0%Q /\ similarity r = 0%Q
         /\ kalshiEventTicker r = None /\ kalshiMarketTicker r = None
         /\ kalshiEventTitle r = None
         /\ reasoning r = Some "No entity overlap found"
         /\ option_map Text.toLowerCase (reasoning r)
            = Some "no entity overlap found".
Proof.
  intros llm question events H.
  assert (Hpre : preFilterEvents question events = []).
  { unfold preFilterEvents. rewrite H. reflexivity. }
  rewrite (run_no_candidates llm question events Hpre).
  split; [assumption|]. split; [reflexivity|].
  eexists. split; [reflexivity|]. repeat split.
Qed.

Lemma no_entities_no_match_witness :
  preFilterEvents Sample.plainQuestion [Sample.electionEvent] = []
  /\ calls (matchSingleMarket Sample.unavailable Sample.plainQuestion
              [Sample.electionEvent]) = []
  /\ exists r,
       settled (matchSingleMarket Sample.unavailable Sample.plainQuestion
                  [Sample.electionEvent]) = inr r
       /\ matchMethod r = none
       /\ confidence r = 0%Q /\ similarity r = 0%Q
       /\ kalshiEventTicker r = None /\ kalshiMarketTicker r = None
       /\ kalshiEventTitle r = None
       /\ reasoning r = Some "No entity overlap found"
       /\ option_map Text.toLowerCase (reasoning r)
          = Some "no entity overlap found".
Proof.
  apply no_entities_no_match. exact plain_no_entities.
Defined.

(** C1 (as amended). When the pre-filter output is non-empty and its top
    candidate has at least 3 matched entities and is context-compatible,
    the decision engine does not consult the classifier; whenever the
    nested markets of the top candidate's event row can be read, it returns
    a result with method [entity], similarity [min(entityScore * 1.5, 0.95)]
    and confidence [round(min(entityScore * 150, 95))] computed from that
    candidate in binary64 arithmetic (the quotient that is the score, each
    product and the literal 0.95 are rounded to the nearest double), and
    otherwise the exception of that read is thrown. *)
Theorem strong_entity_match :
  forall (llm : Classifier) (question : string) (events : list KalshiEventRow)
         (top : PreFilterResult) (rest : list PreFilterResult),
    preFilterEvents question events = top :: rest ->
    (3 <= List.length (matchedEntities top))%nat ->
    contextCompatible top = true ->
    calls (matchSingleMarket llm question events) = []
    /\ (forall tk, bestMarketTicker events (eventTicker top) = inr tk ->
        exists r,
          settled (matchSingleMarket llm question events) = inr r
          /\ matchMethod r = entity
          /\ similarity r
             = Num.min (Num.double (Num.double (entityScore top) * 1.5))
                       (Num.double 0.95)
          /\ confidence r
             = Num.round
                 (Num.min (Num.double (Num.double (entityScore top) * 150)) 95)
          /\ kalshiEventTicker r = Some (eventTicker top)
          /\ kalshiEventTitle r = Some (eventTitle top)
          /\ kalshiMarketTicker r = tk
          /\ resMatchedEntities r = matchedEntities top)
    /\ (forall e, bestMarketTicker events (eventTicker top) = inl e ->
        settled (matchSingleMarket llm question events) = inl e).
Proof.
  intros llm question events top rest Hpre H3 Hc.
  assert (Hs : isStrong top = true) by (apply isStrong_iff; auto).
  rewrite (run_strong llm question events top rest Hpre Hs).
  cbn [calls settled]. split; [reflexivity|]. split.
  - intros tk Htk. rewrite (withMarket_inr _ _ _ _ Htk).
    eexists. split; [reflexivity|]. repeat split.
  - intros e He. now apply withMarket_inl.
Qed.

Lemma strong_entity_match_witness :
  calls (matchSingleMarket Sample.unavailable Sample.ceasefireQuestion
           [Sample.ceasefireEvent]) = []
  /\ exists r,
       settled (matchSingleMarket Sample.unavailable Sample.ceasefireQuestion
                  [Sample.ceasefireEvent]) = inr r
       /\ matchMethod r = entity
       /\ similarity r
          = Num.min (Num.double (Num.double (8 # 9) * 1.5)) (Num.double 0.95)
       /\ confidence r
          = Num.round (Num.min (Num.double (Num.double (8 # 9) * 150)) 95)
       /\ kalshiEventTicker r = Some "K2"
       /\ kalshiMarketTicker r = Some "K2-B".
Proof.
  assert (H3 : (3 <= List.length (matchedEntities Sample.ceasefireCandidate))%nat)
    by (cbn; lia).
  destruct (strong_entity_match Sample.unavailable Sample.ceasefireQuestion
              [Sample.ceasefireEvent] Sample.ceasefireCandidate []
              ceasefire_prefilter H3 eq_refl) as [Hcalls [Hret _]].
  destruct (Hret (Some "K2-B") eq_refl)
    as [r [Hr [Hm [Hs [Hc [Ht [_ [Htk _]]]]]]]].
  split; [exact Hcalls|].
  exists r. exact (conj Hr (conj Hm (conj Hs (conj Hc (conj Ht Htk))))).
Defined.

(** C1, as stated, fails: the top candidate has four matched entities and is
    context-compatible, but the nested-markets text of its event row is
    ["{}"], [markets.find] is not a function, and no result is returned. *)
Lemma strong_entity_match_throws :
  preFilterEvents Sample.ceasefireQuestion [Sample.ceasefireEventObject]
  = [Sample.ceasefireCandidate]
  /\ List.length (matchedEntities Sample.ceasefireCandidate) = 4%nat
  /\ contextCompatible Sample.ceasefireCandidate = true
  /\ settled (matchSingleMarket Sample.unavailable Sample.ceasefireQuestion
                [Sample.ceasefireEventObject]) = inl TypeError
  /\ ~ (exists r,
          settled (matchSingleMarket Sample.unavailable Sample.ceasefireQuestion
                     [Sample.ceasefireEventObject]) = inr r
          /\ matchMethod r = entity).
Proof.
  assert (H : settled (matchSingleMarket Sample.unavailable Sample.ceasefireQuestion
                         [Sample.ceasefireEventObject]) = inl TypeError).
  { rewrite (run_strong Sample.unavailable Sample.ceasefireQuestion
               [Sample.ceasefireEventObject] Sample.ceasefireCandidate []
               ceasefire_prefilter_object eq_refl).
    reflexivity. }
  split; [exact ceasefire_prefilter_object|].
  split; [reflexivity|]. split; [reflexivity|]. split; [exact H|].
  intros [r [Hr _]]. rewrite H in Hr. discriminate Hr.
Qed.

(** The strong tier in binary64 arithmetic.  With 11 shared keys among 120
    the score rounds to a double below 11/60, its product with 150 to a
    double below 27.5, and the confidence is 27 where exact arithmetic
    gives 28; with 3 shared keys among 10 the similarity is the double
    below 0.9. *)
Example strong_tier_doubles :
  let eleven := mkPre "K" "T" "" (dice 11 60 60) [] true in
  let three := mkPre "K" "T" "" (dice 3 5 5) [] true in
  confidence (strongResult eleven None) = 27%Q
  /\ Num.round (Num.min (entityScore eleven * 150) 95) = 28%Q
  /\ (similarity (strongResult three None) == 8106479329266892 # 9007199254740992)%Q
  /\ (similarity (strongResult three None) < 0.9)%Q.
Proof.
  cbv zeta. split; [vm_compute; reflexivity|]. split; [vm_compute; reflexivity|].
  split; [apply Qeq_bool_iff; vm_compute; reflexivity|].
  apply ltb_lt. vm_compute. reflexivity.
Qed.

Section ClassifierTier.

Lemma rejected_iff (aiResult : option AIMatchResponse) :
  rejected aiResult = true <->
  aiResult = None
  \/ exists a, aiResult = Some a
               /\ (eventIndex a < 0 \/ aiConfidence a < 25)%Q.
Proof.
  unfold rejected. destruct aiResult as [a|].
  - rewrite orb_true_iff, !ltb_lt. split.
    + intros H. right. exists a. auto.
    + intros [H|[a' [Ha H]]]; [discriminate | now injection Ha as ->].
  - split; auto.
Qed.

Lemma accepted_iff (a : AIMatchResponse) :
  rejected (Some a) = false <-> (0 <= eventIndex a /\ 25 <= aiConfidence a)%Q.
Proof.
  unfold rejected. rewrite orb_false_iff, !ltb_ge. tauto.
Qed.

Lemma indexFrom_length (i : nat) (l : list PreFilterResult) :
  List.length (indexFrom i l) = List.length l.
Proof.
  revert i. induction l as [|c l IH]; intros i; cbn [indexFrom List.length];
    [reflexivity | now rewrite IH].
Qed.

Lemma index_none_length {A B : Type} (l : list A) (l' : list B) (x : Q) :
  List.length l = List.length l' ->
  Num.index l x = None -> Num.index l' x = None.
Proof.
  unfold Num.index. intros Hlen.
  destruct (Num.isInteger x && Qle_bool 0 x); [|reflexivity].
  rewrite !nth_error_None. lia.
Qed.

(** An index at or beyond the length of the list is out of bounds, and so
    is a number that is not a whole number. *)
Lemma index_beyond_length {A : Type} (l : list A) (n : Z) :
  (Z.of_nat (List.length l) <= n)%Z -> Num.index l (inject_Z n) = None.
Proof.
  intros H. unfold Num.index.
  destruct (Num.isInteger (inject_Z n) && Qle_bool 0 (inject_Z n)); [|reflexivity].
  apply nth_error_None. rewrite Qfloor_Z. lia.
Qed.

Lemma index_fraction {A : Type} (l : list A) (x : Q) :
  Num.isInteger x = false -> Num.index l x = None.
Proof. intros H. unfold Num.index. now rewrite H. Qed.

Lemma statedReasoning_present (a : AIMatchResponse) (s : string) :
  aiReasoning a = Some s -> s <> "" -> statedReasoning (Some a) = s.
Proof.
  intros H Hne. unfold statedReasoning. rewrite H.
  destruct s; [congruence | reflexivity].
Qed.

Lemma statedReasoning_absent (aiResult : option AIMatchResponse) :
  (forall a, aiResult = Some a ->
             aiReasoning a = None \/ aiReasoning a = Some "") ->
  statedReasoning aiResult = "No confident match found".
Proof.
  intros H. unfold statedReasoning. destruct aiResult as [a|]; [|reflexivity].
  destruct (H a eq_refl) as [-> | ->]; reflexivity.
Qed.

End ClassifierTier.

(** C2 (as amended). When the classifier is consulted and its outcome is
    null, or has [eventIndex < 0], or has [confidence < 25]: if the top
    pre-filter candidate has [entityScore >= 0.4] and is context-compatible,
    the top candidate is returned as an entity-method fallback whenever the
    nested markets of its event row can be read (the exception of that read
    is thrown otherwise); if not, a [none] result with confidence 0 and
    similarity 0 is returned, whose reasoning is the classifier's stated
    reasoning when present and the generic message otherwise.  A returned
    result has method [entity] if and only if the top candidate has
    [entityScore >= 0.4] and is context-compatible. *)
Theorem classifier_rejected_fallback :
  forall (llm : Classifier) (question : string) (events : list KalshiEventRow)
         (top : PreFilterResult) (rest : list PreFilterResult)
         (sent : list Indexed) (aiResult : option AIMatchResponse),
    preFilterEvents question events = top :: rest ->
    calls (matchSingleMarket llm question events) = [(question, sent)] ->
    llm question sent = aiResult ->
    (aiResult = None
     \/ exists a, aiResult = Some a
                  /\ (eventIndex a < 0 \/ aiConfidence a < 25)%Q) ->
    let run := matchSingleMarket llm question events in
    let eligible := (0.4 <= entityScore top)%Q /\ contextCompatible top = true in
    (eligible ->
       (forall tk, bestMarketTicker events (eventTicker top) = inr tk ->
          settled run = inr (fallbackResult top tk)
          /\ matchMethod (fallbackResult top tk) = entity
          /\ kalshiEventTicker (fallbackResult top tk) = Some (eventTicker top)
          /\ similarity (fallbackResult top tk) = entityScore top
          /\ confidence (fallbackResult top tk)
             = Num.round (entityScore top * 100)
          /\ reasoning (fallbackResult top tk)
             = Some "Entity-based fallback (AI unavailable or low confidence)")
       /\ (forall e, bestMarketTicker events (eventTicker top) = inl e ->
             settled run = inl e))
    /\ (~ eligible ->
        exists r, settled run = inr r
          /\ matchMethod r = none /\ confidence r = 0%Q /\ similarity r = 0%Q
          /\ kalshiEventTicker r = None /\ kalshiMarketTicker r = None
          /\ kalshiEventTitle r = None
          /\ reasoning r = Some (statedReasoning aiResult)
          /\ (forall a s, aiResult = Some a -> aiReasoning a = Some s ->
                          s <> "" -> reasoning r = Some s)
          /\ ((forall a, aiResult = Some a ->
                         aiReasoning a = None \/ aiReasoning a = Some "") ->
              reasoning r = Some "No confident match found"))
    /\ (forall r, settled run = inr r -> (matchMethod r = entity <-> eligible)).
Proof.
  intros llm question events top rest sent aiResult Hpre Hcalls Hllm Hrej run eligible.
  destruct (calls_inv llm question events question sent Hcalls)
    as [top' [rest' [Hpre' [Hs [_ Hsent]]]]].
  rewrite Hpre in Hpre'. injection Hpre' as <- <-.
  destruct (run_classifier llm question events top rest Hpre Hs) as [_ Hset].
  cbv zeta in Hset. rewrite <- Hsent, Hllm in Hset.
  apply rejected_iff in Hrej. rewrite Hrej in Hset. fold run in Hset.
  assert (Hel : Num.geb (entityScore top) 0.4 && contextCompatible top = true
                <-> eligible).
  { subst eligible. rewrite andb_true_iff, geb_le. tauto. }
  destruct (Num.geb (entityScore top) 0.4 && contextCompatible top) eqn:E.
  - assert (Helig : eligible) by now apply Hel.
    split; [|split].
    + intros _. split.
      * intros tk Htk. rewrite Hset, (withMarket_inr _ _ _ _ Htk).
        repeat split.
      * intros e He. rewrite Hset. now apply withMarket_inl.
    + intros Hn. contradiction.
    + intros r Hr. split; [intros _; assumption|]. intros _.
      rewrite Hset in Hr. apply withMarket_result in Hr.
      destruct Hr as [tk [_ ->]]. reflexivity.
  - assert (Hnel : ~ eligible) by (intros H; apply Hel in H; discriminate).
    split; [|split].
    + intros H. contradiction.
    + intros _. eexists. split; [exact Hset|]. cbn [noMatch matchMethod confidence
        similarity kalshiEventTicker kalshiMarketTicker kalshiEventTitle reasoning].
      repeat (split; [reflexivity|]). split.
      * intros a s -> Ha Hne. now rewrite (statedReasoning_present a s Ha Hne).
      * intros Habs. now rewrite (statedReasoning_absent aiResult Habs).
    + intros r Hr. rewrite Hset in Hr. injection Hr as <-.
      split; [discriminate | intros H; contradiction].
Qed.

Lemma classifier_rejected_fallback_witness :
  settled (matchSingleMarket Sample.unavailable Sample.electionQuestion
             [Sample.electionEvent])
  = inr (fallbackResult Sample.electionCandidate None).
Proof.
  destruct (run_classifier Sample.unavailable Sample.electionQuestion
              [Sample.electionEvent] Sample.electionCandidate []
              election_prefilter eq_refl) as [Hcalls _].
  destruct (classifier_rejected_fallback Sample.unavailable
              Sample.electionQuestion [Sample.electionEvent]
              Sample.electionCandidate []
              (indexFrom 0 [Sample.electionCandidate])
              None election_prefilter Hcalls eq_refl (or_introl eq_refl))
    as [Hfb _].
  apply Hfb.
  - split; [discriminate | reflexivity].
  - reflexivity.
Defined.

(** C2, as stated, fails: the classifier is unavailable, the top candidate
    has score 1 and is context-compatible, but the nested-markets text of
    its event row is ["{}"] and no result is returned. *)
Lemma classifier_rejected_fallback_throws :
  let top := Sample.electionCandidate in
  let run := matchSingleMarket Sample.unavailable Sample.electionQuestion
               [Sample.electionEventObject] in
  preFilterEvents Sample.electionQuestion [Sample.electionEventObject] = [top]
  /\ calls run = [(Sample.electionQuestion, indexFrom 0 [top])]
  /\ Sample.unavailable Sample.electionQuestion (indexFrom 0 [top]) = None
  /\ (0.4 <= entityScore top)%Q
  /\ contextCompatible top = true
  /\ settled run = inl TypeError
  /\ ~ (exists r, settled run = inr r /\ matchMethod r = entity).
Proof.
  intros top run.
  destruct (run_classifier Sample.unavailable Sample.electionQuestion
              [Sample.electionEventObject] Sample.electionCandidate []
              election_prefilter_object eq_refl) as [Hcalls Hset].
  assert (H : settled run = inl TypeError) by exact Hset.
  split; [exact election_prefilter_object|].
  split; [exact Hcalls|].
  split; [reflexivity|].
  split; [discriminate|].
  split; [reflexivity|].
  split; [exact H|].
  intros [r [Hr _]]. rewrite H in Hr. discriminate Hr.
Qed.

(** C4. When the classifier is consulted and answers with [eventIndex >= 0]
    and [confidence >= 25], but the index is out of bounds of the candidate
    list that was sent (at most the top 30), the decision engine returns a
    [none] result (no target identifiers, similarity 0, confidence 0) whose
    reasoning mentions the out-of-bounds index; nothing is thrown. *)
Theorem out_of_bounds_index :
  forall (llm : Classifier) (question : string) (events : list KalshiEventRow)
         (sent : list Indexed) (a : AIMatchResponse),
    calls (matchSingleMarket llm question events) = [(question, sent)] ->
    llm question sent = Some a ->
    (0 <= eventIndex a)%Q ->
    (25 <= aiConfidence a)%Q ->
    Num.index sent (eventIndex a) = None ->
    (List.length sent <= 30)%nat
    /\ exists r,
         settled (matchSingleMarket llm question events) = inr r
         /\ matchMethod r = none
         /\ kalshiEventTicker r = None /\ kalshiMarketTicker r = None
         /\ kalshiEventTitle r = None
         /\ similarity r = 0%Q /\ confidence r = 0%Q
         /\ reasoning r = Some "AI returned out-of-bounds index"
         /\ Text.includes "AI returned out-of-bounds index" "out-of-bounds" = true.
Proof.
  intros llm question events sent a Hcalls Hllm H0 H25 Hidx.
  destruct (calls_inv llm question events question sent Hcalls)
    as [top [rest [Hpre [Hs [_ Hsent]]]]].
  destruct (run_classifier llm question events top rest Hpre Hs) as [_ Hset].
  cbv zeta in Hset. rewrite <- Hsent, Hllm in Hset.
  assert (Hacc : rejected (Some a) = false) by (apply accepted_iff; auto).
  rewrite Hacc in Hset.
  assert (Hidx' : Num.index (firstn 30 (top :: rest)) (eventIndex a) = None).
  { apply (index_none_length sent); [|assumption].
    rewrite Hsent. apply indexFrom_length. }
  rewrite Hidx' in Hset. split.
  - rewrite Hsent, indexFrom_length. apply firstn_le_length.
  - eexists. split; [exact Hset|]. repeat split.
Qed.

Lemma out_of_bounds_index_witness :
  exists r,
    settled (matchSingleMarket (Sample.answering 5 90)
               Sample.electionQuestion [Sample.electionEvent]) = inr r
    /\ matchMethod r = none
    /\ reasoning r = Some "AI returned out-of-bounds index".
Proof.
  pose (a := mkAI 5 90 (Some "Same resolution criteria")
                  (Some ["trump"; "election"])).
  pose (sent := indexFrom 0 [Sample.electionCandidate]).
  destruct (run_classifier (Sample.answering 5 90) Sample.electionQuestion
              [Sample.electionEvent] Sample.electionCandidate []
              election_prefilter eq_refl) as [Hcalls _].
  assert (H0 : (0 <= eventIndex a)%Q) by discriminate.
  assert (H25 : (25 <= aiConfidence a)%Q) by discriminate.
  assert (Hidx : Num.index sent (eventIndex a) = None) by reflexivity.
  destruct (out_of_bounds_index (Sample.answering 5 90)
              Sample.electionQuestion [Sample.electionEvent] sent a
              Hcalls eq_refl H0 H25 Hidx)
    as [_ [r [Hr [Hm [_ [_ [_ [_ [_ [Hreason _]]]]]]]]]].
  exists r. exact (conj Hr (conj Hm Hreason)).
Defined.


(* ================================================================== *)
(** ** Ranges of similarity and confidence *)
(* ================================================================== *)

Section Ranges.

Lemma noMatch_inRange (why : string) : inRange (noMatch why).
Proof.
  unfold inRange, noMatch. cbn [similarity confidence].
  repeat split; try discriminate; reflexivity.
Qed.

Lemma strongResult_inRange (top : PreFilterResult) (tk : option string) :
  (0 < entityScore top)%Q -> inRange (strongResult top tk).
Proof.
  intros Hpos. unfold inRange, strongResult. cbn [similarity confidence].
  assert (Hd : (0 <= Num.double (entityScore top))%Q).
  { apply double_nonneg. now apply Qlt_le_weak. }
  assert (H15 : (0 <= Num.double (Num.double (entityScore top) * 1.5))%Q).
  { apply double_nonneg. apply Qmult_le_0_compat; [assumption | discriminate]. }
  assert (H150 : (0 <= Num.double (Num.double (entityScore top) * 150))%Q).
  { apply double_nonneg. apply Qmult_le_0_compat; [assumption | discriminate]. }
  split; [|split].
  - split; [apply min_nonneg; [assumption | apply double_nonneg; discriminate]|].
    apply Qle_trans with (Num.double 0.95); [apply min_le_r | apply double_095].
  - destruct (round_bounds
                (Num.min (Num.double (Num.double (entityScore top) * 150)) 95) 95)
      as [Hlo Hhi].
    + apply min_nonneg; [assumption | discriminate].
    + apply min_le_r.
    + split; [assumption|].
      apply Qle_trans with (inject_Z 95); [assumption | discriminate].
  - apply round_isInteger.
Qed.

Lemma fallbackResult_inRange (top : PreFilterResult) (tk : option string) :
  (0 < entityScore top)%Q -> (entityScore top <= 1)%Q ->
  inRange (fallbackResult top tk).
Proof.
  intros Hpos Hle. unfold inRange, fallbackResult. cbn [similarity confidence].
  split; [|split].
  - split; [now apply Qlt_le_weak | assumption].
  - apply (round_bounds (entityScore top * 100) 100).
    + apply Qmult_le_0_compat; [now apply Qlt_le_weak | discriminate].
    + change (inject_Z 100) with (1 * 100)%Q.
      apply Qmult_le_compat_r; [assumption | discriminate].
  - apply round_isInteger.
Qed.

Lemma aiResultOf_inRange (a : AIMatchResponse) (c : PreFilterResult)
    (tk : option string) :
  (25 <= aiConfidence a)%Q ->
  (inRange (aiResultOf a c tk)
   <-> (aiConfidence a <= 100)%Q /\ Num.isInteger (aiConfidence a) = true).
Proof.
  intros H25. unfold inRange, aiResultOf. cbn [similarity confidence].
  assert (H0 : (0 <= aiConfidence a)%Q).
  { apply Qle_trans with 25%Q; [discriminate | assumption]. }
  split.
  - intros [_ [[_ H100] Hint]]. auto.
  - intros [H100 Hint]. split; [|auto]. split.
    + apply Qle_shift_div_l; [reflexivity|]. now rewrite Qmult_0_l.
    + apply Qle_shift_div_r; [reflexivity|]. now rewrite Qmult_1_l.
Qed.

End Ranges.

Lemma decode_members (reply : Json) (a : AIMatchResponse) :
  decode reply = Some (Some a) ->
  exists members,
    reply = JObject members
    /\ member "eventIndex" members = Some (JNumber (Finite (eventIndex a)))
    /\ member "confidence" members = Some (JNumber (Finite (aiConfidence a)))
    /\ reasoningOf (member "reasoning" members) = Some (aiReasoning a)
    /\ conceptsOf (member "matchedConcepts" members) = Some (matchedConcepts a).
Proof.
  unfold decode. destruct reply as [| | | | |members]; try discriminate.
  intros H. exists members. split; [reflexivity|].
  destruct (member "eventIndex" members) as [[| |[i| |]| | |]|]; try discriminate.
  destruct (member "confidence" members) as [[| |[c| |]| | |]|]; try discriminate.
  destruct (reasoningOf (member "reasoning" members)) as [r|]; [|discriminate].
  destruct (conceptsOf (member "matchedConcepts" members)) as [cs|];
    [|discriminate].
  injection H as <-. repeat split.
Qed.

Lemma Conforms_silent : Conforms Sample.silent Sample.unavailable.
Proof. intros question sent. reflexivity. Qed.

Lemma statesReasoning_silent : statesReasoning Sample.silent.
Proof. intros question sent members H. discriminate H. Qed.

Lemma Conforms_replying (index confidence : Q) :
  Conforms (Sample.replying index confidence) (Sample.answering index confidence).
Proof. intros question sent. reflexivity. Qed.

(** On replies of the declared shape: every result outside the AI-accept
    tier is in range, and an accepted answer carries its confidence. *)
Lemma ranges_by_tier :
  forall (llm : Classifier) (question : string) (events : list KalshiEventRow)
         (r : MatchResult),
    settled (matchSingleMarket llm question events) = inr r ->
    (matchMethod r <> ai -> inRange r)
    /\ (matchMethod r = ai ->
        exists sent a,
          calls (matchSingleMarket llm question events) = [(question, sent)]
          /\ llm question sent = Some a
          /\ (25 <= aiConfidence a)%Q
          /\ similarity r = (aiConfidence a / 100)%Q
          /\ confidence r = aiConfidence a
          /\ (inRange r <->
              (aiConfidence a <= 100)%Q /\ Num.isInteger (aiConfidence a) = true)).
Proof.
  intros llm question events r Hr.
  destruct (preFilterEvents question events) as [|top rest] eqn:Hpre.
  - rewrite (run_no_candidates llm question events Hpre) in Hr.
    injection Hr as <-. split; [intros _; apply noMatch_inRange | discriminate].
  - assert (Hin : In top (preFilterEvents question events))
      by (rewrite Hpre; now left).
    destruct (survivor_score_bounds _ _ _ Hin) as [Hpos Hle].
    destruct (isStrong top) eqn:Hs.
    + rewrite (run_strong llm question events top rest Hpre Hs) in Hr.
      cbn [settled] in Hr. apply withMarket_result in Hr.
      destruct Hr as [tk [_ ->]].
      split; [intros _; now apply strongResult_inRange | discriminate].
    + destruct (run_classifier llm question events top rest Hpre Hs)
        as [Hcalls Hset].
      cbv zeta in Hset, Hcalls. rewrite Hset in Hr. clear Hset.
      set (sent := indexFrom 0 (firstn 30 (top :: rest))) in *.
      destruct (rejected (llm question sent)) eqn:Hrej.
      * destruct (Num.geb (entityScore top) 0.4 && contextCompatible top).
        -- apply withMarket_result in Hr. destruct Hr as [tk [_ ->]].
           split; [intros _; now apply fallbackResult_inRange | discriminate].
        -- injection Hr as <-.
           split; [intros _; apply noMatch_inRange | discriminate].
      * destruct (llm question sent) as [a|] eqn:Hllm.
        -- destruct (Num.index (firstn 30 (top :: rest)) (eventIndex a)) as [c|].
           ++ apply withMarket_result in Hr. destruct Hr as [tk [_ ->]].
              apply accepted_iff in Hrej. destruct Hrej as [_ H25].
              split; [intros H; now contradiction H|]. intros _.
              exists sent, a. repeat (split; [auto; fail|]).
              now apply aiResultOf_inRange.
           ++ injection Hr as <-.
              split; [intros _; apply noMatch_inRange | discriminate].
        -- injection Hr as <-.
           split; [intros _; apply noMatch_inRange | discriminate].
Qed.

(** C3 (as amended). For a classifier reply that is [null] or an object
    whose [eventIndex] and [confidence] are finite numbers: every result
    returned on a tier other than AI accept has similarity in [0, 1] and an
    integer confidence in [0, 100]; on the AI-accept tier the result carries
    the [confidence] member [c >= 25] of the reply unchanged, with
    similarity [c / 100], and it is within those ranges exactly when [c] is
    an integer not above 100. *)
Theorem match_result_ranges :
  forall (reply : Replies) (llm : Classifier) (question : string)
         (events : list KalshiEventRow) (r : MatchResult),
    Conforms reply llm ->
    settled (matchSingleMarket llm question events) = inr r ->
    (matchMethod r <> ai -> inRange r)
    /\ (matchMethod r = ai ->
        exists sent members c,
          calls (matchSingleMarket llm question events) = [(question, sent)]
          /\ reply question sent = JObject members
          /\ member "confidence" members = Some (JNumber (Finite c))
          /\ (25 <= c)%Q
          /\ similarity r = (c / 100)%Q
          /\ confidence r = c
          /\ (inRange r <-> (c <= 100)%Q /\ Num.isInteger c = true)).
Proof.
  intros reply llm question events r Hconf Hr.
  destruct (ranges_by_tier llm question events r Hr) as [Hother Hai].
  split; [exact Hother|]. intros Hm.
  destruct (Hai Hm) as [sent [a [Hcalls [Hllm [H25 [Hs [Hc Hiff]]]]]]].
  pose proof (Hconf question sent) as Hd. rewrite Hllm in Hd.
  destruct (decode_members _ _ Hd) as [members [Hrep [_ [Hmem _]]]].
  exists sent, members, (aiConfidence a).
  split; [exact Hcalls|]. split; [exact Hrep|]. split; [exact Hmem|].
  split; [exact H25|]. split; [exact Hs|]. split; [exact Hc | exact Hiff].
Qed.

Lemma match_result_ranges_witness :
  exists r,
    settled (matchSingleMarket (Sample.answering 0 90) Sample.electionQuestion
               [Sample.electionEvent]) = inr r
    /\ matchMethod r = ai /\ inRange r.
Proof.
  pose (r := aiResultOf (mkAI 0 90 (Some "Same resolution criteria")
                               (Some ["trump"; "election"]))
                        Sample.electionCandidate None).
  destruct (run_classifier (Sample.answering 0 90) Sample.electionQuestion
              [Sample.electionEvent] Sample.electionCandidate []
              election_prefilter eq_refl) as [_ Hset].
  assert (Hr : settled (matchSingleMarket (Sample.answering 0 90)
                          Sample.electionQuestion [Sample.electionEvent]) = inr r)
    by exact Hset.
  exists r. split; [exact Hr|]. split; [reflexivity|].
  destruct (match_result_ranges (Sample.replying 0 90) (Sample.answering 0 90)
              Sample.electionQuestion [Sample.electionEvent] r
              (Conforms_replying 0 90) Hr) as [_ Hai].
  destruct (Hai eq_refl) as [sent [members [c [_ [Hrep [Hmem [_ [_ [_ Hiff]]]]]]]]].
  apply Hiff. injection Hrep as <-. injection Hmem as <-.
  split; [discriminate | reflexivity].
Defined.

(** C3, as stated, fails on the AI-accept tier: a classifier answer with
    confidence 150 is copied into the result, whose similarity is 1.5. *)
Lemma match_result_out_of_range :
  exists r,
    settled (matchSingleMarket (Sample.answering 0 150) Sample.electionQuestion
               [Sample.electionEvent]) = inr r
    /\ matchMethod r = ai
    /\ (similarity r == 1.5)%Q /\ (confidence r == 150)%Q
    /\ ~ inRange r.
Proof.
  destruct (run_classifier (Sample.answering 0 150) Sample.electionQuestion
              [Sample.electionEvent] Sample.electionCandidate []
              election_prefilter eq_refl) as [_ Hset].
  exists (aiResultOf (mkAI 0 150 (Some "Same resolution criteria")
                           (Some ["trump"; "election"]))
                     Sample.electionCandidate None).
  split; [exact Hset|].
  split; [reflexivity|]. split; [reflexivity|]. split; [reflexivity|].
  intros [[_ H] _]. apply H. reflexivity.
Qed.

(* ================================================================== *)
(** ** Choice of the target market *)
(* ================================================================== *)

Section BestMarket.



Variable kalshiEvents : list KalshiEventRow.
Variable ticker : string.
Variable row : KalshiEventRow.
Hypothesis Hrow : findEvent kalshiEvents ticker = Some row.




(** Rows as the schema documents them (no markets, or a JSON array of
    market objects) can always be read. *)
Lemma findOpen_proper (ms : list NestedMarket) :
  Forall properMarket ms -> exists o, findOpen ms = inr o.
Proof.
  intros H. induction H as [|m ms Hm _ IH]; cbn [findOpen]; [now eexists|].
  destruct m as [|st tk]; [contradiction|].
  destruct (isOpen st); [now eexists | assumption].
Qed.

Lemma readable_wellformed :
  match markets_json row with
  | None | Some EmptyText => True
  | Some (ArrayOf ms) => Forall properMarket ms
  | Some Unparsable | Some NotArray => False
  end ->
  readable kalshiEvents ticker.
Proof.
  unfold readable, bestMarketTicker, parseMarkets. rewrite Hrow.
  destruct (markets_json row) as [[| | |ms]|]; try contradiction;
    try (intros _; now eexists).
  intros H. destruct (findOpen_proper ms H) as [[m|] ->]; now eexists.
Qed.

End BestMarket.

Section Tiers.

Variable llm : Classifier.
Variable question : string.
Variable kalshiEvents : list KalshiEventRow.

(** A matching tier settles with the result built from the matched
    candidate and the ticker of its best nested market. *)
Lemma Matches_settled (c : PreFilterResult) (build : option string -> MatchResult) :
  Matches llm question kalshiEvents c build ->
  settled (matchSingleMarket llm question kalshiEvents)
  = withMarket kalshiEvents (eventTicker c) build.
Proof.
  intros [top rest Hpre Hs | top rest Hpre Hs Hrej Hel | top rest a c' Hpre Hs Hllm Hacc Hidx].
  - now rewrite (run_strong llm question kalshiEvents top rest Hpre Hs).
  - destruct (run_classifier llm question kalshiEvents top rest Hpre Hs) as [_ Hset].
    cbv zeta in Hset. now rewrite Hset, Hrej, Hel.
  - destruct (run_classifier llm question kalshiEvents top rest Hpre Hs) as [_ Hset].
    cbv zeta in Hset. now rewrite Hset, Hllm, Hacc, Hidx.
Qed.

Lemma Matches_build (c : PreFilterResult) (build : option string -> MatchResult)
    (tk : option string) :
  Matches llm question kalshiEvents c build ->
  kalshiEventTicker (build tk) = Some (eventTicker c)
  /\ kalshiEventTitle (build tk) = Some (eventTitle c)
  /\ kalshiMarketTicker (build tk) = tk
  /\ matchMethod (build tk) <> none.
Proof.
  intros [top rest _ _ | top rest _ _ _ _ | top rest a c' _ _ _ _ _];
    repeat split; discriminate.
Qed.

(** Every run either settles with a [none] result or is on a matching tier. *)
Lemma tier_coverage :
  (exists why, settled (matchSingleMarket llm question kalshiEvents)
               = inr (noMatch why))
  \/ (exists c build, Matches llm question kalshiEvents c build).
Proof.
  destruct (preFilterEvents question kalshiEvents) as [|top rest] eqn:Hpre.
  - left. rewrite (run_no_candidates llm question kalshiEvents Hpre). now eexists.
  - destruct (isStrong top) eqn:Hs.
    + right. exists top, (strongResult top). now apply ByStrongEntity with rest.
    + destruct (run_classifier llm question kalshiEvents top rest Hpre Hs)
        as [_ Hset]. cbv zeta in Hset.
      destruct (rejected (llm question (indexFrom 0 (firstn 30 (top :: rest)))))
        eqn:Hrej.
      * destruct (Num.geb (entityScore top) 0.4 && contextCompatible top) eqn:Hel.
        -- right. exists top, (fallbackResult top).
           now apply ByEntityFallback with rest.
        -- left. rewrite Hset. now eexists.
      * destruct (llm question (indexFrom 0 (firstn 30 (top :: rest))))
          as [a|] eqn:Hllm; [|left; rewrite Hset; now eexists].
        destruct (Num.index (firstn 30 (top :: rest)) (eventIndex a))
          as [c|] eqn:Hidx; [|left; rewrite Hset; now eexists].
        right. exists c, (aiResultOf a c). now apply ByAIAccept with top rest.
Qed.

End Tiers.






(* ================================================================== *)
(** ** The match cache *)
(* ================================================================== *)

Section Cache.

Import Db.

Lemma deleteMatches_none (pid : string) (rows : list MarketMatchRow) :
  filter (forMarket pid) (deleteMatches pid rows) = [].
Proof.
  unfold deleteMatches, forMarket.
  induction rows as [|r rows IH]; cbn [filter]; [reflexivity|].
  destruct (String.eqb (polymarket_id r) pid) eqn:E; cbn [negb filter];
    [assumption | now rewrite E].
Qed.

Lemma deleteMatches_other (pid other : string) (rows : list MarketMatchRow) :
  other <> pid ->
  filter (forMarket other) (deleteMatches pid rows) = filter (forMarket other) rows.
Proof.
  intros Hne. unfold deleteMatches, forMarket.
  induction rows as [|r rows IH]; cbn [filter]; [reflexivity|].
  destruct (String.eqb (polymarket_id r) pid) eqn:E; cbn [negb filter].
  - apply String.eqb_eq in E.
    assert (Ho : String.eqb (polymarket_id r) other = false).
    { apply String.eqb_neq. congruence. }
    now rewrite Ho.
  - now rewrite IH.
Qed.

Lemma filter_none_and {A : Type} (f g : A -> bool) (l : list A) :
  filter f l = [] -> filter (fun x => f x && g x) l = [].
Proof.
  induction l as [|x l IH]; cbn [filter]; [reflexivity|].
  destruct (f x); [discriminate | cbn [andb]; assumption].
Qed.

Lemma newRow_forMarket (rowid : Z) (m : MatchInput) (now : Z) (pid : string) :
  forMarket pid (newRow rowid m now) = String.eqb (polymarketId m) pid.
Proof. reflexivity. Qed.


Lemma upsert_rows (db : Database) (m : MatchInput) (now : Z) :
  market_matches (fst (upsertMarketMatch db m now)) =
  if Text.mem (polymarketId m) (markets db)
  then deleteMatches (polymarketId m) (market_matches db)
       ++ [newRow (sequence db + 1) m now]
  else deleteMatches (polymarketId m) (market_matches db).
Proof.
  unfold upsertMarketMatch. now destruct (Text.mem (polymarketId m) (markets db)).
Qed.


Lemma rowsFor_upsert_other (db : Database) (m : MatchInput) (now : Z)
    (other : string) :
  other <> polymarketId m ->
  filter (forMarket other) (market_matches (fst (upsertMarketMatch db m now)))
  = filter (forMarket other) (market_matches db).
Proof.
  intros Hne. rewrite upsert_rows.
  destruct (Text.mem (polymarketId m) (markets db)).
  - rewrite filter_app, deleteMatches_other by assumption.
    cbn [filter]. rewrite newRow_forMarket.
    replace (String.eqb (polymarketId m) other) with false
      by (symmetry; apply String.eqb_neq; congruence).
    apply app_nil_r.
  - now apply deleteMatches_other.
Qed.

End Cache.




(** A stored match on the sample database: the stale row of the id is
    replaced and the lookup one hour later returns the new row.  Because
    [expires_at] is compared as text with [datetime('now')], the row is
    still returned after the expiry instant on the day of the expiry, and
    no longer on the next day. *)
Example upsert_then_get_sample :
  let db' := fst (Db.upsertMarketMatch Sample.sampleDb Sample.storedMatch 1000) in
  List.length (Db.market_matches db') = 1%nat
  /\ option_map Db.id (Db.getMarketMatch db' "poly-1" 3601000) = Some 2%Z
  /\ Db.expiryOf Sample.storedMatch 1000 = 86401000%Z
  /\ option_map Db.id (Db.getMarketMatch db' "poly-1" 86401001) = Some 2%Z
  /\ Db.getMarketMatch db' "poly-1" (2 * 86400000) = None.
Proof. vm_compute. repeat split. Qed.

(* ================================================================== *)
(** ** Worked scenarios *)
(* ================================================================== *)

(** Aliases are reduced to one canonical key. *)
Example alias_same_key :
  map normalized (extractEntities "Kamala Harris") = ["harris"]
  /\ map normalized (extractEntities "Kamala") = ["harris"]
  /\ map normalized (extractEntities "Donald Trump and the FOMC") = ["trump"; "fed"]
  /\ map value (extractEntities "Will the UN act on North Korea?")
     = ["UN "; "North Korea"].
Proof. vm_compute. repeat split. Qed.

(** One shared entity with compatible contexts: the candidate survives the
    pre-filter, the strong tier does not apply, the classifier is asked. *)
Example election_scenario :
  map matchedEntities
      (preFilterEvents Sample.electionQuestion [Sample.electionEvent])
  = [["trump"]]
  /\ extractSemanticContext Sample.electionQuestion = leadership
  /\ extractSemanticContext (eventText Sample.electionEvent) = leadership
  /\ List.length (calls (matchSingleMarket Sample.unavailable
                           Sample.electionQuestion [Sample.electionEvent])) = 1%nat.
Proof. vm_compute. repeat split. Qed.

(** Two shared entities: the classifier tier decides, and its answer with
    confidence 90 gives method [ai], similarity 0.9 and confidence 90; the
    first nested market is taken when none is open or active. *)
Example fed_scenario :
  map matchedEntities (preFilterEvents Sample.fedQuestion [Sample.fedEvent])
  = [["trump"; "fed"]]
  /\ exists r,
       settled (matchSingleMarket (Sample.answering 0 90) Sample.fedQuestion
                  [Sample.fedEvent]) = inr r
       /\ matchMethod r = ai
       /\ (similarity r == 0.9)%Q /\ confidence r = 90%Q
       /\ kalshiMarketTicker r = Some "K3-A"
       /\ resMatchedEntities r = ["trump"; "election"].
Proof.
  split; [vm_compute; reflexivity|].
  eexists. split; [vm_compute; reflexivity|]. repeat split.
Qed.

(* ================================================================== *)
(** ** Letter case and white space *)
(* ================================================================== *)

Section LetterCase.

Lemma lowerChar_idem (c : ascii) : Text.lowerChar (Text.lowerChar c) = Text.lowerChar c.
Proof. destruct c as [[] [] [] [] [] [] [] []]; reflexivity. Qed.

Lemma isSpace_lower (c : ascii) : Text.isSpace (Text.lowerChar c) = Text.isSpace c.
Proof. destruct c as [[] [] [] [] [] [] [] []]; reflexivity. Qed.

Lemma isWordChar_lower (c : ascii) :
  Text.isWordChar (Text.lowerChar c) = Text.isWordChar c.
Proof. destruct c as [[] [] [] [] [] [] [] []]; reflexivity. Qed.

Lemma toLowerCase_list (s : string) :
  list_ascii_of_string (Text.toLowerCase s)
  = map Text.lowerChar (list_ascii_of_string s).
Proof. induction s as [|c s IH]; cbn; [reflexivity | now rewrite IH]. Qed.

Lemma toLowerCase_of_list (l : list ascii) :
  Text.toLowerCase (string_of_list_ascii l)
  = string_of_list_ascii (map Text.lowerChar l).
Proof. induction l as [|c l IH]; cbn; [reflexivity | now rewrite IH]. Qed.

Lemma toLowerCase_idem (s : string) :
  Text.toLowerCase (Text.toLowerCase s) = Text.toLowerCase s.
Proof.
  induction s as [|c s IH]; cbn; [reflexivity|].
  now rewrite lowerChar_idem, IH.
Qed.

Lemma dropSpaces_map_lower (l : list ascii) :
  Text.dropSpaces (map Text.lowerChar l) = map Text.lowerChar (Text.dropSpaces l).
Proof.
  induction l as [|c l IH]; cbn [map Text.dropSpaces]; [reflexivity|].
  rewrite isSpace_lower. destruct (Text.isSpace c); [assumption | reflexivity].
Qed.

(** Trimming and lowercasing commute. *)
Lemma trim_toLowerCase (s : string) :
  Text.trim (Text.toLowerCase s) = Text.toLowerCase (Text.trim s).
Proof.
  unfold Text.trim.
  rewrite toLowerCase_list, toLowerCase_of_list, dropSpaces_map_lower.
  rewrite <- map_rev, dropSpaces_map_lower, <- map_rev. reflexivity.
Qed.

Lemma dropSpaces_idem (l : list ascii) :
  Text.dropSpaces (Text.dropSpaces l) = Text.dropSpaces l.
Proof.
  induction l as [|c l IH]; cbn [Text.dropSpaces]; [reflexivity|].
  destruct (Text.isSpace c) eqn:E; [assumption|].
  cbn [Text.dropSpaces]. now rewrite E.
Qed.

Lemma dropSpaces_split (l : list ascii) :
  exists sp, l = sp ++ Text.dropSpaces l /\ Forall (fun c => Text.isSpace c = true) sp.
Proof.
  induction l as [|c l [sp [Hl Hsp]]]; cbn [Text.dropSpaces].
  - exists []. split; [reflexivity | constructor].
  - destruct (Text.isSpace c) eqn:E.
    + exists (c :: sp). split; [cbn; now rewrite <- Hl | now constructor].
    + exists []. split; [reflexivity | constructor].
Qed.

(** Dropping the trailing white space of a text without leading white
    space leaves a text without leading white space. *)
Lemma dropSpaces_front_kept (l : list ascii) :
  Text.dropSpaces l = l ->
  Text.dropSpaces (rev (Text.dropSpaces (rev l))) = rev (Text.dropSpaces (rev l)).
Proof.
  intros Hfront.
  destruct (dropSpaces_split (rev l)) as [sp [Hl Hsp]].
  set (b := Text.dropSpaces (rev l)) in *.
  assert (Hrev : l = rev b ++ rev sp).
  { rewrite <- rev_app_distr, <- Hl. now rewrite rev_involutive. }
  destruct (rev b) as [|c t] eqn:Eb; [reflexivity|].
  rewrite Hrev in Hfront. cbn [app Text.dropSpaces] in Hfront.
  cbn [Text.dropSpaces].
  destruct (Text.isSpace c) eqn:E; [|reflexivity].
  exfalso.
  assert (Hlen : (List.length (Text.dropSpaces (t ++ rev sp))
                  <= List.length (t ++ rev sp))%nat).
  { clear. induction (t ++ rev sp) as [|x l IH]; cbn [Text.dropSpaces]; [lia|].
    destruct (Text.isSpace x); cbn [List.length]; lia. }
  rewrite Hfront in Hlen. cbn [List.length] in Hlen. lia.
Qed.

Lemma trim_idem (s : string) : Text.trim (Text.trim s) = Text.trim s.
Proof.
  unfold Text.trim. rewrite list_ascii_of_string_of_list_ascii.
  set (a := Text.dropSpaces (list_ascii_of_string s)).
  assert (Ha : Text.dropSpaces a = a) by apply dropSpaces_idem.
  rewrite (dropSpaces_front_kept a Ha), rev_involutive, dropSpaces_idem.
  reflexivity.
Qed.

End LetterCase.

Section Normalize.

Lemma lookup_In (key v : string) (table : list (string * string)) :
  lookup key table = Some v -> In v (map snd table).
Proof.
  induction table as [|[k w] table IH]; cbn [lookup map snd]; [discriminate|].
  destruct (String.eqb k key).
  - intros H. injection H as ->. now left.
  - intros H. right. now apply IH.
Qed.

(** Every canonical key of the alias table is its own normal form. *)
Lemma mappings_values_fixed :
  forallb (fun v => String.eqb (normalizeEntity v) v) (map snd mappings) = true.
Proof. vm_compute. reflexivity. Qed.

(** A normalized key is a fixed point of [normalizeEntity]. *)
Lemma normalizeEntity_fixed :
  forall (entity : string),
    normalizeEntity (normalizeEntity entity) = normalizeEntity entity.
Proof.
  intros entity.
  destruct (lookup (Text.trim (Text.toLowerCase entity)) mappings) as [v|] eqn:E.
  - assert (Hy : normalizeEntity entity = v)
      by (unfold normalizeEntity; now rewrite E).
    rewrite Hy. apply lookup_In in E.
    pose proof mappings_values_fixed as H. rewrite forallb_forall in H.
    apply String.eqb_eq. now apply H.
  - assert (Hy : normalizeEntity entity = Text.trim (Text.toLowerCase entity))
      by (unfold normalizeEntity; now rewrite E).
    rewrite Hy. unfold normalizeEntity.
    assert (Hfix : Text.trim (Text.toLowerCase (Text.trim (Text.toLowerCase entity)))
                   = Text.trim (Text.toLowerCase entity)).
    { rewrite (trim_toLowerCase entity), toLowerCase_idem.
      now rewrite trim_toLowerCase, trim_idem. }
    rewrite Hfix. now rewrite E.
Qed.

(** X1. A normalized key is a fixed point of [normalizeEntity]: normalizing
    twice is normalizing once, for every ASCII text whose lowercased and
    trimmed form is not one of the two lowercase names that the alias
    object inherits ([constructor], [__proto__]). *)
Theorem normalizeEntity_idempotent :
  forall (entity : string),
    Text.isAscii entity = true ->
    Text.trim (Text.toLowerCase entity) <> "constructor"%string ->
    Text.trim (Text.toLowerCase entity) <> "__proto__"%string ->
    normalizeEntity (normalizeEntity entity) = normalizeEntity entity.
Proof. intros entity _ _ _. apply normalizeEntity_fixed. Qed.

Lemma normalizeEntity_idempotent_witness :
  normalizeEntity (normalizeEntity " Donald TRUMP ") = normalizeEntity " Donald TRUMP ".
Proof.
  apply normalizeEntity_idempotent;
    [reflexivity | vm_compute; discriminate | vm_compute; discriminate].
Defined.

Lemma normalizeEntity_lower (entity : string) :
  normalizeEntity (Text.toLowerCase entity) = normalizeEntity entity.
Proof. unfold normalizeEntity. now rewrite toLowerCase_idem. Qed.

(** X2. Normalization ignores letter case and surrounding white space. *)
Theorem normalizeEntity_case_and_space :
  forall (entity : string),
    normalizeEntity (Text.toLowerCase entity) = normalizeEntity entity
    /\ normalizeEntity (Text.trim entity) = normalizeEntity entity.
Proof.
  intros entity. unfold normalizeEntity. split.
  - now rewrite toLowerCase_idem.
  - now rewrite <- trim_toLowerCase, trim_idem.
Qed.

End Normalize.

(* ================================================================== *)
(** ** What entity extraction returns *)
(* ================================================================== *)

Section Extraction.

Import Regex.

Lemma execFrom_nonempty (r : regex) :
  (1 <= minLen r)%nat ->
  forall rest pre skip, Forall (fun v => v <> "") (execFrom r pre rest skip).
Proof.
  intros Hmin.
  assert (Hval : forall st st', run r st Some = Some st' -> matchValue st st' <> "").
  { intros st st' H. pose proof (match_nonempty r st st' Hmin H) as Hlen.
    unfold matchValue. destruct (group1 st') as [[|c g]|].
    - destruct (between st st'); [cbn in Hlen; lia | discriminate].
    - discriminate.
    - destruct (between st st'); [cbn in Hlen; lia | discriminate]. }
  induction rest as [|c tl IH]; intros pre skip; destruct skip as [|n];
    cbn [execFrom]; try constructor.
  - destruct (run r (mkCursor pre [] None) Some) eqn:E; constructor; auto.
  - destruct (run r (mkCursor pre (c :: tl) None) Some) eqn:E.
    + constructor; [now apply Hval | apply IH].
    + apply IH.
  - apply IH.
Qed.

Lemma recordMatch_extracted (cats : list string) (cat : string)
    (acc : list ExtractedEntity * list string) (v : string) :
  In cat cats -> v <> "" ->
  extracted (goodEntity cats) acc ->
  extracted (goodEntity cats) (recordMatch cat acc v).
Proof.
  intros Hcat Hv [Hseen [Hnd Hgood]]. destruct acc as [entities seen].
  cbn [fst snd] in *. unfold recordMatch.
  destruct (Text.mem (normalizeEntity v) seen) eqn:E.
  - repeat split; assumption.
  - apply mem_false in E. unfold extracted. cbn [fst snd].
    split; [|split].
    + rewrite map_app, Hseen. reflexivity.
    + apply NoDup_rev in Hnd.
      rewrite <- (rev_involutive (seen ++ [normalizeEntity v])).
      apply NoDup_rev. rewrite rev_app_distr. cbn [rev app].
      constructor; [now rewrite <- in_rev | assumption].
    + apply Forall_app. split; [assumption|].
      constructor; [|constructor]. repeat split; assumption.
Qed.

Lemma fold_extracted {A : Type} (P : A -> Prop)
    (step : list ExtractedEntity * list string -> A ->
            list ExtractedEntity * list string)
    (good : ExtractedEntity -> Prop) (l : list A) :
  (forall acc x, P x -> extracted good acc -> extracted good (step acc x)) ->
  Forall P l ->
  forall acc, extracted good acc -> extracted good (fold_left step l acc).
Proof.
  intros Hstep Hl. induction Hl as [|x l Hx _ IH]; intros acc Hacc; cbn [fold_left].
  - assumption.
  - apply IH. now apply Hstep.
Qed.

Lemma ENTITY_PATTERNS_Forall :
  Forall (fun g => In (category g) ["people"; "orgs"; "places"; "topics"]
                   /\ Forall (fun r => (1 <= minLen r)%nat) (patterns g))
         ENTITY_PATTERNS.
Proof.
  pose proof ENTITY_PATTERNS_wellformed as H. rewrite forallb_forall in H.
  assert (Hc : forallb (fun g => Text.mem (category g)
                                   ["people"; "orgs"; "places"; "topics"])
                       ENTITY_PATTERNS = true) by (vm_compute; reflexivity).
  rewrite forallb_forall in Hc.
  apply Forall_forall. intros g Hg. split.
  - apply mem_In. now apply Hc.
  - apply Forall_forall. intros r Hr.
    specialize (H g Hg). rewrite forallb_forall in H. specialize (H r Hr).
    apply andb_true_iff in H. destruct H as [_ H]. now apply Nat.leb_le.
Qed.

Lemma extractEntities_extracted (text : string) :
  extracted (goodEntity ["people"; "orgs"; "places"; "topics"])
    (fold_left (scanGroup text) ENTITY_PATTERNS ([], [])).
Proof.
  apply fold_extracted
    with (P := fun g => In (category g) ["people"; "orgs"; "places"; "topics"]
                        /\ Forall (fun r => (1 <= minLen r)%nat) (patterns g)).
  - intros acc g [Hcat Hpats] Hacc. unfold scanGroup.
    apply fold_extracted with (P := fun r => (1 <= minLen r)%nat);
      [|assumption|assumption].
    intros acc' r Hr Hacc'. unfold scanPattern.
    apply fold_extracted with (P := fun v => v <> ""); [| |assumption].
    + intros acc'' v Hv Hacc''. now apply recordMatch_extracted.
    + now apply execFrom_nonempty.
  - exact ENTITY_PATTERNS_Forall.
  - repeat split; constructor.
Qed.

Lemma setOf_fold_NoDup_id (xs acc : list string) :
  NoDup (acc ++ xs) ->
  fold_left (fun s x => if Text.mem x s then s else s ++ [x]) xs acc = acc ++ xs.
Proof.
  revert acc. induction xs as [|x xs IH]; intros acc Hnd; cbn [fold_left].
  - now rewrite app_nil_r.
  - assert (Hx : Text.mem x acc = false).
    { apply mem_false. intros Hin. apply NoDup_remove_2 in Hnd.
      apply Hnd. apply in_or_app. now left. }
    rewrite Hx, IH; rewrite <- app_assoc; [reflexivity | assumption].
Qed.

End Extraction.

(** X3. The entities extracted from a text have pairwise distinct
    normalized keys; each carries a non-empty matched text, the normal form
    of that text as its key, and one of the four categories.  The key set
    used by the pre-filter is the list of these keys, in order. *)
Theorem extractEntities_distinct_keys :
  forall (text : string),
    NoDup (map normalized (extractEntities text))
    /\ keysOf text = map normalized (extractEntities text)
    /\ forall e, In e (extractEntities text) ->
         normalized e = normalizeEntity (value e)
         /\ value e <> ""
         /\ In (entCategory e) ["people"; "orgs"; "places"; "topics"].
Proof.
  intros text. destruct (extractEntities_extracted text) as [Hseen [Hnd Hgood]].
  fold (extractEntities text) in Hseen, Hgood. rewrite Hseen in Hnd.
  split; [assumption|]. split.
  - unfold keysOf, setOf. now rewrite setOf_fold_NoDup_id.
  - intros e He. rewrite Forall_forall in Hgood. exact (Hgood e He).
Qed.

(* ================================================================== *)
(** ** Entity extraction does not depend on letter case *)
(* ================================================================== *)

Section CaseInsensitive.

Import Regex.

Lemma matches_lower (p : cclass) (c : ascii) :
  matches p (Text.lowerChar c) = matches p c.
Proof.
  destruct p as [x|]; cbn [matches];
    [now rewrite lowerChar_idem | apply isSpace_lower].
Qed.

Lemma atBoundary_lower (st : cursor) : atBoundary (lowerCursor st) = atBoundary st.
Proof.
  unfold atBoundary, lowerCursor. cbn [before after].
  destruct (before st) as [|a ?], (after st) as [|b ?]; cbn [map];
    rewrite ?isWordChar_lower; reflexivity.
Qed.

Lemma between_lower (st st' : cursor) :
  between (lowerCursor st) (lowerCursor st') = map Text.lowerChar (between st st').
Proof.
  unfold between, lowerCursor. cbn [before].
  now rewrite !length_map, firstn_map, map_rev.
Qed.

Lemma plus_lower (p : cclass) (k k' : cursor -> option cursor) :
  (forall c, k' (lowerCursor c) = option_map lowerCursor (k c)) ->
  forall rest pre g,
    plus p (map Text.lowerChar pre) (map Text.lowerChar rest)
         (option_map (map Text.lowerChar) g) k'
    = option_map lowerCursor (plus p pre rest g k).
Proof.
  intros Hk. induction rest as [|c tl IH]; intros pre g; cbn [map plus];
    [reflexivity|].
  rewrite matches_lower. destruct (matches p c); [|reflexivity].
  change (Text.lowerChar c :: map Text.lowerChar pre)
    with (map Text.lowerChar (c :: pre)).
  rewrite IH. destruct (plus p (c :: pre) tl g k); [reflexivity|].
  cbn [option_map]. exact (Hk (mkCursor (c :: pre) tl g)).
Qed.

(** The matcher on the lowercased text follows the matcher on the text. *)
Lemma run_lower (r : regex) :
  forall (st : cursor) (k k' : cursor -> option cursor),
    (forall c, k' (lowerCursor c) = option_map lowerCursor (k c)) ->
    run r (lowerCursor st) k' = option_map lowerCursor (run r st k).
Proof.
  induction r as [| |p|p|r1 IH1| |r1 IH1 r2 IH2|r1 IH1 r2 IH2|r1 IH1];
    intros st k k' Hk; cbn [run].
  - apply Hk.
  - reflexivity.
  - unfold lowerCursor at 1. cbn [after before group1].
    destruct (after st) as [|c tl]; cbn [map]; [reflexivity|].
    rewrite matches_lower. destruct (matches p c); [|reflexivity].
    exact (Hk (mkCursor (c :: before st) tl (group1 st))).
  - unfold lowerCursor at 1. cbn [after before group1]. now apply plus_lower.
  - rewrite (IH1 st k k' Hk). destruct (run r1 st k); [reflexivity | apply Hk].
  - rewrite atBoundary_lower. destruct (atBoundary st); [apply Hk | reflexivity].
  - apply IH1. intros c. now apply IH2.
  - rewrite (IH1 st k k' Hk). destruct (run r1 st k); [reflexivity|].
    now apply IH2.
  - apply IH1. intros c. rewrite between_lower.
    exact (Hk (mkCursor (before c) (after c) (Some (between st c)))).
Qed.

Lemma matchValue_lower (st st' : cursor) :
  matchValue (lowerCursor st) (lowerCursor st')
  = Text.toLowerCase (matchValue st st').
Proof.
  unfold matchValue. rewrite between_lower.
  unfold lowerCursor at 1. cbn [group1].
  destruct (group1 st') as [[|c g]|]; cbn [option_map map];
    now rewrite toLowerCase_of_list.
Qed.

Lemma execFrom_lower (r : regex) :
  forall rest pre skip,
    execFrom r (map Text.lowerChar pre) (map Text.lowerChar rest) skip
    = map Text.toLowerCase (execFrom r pre rest skip).
Proof.
  assert (Hrun : forall pre rest,
            run r (mkCursor (map Text.lowerChar pre) (map Text.lowerChar rest) None) Some
            = option_map lowerCursor (run r (mkCursor pre rest None) Some)).
  { intros pre rest. apply (run_lower r (mkCursor pre rest None) Some Some).
    reflexivity. }
  induction rest as [|c tl IH]; intros pre skip; destruct skip as [|n];
    cbn [map execFrom]; try reflexivity.
  - pose proof (Hrun pre []) as H. cbn [map] in H. rewrite H.
    destruct (run r (mkCursor pre [] None) Some) as [st'|]; [|reflexivity].
    cbn [option_map map].
    now rewrite <- (matchValue_lower (mkCursor pre [] None) st').
  - pose proof (Hrun pre (c :: tl)) as H. cbn [map] in H. rewrite H.
    destruct (run r (mkCursor pre (c :: tl) None) Some) as [st'|];
      cbn [option_map map].
    + rewrite <- (matchValue_lower (mkCursor pre (c :: tl) None) st').
      f_equal.
      change (mkCursor (map Text.lowerChar pre)
                       (Text.lowerChar c :: map Text.lowerChar tl) None)
        with (lowerCursor (mkCursor pre (c :: tl) None)).
      rewrite between_lower, length_map. apply (IH (c :: pre)).
    + apply (IH (c :: pre)).
  - apply (IH (c :: pre)).
Qed.

Lemma execAll_lower (r : regex) (text : string) :
  execAll r (Text.toLowerCase text) = map Text.toLowerCase (execAll r text).
Proof.
  unfold execAll. rewrite toLowerCase_list. apply (execFrom_lower r _ []).
Qed.

(** Two states of the extraction loops with the same keys and categories. *)
Lemma recordMatch_lower (cat : string)
    (acc acc' : list ExtractedEntity * list string) (v : string) :
  sameKeys acc' acc ->
  sameKeys (recordMatch cat acc' (Text.toLowerCase v)) (recordMatch cat acc v).
Proof.
  intros [Hseen [Hn Hc]]. destruct acc as [es seen], acc' as [es' seen'].
  cbn [fst snd] in *. subst seen'. unfold recordMatch.
  rewrite normalizeEntity_lower.
  destruct (Text.mem (normalizeEntity v) seen).
  - repeat split; assumption.
  - unfold sameKeys. cbn [fst snd]. rewrite !map_app, Hn, Hc. repeat split.
Qed.

Lemma scanPattern_lower (cat : string) (text : string) (r : regex)
    (acc acc' : list ExtractedEntity * list string) :
  sameKeys acc' acc ->
  sameKeys (scanPattern cat (Text.toLowerCase text) acc' r)
           (scanPattern cat text acc r).
Proof.
  unfold scanPattern. rewrite execAll_lower.
  generalize (execAll r text). intros vs. revert acc acc'.
  induction vs as [|v vs IH]; intros acc acc' H; cbn [map fold_left];
    [assumption|].
  apply IH. now apply recordMatch_lower.
Qed.

Lemma scanGroup_lower (text : string) (g : PatternGroup)
    (acc acc' : list ExtractedEntity * list string) :
  sameKeys acc' acc ->
  sameKeys (scanGroup (Text.toLowerCase text) acc' g) (scanGroup text acc g).
Proof.
  unfold scanGroup. generalize (patterns g). intros ps. revert acc acc'.
  induction ps as [|r ps IH]; intros acc acc' H; cbn [fold_left]; [assumption|].
  apply IH. now apply scanPattern_lower.
Qed.

Lemma extract_lower (text : string) :
  sameKeys (fold_left (scanGroup (Text.toLowerCase text)) ENTITY_PATTERNS ([], []))
           (fold_left (scanGroup text) ENTITY_PATTERNS ([], [])).
Proof.
  generalize ENTITY_PATTERNS. intros gs.
  assert (H0 : sameKeys (@nil ExtractedEntity, @nil string) ([], []))
    by (repeat split).
  revert H0. generalize (@nil ExtractedEntity, @nil string) at 1 3.
  generalize (@nil ExtractedEntity, @nil string).
  induction gs as [|g gs IH]; intros acc acc' H; cbn [fold_left]; [assumption|].
  apply IH. now apply scanGroup_lower.
Qed.

End CaseInsensitive.

(** X4. Entity extraction does not depend on letter case: an ASCII text and
    its lowercased form yield the same normalized keys with the same
    categories, in the same order. *)
Theorem extractEntities_case_insensitive :
  forall (text : string),
    Text.isAscii text = true ->
    map normalized (extractEntities (Text.toLowerCase text))
    = map normalized (extractEntities text)
    /\ map entCategory (extractEntities (Text.toLowerCase text))
       = map entCategory (extractEntities text).
Proof.
  intros text _. destruct (extract_lower text) as [_ [Hn Hc]].
  split; assumption.
Qed.

Lemma extractEntities_case_insensitive_witness :
  map normalized (extractEntities (Text.toLowerCase "Donald TRUMP and the FOMC"))
  = map normalized (extractEntities "Donald TRUMP and the FOMC").
Proof.
  exact (proj1 (extractEntities_case_insensitive "Donald TRUMP and the FOMC"
                  eq_refl)).
Defined.

(** X5. The pre-filter does not depend on the letter case of an ASCII
    question: the lowercased question gives the same ranked candidates. *)
Theorem preFilterEvents_case_insensitive :
  forall (question : string) (events : list KalshiEventRow),
    Text.isAscii question = true ->
    preFilterEvents (Text.toLowerCase question) events
    = preFilterEvents question events.
Proof.
  intros question events _.
  assert (Hn : map normalized (extractEntities (Text.toLowerCase question))
               = map normalized (extractEntities question))
    by exact (proj1 (proj2 (extract_lower question))).
  unfold preFilterEvents.
  assert (Hlen : List.length (extractEntities (Text.toLowerCase question))
                 = List.length (extractEntities question)).
  { rewrite <- (length_map normalized), Hn. apply length_map. }
  rewrite Hlen, Hn.
  unfold extractSemanticContext, classifyWith. rewrite toLowerCase_idem.
  reflexivity.
Qed.

Lemma preFilterEvents_case_insensitive_witness :
  preFilterEvents (Text.toLowerCase Sample.electionQuestion) [Sample.electionEvent]
  = preFilterEvents Sample.electionQuestion [Sample.electionEvent].
Proof.
  exact (preFilterEvents_case_insensitive Sample.electionQuestion
           [Sample.electionEvent] eq_refl).
Defined.

(* ================================================================== *)
(** ** Symmetry of the pre-filter gate *)
(* ================================================================== *)

Lemma compatible_comm (a b : SemanticContext) :
  areContextsCompatible a b = areContextsCompatible b a.
Proof. now destruct a, b. Qed.

(** X6. Context compatibility is a symmetric and reflexive relation, and
    [unknown] is compatible with every context. *)
Theorem areContextsCompatible_symmetric :
  forall (a b : SemanticContext),
    areContextsCompatible a b = areContextsCompatible b a
    /\ areContextsCompatible a a = true
    /\ areContextsCompatible unknown b = true
    /\ areContextsCompatible a unknown = true.
Proof. intros a b. destruct a, b; repeat split. Qed.

(** X7. The pre-filter treats its two texts alike: with the roles of the
    question and of the event text exchanged, the event is kept or dropped
    alike, and when kept it has the same score, the same number of matched
    entities and the same context compatibility. *)
Theorem considerEvent_symmetric :
  forall (question : string) (event event' : KalshiEventRow),
    eventText event' = question ->
    let there := considerEvent (keysOf question)
                   (extractSemanticContext question) event in
    let back := considerEvent (keysOf (eventText event))
                  (extractSemanticContext (eventText event)) event' in
    (there = None <-> back = None)
    /\ forall c c', there = Some c -> back = Some c' ->
         entityScore c = entityScore c'
         /\ List.length (matchedEntities c) = List.length (matchedEntities c')
         /\ contextCompatible c = contextCompatible c'.
Proof.
  intros question event event' Hback there back. subst there back.
  rewrite !considerEvent_unfold. cbv zeta.
  assert (Hlen : List.length (matchedEntities (candidateOf (eventText event) event'))
                 = List.length (matchedEntities (candidateOf question event))).
  { unfold candidateOf. cbn [matchedEntities]. rewrite Hback.
    apply intersect_length_comm; apply setOf_NoDup. }
  assert (Hc : contextCompatible (candidateOf (eventText event) event')
               = contextCompatible (candidateOf question event)).
  { unfold candidateOf. cbn [contextCompatible]. rewrite Hback.
    apply compatible_comm. }
  assert (Hs : entityScore (candidateOf (eventText event) event')
               = entityScore (candidateOf question event)).
  { unfold candidateOf. cbn [entityScore]. rewrite Hback, dice_comm. f_equal.
    apply intersect_length_comm; apply setOf_NoDup. }
  rewrite Hlen, Hc.
  destruct (List.length (matchedEntities (candidateOf question event)) =? 0)%nat;
    [split; [tauto | discriminate]|].
  destruct ((List.length (matchedEntities (candidateOf question event)) =? 1)%nat
            && negb (contextCompatible (candidateOf question event)));
    [split; [tauto | discriminate]|].
  split; [split; discriminate|].
  intros c c' H H'. injection H as <-. injection H' as <-. auto.
Qed.

Lemma considerEvent_symmetric_witness :
  let event' := mkEvent "Q" "Will"
                        (Some "Donald Trump win the 2028 election?") None in
  let there := considerEvent (keysOf Sample.electionQuestion)
                 (extractSemanticContext Sample.electionQuestion)
                 Sample.electionEvent in
  let back := considerEvent (keysOf (eventText Sample.electionEvent))
                (extractSemanticContext (eventText Sample.electionEvent)) event' in
  there = None <-> back = None.
Proof.
  intros event' there back.
  exact (proj1 (considerEvent_symmetric Sample.electionQuestion
                  Sample.electionEvent event' eq_refl)).
Defined.

(* ================================================================== *)
(** ** Ordering of query results *)
(* ================================================================== *)

Section Sorting.

Variable A : Type.
Variable key : A -> Q.

Lemma insertDesc_perm (x : A) (l : list A) :
  Permutation (Store.insertDesc (byKey A key) x l) (x :: l).
Proof.
  induction l as [|y l IH]; cbn [Store.insertDesc]; [reflexivity|].
  destruct ((byKey A key) y x); [|reflexivity].
  rewrite IH. apply perm_swap.
Qed.

Lemma sortDesc_perm (l : list A) : Permutation (Store.sortDesc (byKey A key) l) l.
Proof.
  induction l as [|x l IH]; cbn; [reflexivity|].
  fold (Store.sortDesc (byKey A key) l). rewrite insertDesc_perm. now constructor.
Qed.

Lemma insertDesc_sorted (x : A) (l : list A) :
  StronglySorted (fun a b => (key b <= key a)%Q) l ->
  StronglySorted (fun a b => (key b <= key a)%Q) (Store.insertDesc (byKey A key) x l).
Proof.
  intros Hl. induction Hl as [|y l Hl IH Hy]; cbn [Store.insertDesc].
  - constructor; constructor.
  - unfold byKey at 1. destruct (Num.ltb (key x) (key y)) eqn:E.
    + apply ltb_lt in E. constructor; [assumption|].
      apply Forall_forall. intros z Hz.
      apply (Permutation_in _ (insertDesc_perm x l)) in Hz.
      destruct Hz as [<- | Hz]; [now apply Qlt_le_weak|].
      rewrite Forall_forall in Hy. now apply Hy.
    + apply ltb_ge in E. constructor; [now constructor|].
      constructor; [assumption|].
      apply Forall_forall. intros z Hz. rewrite Forall_forall in Hy.
      apply Qle_trans with (key y); [now apply Hy | assumption].
Qed.

Lemma sortDesc_sorted (l : list A) :
  StronglySorted (fun a b => (key b <= key a)%Q) (Store.sortDesc (byKey A key) l).
Proof.
  induction l as [|x l IH]; cbn; [constructor|].
  fold (Store.sortDesc (byKey A key) l). now apply insertDesc_sorted.
Qed.

(** Rows with one and the same key keep their order. *)
Lemma insertDesc_stable (q : Q) (x : A) (l : list A) :
  filter (fun z => Qeq_bool (key z) q) (Store.insertDesc (byKey A key) x l)
  = filter (fun z => Qeq_bool (key z) q) (x :: l).
Proof.
  induction l as [|y l IH]; cbn [Store.insertDesc]; [reflexivity|].
  unfold byKey at 1. destruct (Num.ltb (key x) (key y)) eqn:E; [|reflexivity].
  apply ltb_lt in E. cbn [filter] in *. rewrite IH.
  destruct (Qeq_bool (key x) q) eqn:Ex, (Qeq_bool (key y) q) eqn:Ey;
    try reflexivity.
  apply Qeq_bool_iff in Ex, Ey. exfalso.
  rewrite Ex, Ey in E. now apply (Qlt_irrefl q).
Qed.

Lemma sortDesc_stable (q : Q) (l : list A) :
  filter (fun z => Qeq_bool (key z) q) (Store.sortDesc (byKey A key) l)
  = filter (fun z => Qeq_bool (key z) q) l.
Proof.
  induction l as [|x l IH]; cbn [Store.sortDesc fold_right]; [reflexivity|].
  fold (Store.sortDesc (byKey A key) l). rewrite insertDesc_stable.
  cbn [filter]. now rewrite IH.
Qed.

Lemma firstn_In (n : nat) (l : list A) (x : A) : In x (firstn n l) -> In x l.
Proof.
  intros H. rewrite <- (firstn_skipn n l). apply in_or_app. now left.
Qed.

Lemma StronglySorted_firstn (R : A -> A -> Prop) (n : nat) (l : list A) :
  StronglySorted R l -> StronglySorted R (firstn n l).
Proof.
  intros H. revert n. induction H as [|x l Hl IH Hx]; intros [|n];
    cbn [firstn]; try constructor.
  - apply IH.
  - apply Forall_forall. intros z Hz. rewrite Forall_forall in Hx.
    apply Hx. now apply (firstn_In n).
Qed.

Lemma limitTo_sorted (R : A -> A -> Prop) (limit : Z) (l : list A) :
  StronglySorted R l -> StronglySorted R (Store.limitTo limit l).
Proof.
  intros H. unfold Store.limitTo. destruct (limit <? 0)%Z; [assumption|].
  now apply StronglySorted_firstn.
Qed.

Lemma limitTo_incl (limit : Z) (l : list A) (x : A) :
  In x (Store.limitTo limit l) -> In x l.
Proof.
  unfold Store.limitTo. destruct (limit <? 0)%Z; [auto | apply firstn_In].
Qed.

Lemma limitTo_length (limit : Z) (l : list A) :
  (0 <= limit)%Z ->
  (Z.of_nat (List.length (Store.limitTo limit l)) <= limit)%Z.
Proof.
  intros H. unfold Store.limitTo.
  destruct (Z.ltb_spec limit 0) as [Hl|Hl]; [lia|].
  pose proof (firstn_le_length (Z.to_nat limit) l) as Hf.
  rewrite length_firstn. lia.
Qed.

End Sorting.

Lemma sortByScore_sortDesc (l : list PreFilterResult) :
  sortByScore l = Store.sortDesc (byKey _ entityScore) l.
Proof.
  unfold sortByScore, Store.sortDesc. induction l as [|x l IH]; cbn [fold_right];
    [reflexivity|].
  rewrite IH. generalize (fold_right (Store.insertDesc (byKey _ entityScore)) [] l).
  intros l'. induction l' as [|y l' IH']; cbn [insertByScore Store.insertDesc];
    [reflexivity|].
  unfold byKey at 1. destruct (Num.ltb (entityScore x) (entityScore y));
    [now rewrite IH' | reflexivity].
Qed.

(** X8. The pre-filter returns its candidates in descending order of
    score, so the top candidate has the greatest score; it returns at most
    one candidate per event of the pool. *)
Theorem preFilterEvents_sorted :
  forall (question : string) (events : list KalshiEventRow),
    StronglySorted (fun a b => (entityScore b <= entityScore a)%Q)
                   (preFilterEvents question events)
    /\ (forall top rest, preFilterEvents question events = top :: rest ->
          forall r, In r rest -> (entityScore r <= entityScore top)%Q)
    /\ (List.length (preFilterEvents question events) <= List.length events)%nat.
Proof.
  intros question events.
  assert (Hs : StronglySorted (fun a b => (entityScore b <= entityScore a)%Q)
                 (preFilterEvents question events)).
  { unfold preFilterEvents.
    destruct (List.length (extractEntities question) =? 0)%nat; [constructor|].
    rewrite sortByScore_sortDesc. apply sortDesc_sorted. }
  split; [assumption|]. split.
  - intros top rest Heq r Hr. rewrite Heq in Hs.
    apply StronglySorted_inv in Hs. destruct Hs as [_ Hall].
    rewrite Forall_forall in Hall. now apply Hall.
  - clear Hs. unfold preFilterEvents.
    destruct (List.length (extractEntities question) =? 0)%nat; [cbn; lia|].
    rewrite (Permutation_length (sortByScore_perm _)).
    generalize (considerEvent (setOf (map normalized (extractEntities question)))
                              (extractSemanticContext question)).
    intros f. induction events as [|e events IH]; cbn [collect List.length]; [lia|].
    destruct (f e); cbn [List.length]; lia.
Qed.

Lemma considerEvent_no_keys (ctx : SemanticContext) (event : KalshiEventRow) :
  considerEvent [] ctx event = None.
Proof.
  unfold considerEvent.
  destruct (List.length (extractEntities (eventText event)) =? 0)%nat; reflexivity.
Qed.

(** X9. The sort of the pre-filter is stable: candidates with one and the
    same score appear in the order of their events in the pool. *)
Theorem preFilterEvents_stable :
  forall (question : string) (events : list KalshiEventRow) (score : Q),
    filter (fun r => Qeq_bool (entityScore r) score)
           (preFilterEvents question events)
    = filter (fun r => Qeq_bool (entityScore r) score)
             (collect (considerEvent (keysOf question)
                                     (extractSemanticContext question)) events).
Proof.
  intros question events score. unfold preFilterEvents.
  destruct (List.length (extractEntities question) =? 0)%nat eqn:E.
  - apply length_zero_iff in E. unfold keysOf. rewrite E.
    change (setOf (map normalized [])) with (@nil string).
    induction events as [|e events IH]; cbn [collect]; [reflexivity|].
    now rewrite considerEvent_no_keys.
  - rewrite sortByScore_sortDesc. apply sortDesc_stable.
Qed.

(* ================================================================== *)
(** ** What the decision engine returns and whom it asks *)
(* ================================================================== *)

Section Engine.

Variable llm : Classifier.
Variable question : string.
Variable kalshiEvents : list KalshiEventRow.

Lemma readable_pool (ticker : string) :
  Forall wellFormedRow kalshiEvents -> readable kalshiEvents ticker.
Proof.
  intros Hpool. destruct (findEvent kalshiEvents ticker) as [row|] eqn:E.
  - apply (readable_wellformed kalshiEvents ticker row E).
    unfold findEvent in E. apply find_some in E. destruct E as [Hin _].
    rewrite Forall_forall in Hpool. exact (Hpool row Hin).
  - unfold readable, bestMarketTicker. rewrite E. now eexists.
Qed.

Lemma index_In {A : Type} (l : list A) (x : Q) (c : A) :
  Num.index l x = Some c -> In c l.
Proof.
  unfold Num.index. destruct (Num.isInteger x && Qle_bool 0 x); [|discriminate].
  apply nth_error_In.
Qed.

Lemma Matches_In (c : PreFilterResult) (build : option string -> MatchResult) :
  Matches llm question kalshiEvents c build ->
  In c (preFilterEvents question kalshiEvents).
Proof.
  intros [top rest Hpre _ | top rest Hpre _ _ _ | top rest a c' Hpre _ _ _ Hidx];
    rewrite Hpre; try now left.
  apply index_In in Hidx. revert Hidx. apply firstn_In.
Qed.

(** A run settles with a [none] result, or with the result of a matching
    tier, or with the exception of that tier's nested-markets read. *)
Lemma settled_cases (r : MatchResult) :
  settled (matchSingleMarket llm question kalshiEvents) = inr r ->
  (exists why, r = noMatch why)
  \/ (exists c build tk,
        Matches llm question kalshiEvents c build
        /\ bestMarketTicker kalshiEvents (eventTicker c) = inr tk
        /\ r = build tk).
Proof.
  intros Hr. destruct (tier_coverage llm question kalshiEvents)
    as [[why Hwhy] | [c [build HM]]].
  - left. exists why. rewrite Hwhy in Hr. now injection Hr as <-.
  - right. rewrite (Matches_settled _ _ _ _ _ HM) in Hr.
    apply withMarket_result in Hr. destruct Hr as [tk [Htk ->]].
    now exists c, build, tk.
Qed.

Lemma indexFrom_nth (l : list PreFilterResult) :
  forall k i,
    nth_error (indexFrom k l) i
    = option_map (fun c => mkIndexed (k + i) (eventTitle c) (preSubtitle c))
                 (nth_error l i).
Proof.
  induction l as [|c l IH]; intros k [|i]; cbn [indexFrom nth_error option_map];
    try reflexivity.
  - now rewrite Nat.add_0_r.
  - rewrite IH. now rewrite Nat.add_succ_r.
Qed.

Lemma index_indexFrom (l : list PreFilterResult) (x : Q) :
  Num.index (indexFrom 0 l) x
  = option_map (fun c => mkIndexed (Z.to_nat (Qfloor x)) (eventTitle c) (preSubtitle c))
               (Num.index l x).
Proof.
  unfold Num.index. destruct (Num.isInteger x && Qle_bool 0 x); [|reflexivity].
  apply indexFrom_nth.
Qed.

End Engine.

Lemma returns_on_wellformed (llm : Classifier) (question : string)
    (events : list KalshiEventRow) :
  Forall wellFormedRow events ->
  exists r, settled (matchSingleMarket llm question events) = inr r.
Proof.
  intros Hpool.
  destruct (tier_coverage llm question events) as [[why Hwhy] | [c [build HM]]].
  - exists (noMatch why). exact Hwhy.
  - rewrite (Matches_settled _ _ _ _ _ HM).
    destruct (readable_pool events (eventTicker c) Hpool) as [tk Htk].
    rewrite (withMarket_inr _ _ _ _ Htk). now eexists.
Qed.

(** X10. On a pool whose rows carry their nested markets as the schema
    documents them (absent, or an array without null entries), and for
    classifier replies of the declared shape ([null], or an object with
    finite numbers as [eventIndex] and [confidence]), the decision engine
    always returns a result: it never throws. *)
Theorem matchSingleMarket_returns :
  forall (reply : Replies) (llm : Classifier) (question : string)
         (events : list KalshiEventRow),
    Conforms reply llm ->
    Forall wellFormedRow events ->
    exists r, settled (matchSingleMarket llm question events) = inr r.
Proof. intros reply llm question events _. apply returns_on_wellformed. Qed.

Lemma matchSingleMarket_returns_witness :
  exists r, settled (matchSingleMarket Sample.unavailable Sample.ceasefireQuestion
                       [Sample.electionEvent; Sample.ceasefireEvent]) = inr r.
Proof.
  apply (matchSingleMarket_returns Sample.silent); [exact Conforms_silent|].
  repeat constructor.
Defined.

(** X11. For classifier replies of the declared shape ([null], or an object
    with finite numbers as [eventIndex] and [confidence]), a returned result
    never names a target outside the pool: its event ticker and title are
    those of one event of the pool, and it has method [none] exactly when it
    names no event, in which case similarity and confidence are 0 and no
    market, title or entity is reported. *)
Theorem matchSingleMarket_target_in_pool :
  forall (reply : Replies) (llm : Classifier) (question : string)
         (events : list KalshiEventRow) (r : MatchResult),
    Conforms reply llm ->
    settled (matchSingleMarket llm question events) = inr r ->
    (forall ticker, kalshiEventTicker r = Some ticker ->
       exists event, In event events
         /\ event_ticker event = ticker
         /\ kalshiEventTitle r = Some (title event))
    /\ (matchMethod r = none <-> kalshiEventTicker r = None)
    /\ (matchMethod r = none ->
        kalshiMarketTicker r = None /\ kalshiEventTitle r = None
        /\ similarity r = 0%Q /\ confidence r = 0%Q
        /\ resMatchedEntities r = []).
Proof.
  intros reply llm question events r _ Hr.
  destruct (settled_cases llm question events r Hr)
    as [[why ->] | [c [build [tk [HM [Htk ->]]]]]].
  - split; [intros ticker H; discriminate|].
    split; [split; reflexivity | intros _; repeat split].
  - destruct (Matches_build llm question events c build tk HM)
      as [Ht [Hti [_ Hm]]].
    split; [|split].
    + intros ticker Hticker. rewrite Ht in Hticker. injection Hticker as <-.
      pose proof (Matches_In llm question events c build HM) as Hin.
      destruct (survivor_shape _ _ _ Hin) as [event [Hev [Hc _]]].
      exists event. split; [assumption|]. rewrite Hti, Hc. split; reflexivity.
    + rewrite Ht. split; [intros H; contradiction | discriminate].
    + intros H. contradiction.
Qed.

Lemma matchSingleMarket_target_in_pool_witness :
  exists event, In event [Sample.electionEvent]
    /\ event_ticker event = "K1"
    /\ Some (eventTitle Sample.electionCandidate) = Some (title event).
Proof.
  destruct (run_classifier Sample.unavailable Sample.electionQuestion
              [Sample.electionEvent] Sample.electionCandidate []
              election_prefilter eq_refl) as [_ Hset].
  assert (Hr : settled (matchSingleMarket Sample.unavailable
                          Sample.electionQuestion [Sample.electionEvent])
               = inr (fallbackResult Sample.electionCandidate None))
    by exact Hset.
  destruct (matchSingleMarket_target_in_pool Sample.silent Sample.unavailable
              Sample.electionQuestion [Sample.electionEvent] _
              Conforms_silent Hr) as [H _].
  exact (H "K1" eq_refl).
Defined.

(** X12. The classifier is consulted at most once per decision; when it is,
    it receives the question and the top candidates of the pre-filter, at
    least 1 and at most 30, in ranking order, each with its position as
    index.  A result with method [ai] is only returned after a call. *)
Theorem matchSingleMarket_calls :
  forall (llm : Classifier) (question : string) (events : list KalshiEventRow),
    let run := matchSingleMarket llm question events in
    (calls run = []
     \/ exists sent,
          calls run = [(question, sent)]
          /\ (1 <= List.length sent <= 30)%nat
          /\ List.length sent
             = Nat.min 30 (List.length (preFilterEvents question events))
          /\ forall i ix, nth_error sent i = Some ix ->
               idx ix = i
               /\ exists c,
                    nth_error (preFilterEvents question events) i = Some c
                    /\ ixTitle ix = eventTitle c
                    /\ ixSubtitle ix = preSubtitle c)
    /\ (forall r, settled run = inr r -> matchMethod r = ai -> calls run <> []).
Proof.
  intros llm question events run. subst run.
  destruct (preFilterEvents question events) as [|top rest] eqn:Hpre.
  - rewrite (run_no_candidates llm question events Hpre). split; [now left|].
    intros r Hr. injection Hr as <-. discriminate.
  - destruct (isStrong top) eqn:Hs.
    + rewrite (run_strong llm question events top rest Hpre Hs). split; [now left|].
      intros r Hr. cbn [settled] in Hr. apply withMarket_result in Hr.
      destruct Hr as [tk [_ ->]]. discriminate.
    + destruct (run_classifier llm question events top rest Hpre Hs) as [Hcalls _].
      cbv zeta in Hcalls. rewrite Hcalls. split; [|intros; discriminate].
      right. eexists. split; [reflexivity|].
      rewrite indexFrom_length, length_firstn. split; [|split].
      * cbn [List.length]. lia.
      * reflexivity.
      * intros i ix Hix. rewrite indexFrom_nth in Hix.
        destruct (nth_error (firstn 30 (top :: rest)) i) as [c|] eqn:Hc;
          [|discriminate].
        injection Hix as <-. cbn [idx ixTitle ixSubtitle]. split; [reflexivity|].
        exists c. split; [|split; reflexivity].
        rewrite <- (firstn_skipn 30 (top :: rest)).
        rewrite nth_error_app1; [assumption|].
        apply nth_error_Some. now rewrite Hc.
Qed.

(** An accepted answer of the declared shape is mapped back through its
    index. *)
Lemma ai_accept_maps_back :
  forall (llm : Classifier) (question : string) (events : list KalshiEventRow)
         (r : MatchResult),
    settled (matchSingleMarket llm question events) = inr r ->
    matchMethod r = ai ->
    exists sent a ix c,
      calls (matchSingleMarket llm question events) = [(question, sent)]
      /\ llm question sent = Some a
      /\ Num.index sent (eventIndex a) = Some ix
      /\ Num.index (preFilterEvents question events) (eventIndex a) = Some c
      /\ kalshiEventTitle r = Some (ixTitle ix)
      /\ kalshiEventTicker r = Some (eventTicker c)
      /\ confidence r = aiConfidence a
      /\ reasoning r = aiReasoning a
      /\ resMatchedEntities r
         = match matchedConcepts a with
           | Some l => l
           | None => matchedEntities c
           end.
Proof.
  intros llm question events r Hr Hai.
  destruct (preFilterEvents question events) as [|top rest] eqn:Hpre.
  - rewrite (run_no_candidates llm question events Hpre) in Hr.
    injection Hr as <-. discriminate.
  - destruct (isStrong top) eqn:Hs.
    + rewrite (run_strong llm question events top rest Hpre Hs) in Hr.
      cbn [settled] in Hr. apply withMarket_result in Hr.
      destruct Hr as [tk [_ ->]]. discriminate.
    + destruct (run_classifier llm question events top rest Hpre Hs)
        as [Hcalls Hset].
      cbv zeta in Hcalls, Hset. rewrite Hset in Hr. clear Hset.
      set (topN := firstn 30 (top :: rest)) in *.
      set (sent := indexFrom 0 topN) in *.
      destruct (rejected (llm question sent)) eqn:Hrej.
      * destruct (Num.geb (entityScore top) 0.4 && contextCompatible top).
        -- apply withMarket_result in Hr. destruct Hr as [tk [_ ->]]. discriminate.
        -- injection Hr as <-. discriminate.
      * destruct (llm question sent) as [a|] eqn:Hllm;
          [|injection Hr as <-; discriminate].
        destruct (Num.index topN (eventIndex a)) as [c|] eqn:Hidx;
          [|injection Hr as <-; discriminate].
        apply withMarket_result in Hr. destruct Hr as [tk [_ ->]].
        exists sent, a,
          (mkIndexed (Z.to_nat (Qfloor (eventIndex a))) (eventTitle c) (preSubtitle c)),
          c.
        split; [assumption|]. split; [exact Hllm|]. split.
        { subst sent. rewrite index_indexFrom, Hidx. reflexivity. }
        split; [|repeat split].
        unfold Num.index in *.
        destruct (Num.isInteger (eventIndex a) && Qle_bool 0 (eventIndex a));
          [|discriminate].
        subst topN. rewrite <- (firstn_skipn 30 (top :: rest)).
        rewrite nth_error_app1; [assumption|].
        apply nth_error_Some. now rewrite Hidx.
Qed.

(** X13. For classifier replies of the declared shape, an accepted answer
    is mapped back through its index: the reply is an object whose
    [eventIndex] member [i] selects the candidate that was sent at index
    [i]; the result names that candidate's event, carries the reply's
    [confidence] and reasoning, and reports the reply's concepts as matched
    entities (the candidate's matched entities when it gives none). *)
Theorem matchSingleMarket_ai_accept :
  forall (reply : Replies) (llm : Classifier) (question : string)
         (events : list KalshiEventRow) (r : MatchResult),
    Conforms reply llm ->
    settled (matchSingleMarket llm question events) = inr r ->
    matchMethod r = ai ->
    exists sent members i conf ix c,
      calls (matchSingleMarket llm question events) = [(question, sent)]
      /\ reply question sent = JObject members
      /\ member "eventIndex" members = Some (JNumber (Finite i))
      /\ member "confidence" members = Some (JNumber (Finite conf))
      /\ Num.index sent i = Some ix
      /\ Num.index (preFilterEvents question events) i = Some c
      /\ kalshiEventTitle r = Some (ixTitle ix)
      /\ kalshiEventTicker r = Some (eventTicker c)
      /\ confidence r = conf
      /\ reasoningOf (member "reasoning" members) = Some (reasoning r)
      /\ (forall concepts,
            conceptsOf (member "matchedConcepts" members) = Some (Some concepts) ->
            resMatchedEntities r = concepts)
      /\ (conceptsOf (member "matchedConcepts" members) = Some None ->
          resMatchedEntities r = matchedEntities c).
Proof.
  intros reply llm question events r Hconf Hr Hai.
  destruct (ai_accept_maps_back llm question events r Hr Hai)
    as [sent [a [ix [c [Hcalls [Hllm [Hix [Hc [Hti [Htk [Hcf [Hre Hen]]]]]]]]]]]].
  pose proof (Hconf question sent) as Hd. rewrite Hllm in Hd.
  destruct (decode_members _ _ Hd) as [members [Hrep [Hi [Hcm [Hrs Hcs]]]]].
  exists sent, members, (eventIndex a), (aiConfidence a), ix, c.
  split; [exact Hcalls|]. split; [exact Hrep|]. split; [exact Hi|].
  split; [exact Hcm|]. split; [exact Hix|]. split; [exact Hc|].
  split; [exact Hti|]. split; [exact Htk|]. split; [exact Hcf|].
  split; [now rewrite Hre|]. rewrite Hen, Hcs. split.
  - intros concepts H. injection H as H. now rewrite H.
  - intros H. injection H as H. now rewrite H.
Qed.

Lemma matchSingleMarket_ai_accept_witness :
  exists sent members,
    calls (matchSingleMarket (Sample.answering 0 90) Sample.electionQuestion
             [Sample.electionEvent]) = [(Sample.electionQuestion, sent)]
    /\ Sample.replying 0 90 Sample.electionQuestion sent = JObject members.
Proof.
  destruct (run_classifier (Sample.answering 0 90) Sample.electionQuestion
              [Sample.electionEvent] Sample.electionCandidate []
              election_prefilter eq_refl) as [_ Hset].
  pose (r := aiResultOf (mkAI 0 90 (Some "Same resolution criteria")
                               (Some ["trump"; "election"]))
                        Sample.electionCandidate None).
  assert (Hr : settled (matchSingleMarket (Sample.answering 0 90)
                          Sample.electionQuestion [Sample.electionEvent]) = inr r)
    by exact Hset.
  destruct (matchSingleMarket_ai_accept (Sample.replying 0 90)
              (Sample.answering 0 90) Sample.electionQuestion
              [Sample.electionEvent] r (Conforms_replying 0 90) Hr eq_refl)
    as [sent [members [i [conf [ix [c [Hcalls [Hrep _]]]]]]]].
  exists sent, members. exact (conj Hcalls Hrep).
Defined.

(* ================================================================== *)
(** ** Timestamps as text, and the lookup of a cached match *)
(* ================================================================== *)

Section Stamps.

Import Db.

Lemma nat_of_ascii_inj (a b : ascii) : nat_of_ascii a = nat_of_ascii b -> a = b.
Proof.
  intros H. rewrite <- (ascii_nat_embedding a), <- (ascii_nat_embedding b).
  now rewrite H.
Qed.

(** Text comparison of two timestamps is the lexicographic order of day,
    separator and time of day. *)
Lemma textGt_spec (a b : Stamp) :
  textGt a b = true <->
  (day b < day a)%Z
  \/ (day a = day b
      /\ ((nat_of_ascii (sep b) < nat_of_ascii (sep a))%nat
          \/ (nat_of_ascii (sep a) = nat_of_ascii (sep b) /\ (clock b < clock a)%Z))).
Proof.
  unfold textGt.
  rewrite orb_true_iff, andb_true_iff, orb_true_iff, andb_true_iff.
  rewrite !Z.ltb_lt, Z.eqb_eq, Nat.ltb_lt, Ascii.eqb_eq.
  split.
  - intros [H | [H1 [H | [H2 H3]]]]; [now left | right; split; [assumption|now left]|].
    right. split; [assumption|]. right. split; [now rewrite H2 | assumption].
  - intros [H | [H1 [H | [H2 H3]]]]; [now left | right; split; [assumption|now left]|].
    right. split; [assumption|]. right. split; [now apply nat_of_ascii_inj | assumption].
Qed.

Lemma textGt_false (a b : Stamp) :
  textGt a b = false <->
  ~ ((day b < day a)%Z
     \/ (day a = day b
         /\ ((nat_of_ascii (sep b) < nat_of_ascii (sep a))%nat
             \/ (nat_of_ascii (sep a) = nat_of_ascii (sep b) /\ (clock b < clock a)%Z)))).
Proof.
  rewrite <- textGt_spec. destruct (textGt a b).
  - split; [discriminate | intros H; exfalso; now apply H].
  - split; [intros _; discriminate | reflexivity].
Qed.

Lemma textGt_asym (a b : Stamp) : textGt a b = true -> textGt b a = false.
Proof. rewrite textGt_spec, textGt_false, !Nat.lt_nge. lia. Qed.

Lemma textGt_neg_trans (a b c : Stamp) :
  textGt a b = false -> textGt b c = false -> textGt a c = false.
Proof. rewrite !textGt_false. lia. Qed.

(** An ISO timestamp against [datetime('now')]: the dates decide, and on
    one and the same date the separator [T] is greater than the space. *)
Lemma live_by_day (expiry now : Z) :
  textGt (toISOString expiry) (datetimeNow now)
  = (now / msPerDay <=? expiry / msPerDay)%Z.
Proof.
  unfold textGt, toISOString, datetimeNow. cbn [day sep clock].
  change (nat_of_ascii " " <? nat_of_ascii "T")%nat with true.
  cbn [orb]. rewrite andb_true_r.
  destruct (Z.ltb_spec (now / msPerDay) (expiry / msPerDay)),
           (Z.eqb_spec (expiry / msPerDay) (now / msPerDay)),
           (Z.leb_spec (now / msPerDay) (expiry / msPerDay));
    try reflexivity; lia.
Qed.

Lemma latest_none (rows : list MarketMatchRow) : latest rows = None <-> rows = [].
Proof.
  split; [|now intros ->].
  destruct rows as [|r rows]; [reflexivity|]. cbn [latest].
  destruct (latest rows) as [r'|]; [|discriminate].
  destruct (textGt (matched_at r') (matched_at r)); discriminate.
Qed.

Lemma latest_In (rows : list MarketMatchRow) (r : MarketMatchRow) :
  latest rows = Some r -> In r rows.
Proof.
  revert r. induction rows as [|x rows IH]; intros r; cbn [latest]; [discriminate|].
  destruct (latest rows) as [r'|].
  - destruct (textGt (matched_at r') (matched_at x)); intros H; injection H as <-;
      [right; now apply IH | now left].
  - intros H. injection H as <-. now left.
Qed.

Lemma latest_greatest (rows : list MarketMatchRow) (r : MarketMatchRow) :
  latest rows = Some r ->
  forall r', In r' rows -> textGt (matched_at r') (matched_at r) = false.
Proof.
  revert r. induction rows as [|x rows IH]; intros r; cbn [latest]; [discriminate|].
  destruct (latest rows) as [r0|] eqn:E.
  - destruct (textGt (matched_at r0) (matched_at x)) eqn:Hgt;
      intros H; injection H as <-; intros r' [<- | Hin].
    + now apply textGt_asym.
    + now apply IH.
    + rewrite textGt_false. lia.
    + apply textGt_neg_trans with (matched_at r0); [now apply IH | assumption].
  - apply latest_none in E. subst rows.
    intros H; injection H as <-; intros r' [<- | []].
    rewrite textGt_false. lia.
Qed.

Lemma latest_single (r : MarketMatchRow) : latest [r] = Some r.
Proof. reflexivity. Qed.

(** After a store that the foreign key admits, the only row of the id is
    the new one. *)
Lemma getMarketMatch_upsert (db : Database) (m : MatchInput) (now now' : Z) :
  Text.mem (polymarketId m) (markets db) = true ->
  getMarketMatch (fst (upsertMarketMatch db m now)) (polymarketId m) now'
  = if (now' / msPerDay <=? expiryOf m now / msPerDay)%Z
    then Some (newRow (sequence db + 1) m now)
    else None.
Proof.
  intros Hfk. unfold getMarketMatch. rewrite upsert_rows, Hfk, filter_app.
  assert (Hnone : filter (fun r => String.eqb (polymarket_id r) (polymarketId m)
                            && textGt (expires_at r) (datetimeNow now'))
                    (deleteMatches (polymarketId m) (market_matches db)) = []).
  { apply filter_none_and. apply deleteMatches_none. }
  rewrite Hnone. cbn [app filter newRow polymarket_id expires_at].
  rewrite String.eqb_refl, live_by_day. cbn [andb].
  now destruct (now' / msPerDay <=? expiryOf m now / msPerDay)%Z.
Qed.

Lemma getMarketMatch_frame (db : Database) (m : MatchInput) (now now' : Z)
    (other : string) :
  other <> polymarketId m ->
  getMarketMatch (fst (upsertMarketMatch db m now)) other now'
  = getMarketMatch db other now'.
Proof.
  intros Hne. unfold getMarketMatch.
  pose proof (rowsFor_upsert_other db m now other Hne) as H.
  unfold forMarket in H.
  assert (Hsplit : forall rows,
            filter (fun r => String.eqb (polymarket_id r) other
                             && textGt (expires_at r) (datetimeNow now')) rows
            = filter (fun r => textGt (expires_at r) (datetimeNow now'))
                     (filter (fun r => String.eqb (polymarket_id r) other) rows)).
  { intros rows. induction rows as [|r rows IH]; cbn [filter]; [reflexivity|].
    destruct (String.eqb (polymarket_id r) other); cbn [andb filter];
      [now rewrite IH | assumption]. }
  now rewrite !Hsplit, H.
Qed.

End Stamps.

(** X14. A stored match is served by whole UTC days.  With the store, its
    expiry and the lookup all in the years 0000 to 9999: from a store at
    [now] that the foreign key admits, [getMarketMatch] returns the new row
    at every instant whose date is not after the date of [now + ttl] (also
    after the expiry instant on that date) and nothing from the next date
    on, while the lookups of all other ids are as before the store. *)
Theorem stored_match_live_by_day :
  forall (db : Db.Database) (m : Db.MatchInput) (now now' : Z),
    Db.plainEra now -> Db.plainEra (Db.expiryOf m now) -> Db.plainEra now' ->
    In (Db.polymarketId m) (Db.markets db) ->
    let db' := fst (Db.upsertMarketMatch db m now) in
    Db.getMarketMatch db' (Db.polymarketId m) now'
    = (if (now' / Db.msPerDay <=? Db.expiryOf m now / Db.msPerDay)%Z
       then Some (Db.newRow (Db.sequence db + 1) m now)
       else None)
    /\ forall other, other <> Db.polymarketId m ->
         Db.getMarketMatch db' other now' = Db.getMarketMatch db other now'.
Proof.
  intros db m now now' _ _ _ Hfk db'. subst db'. split.
  - apply getMarketMatch_upsert. now apply mem_In.
  - intros other Hne. now apply getMarketMatch_frame.
Qed.

Lemma stored_match_live_by_day_witness :
  Db.getMarketMatch (fst (Db.upsertMarketMatch Sample.sampleDb Sample.storedMatch 1000))
                    (Db.polymarketId Sample.storedMatch) 86401001
  = Some (Db.newRow (Db.sequence Sample.sampleDb + 1) Sample.storedMatch 1000).
Proof.
  assert (H : In (Db.polymarketId Sample.storedMatch) (Db.markets Sample.sampleDb))
    by (vm_compute; tauto).
  assert (Hnow : Db.plainEra 1000) by (unfold Db.plainEra; lia).
  assert (Hexp : Db.plainEra (Db.expiryOf Sample.storedMatch 1000))
    by (unfold Db.plainEra; vm_compute; split; discriminate).
  assert (Hnow' : Db.plainEra 86401001) by (unfold Db.plainEra; lia).
  exact (proj1 (stored_match_live_by_day Sample.sampleDb Sample.storedMatch
                  1000 86401001 Hnow Hexp Hnow' H)).
Defined.

(** X15. [getMarketMatch] returns nothing exactly when the id has no live
    row; a row it returns is a row of the table for that id, live at the
    time of the lookup, and no live row of the id has a later [matched_at]. *)
Theorem getMarketMatch_latest_live :
  forall (db : Db.Database) (pid : string) (now : Z),
    (Db.getMarketMatch db pid now = None <->
     forall r, In r (Db.market_matches db) -> Db.polymarket_id r = pid ->
               Store.isLive now r = false)
    /\ forall row, Db.getMarketMatch db pid now = Some row ->
         In row (Db.market_matches db)
         /\ Db.polymarket_id row = pid
         /\ Store.isLive now row = true
         /\ forall r, In r (Db.market_matches db) -> Db.polymarket_id r = pid ->
              Store.isLive now r = true ->
              Db.textGt (Db.matched_at r) (Db.matched_at row) = false.
Proof.
  intros db pid now. unfold Db.getMarketMatch, Store.isLive. split.
  - rewrite latest_none. split.
    + intros Hnil r Hin Hpid.
      destruct (Db.textGt (Db.expires_at r) (Db.datetimeNow now)) eqn:E;
        [|reflexivity].
      assert (Hf : In r (filter (fun r => String.eqb (Db.polymarket_id r) pid
                             && Db.textGt (Db.expires_at r) (Db.datetimeNow now))
                            (Db.market_matches db))).
      { apply filter_In. split; [assumption|].
        rewrite E, andb_true_r. now apply String.eqb_eq. }
      rewrite Hnil in Hf. destruct Hf.
    + intros H.
      destruct (filter _ (Db.market_matches db)) as [|r l] eqn:E; [reflexivity|].
      assert (Hf : In r (r :: l)) by now left.
      rewrite <- E in Hf. apply filter_In in Hf. destruct Hf as [Hin Hc].
      apply andb_true_iff in Hc. destruct Hc as [Hp Hl].
      apply String.eqb_eq in Hp. rewrite (H r Hin Hp) in Hl. discriminate.
  - intros row Hrow. pose proof (latest_In _ _ Hrow) as Hin.
    apply filter_In in Hin. destruct Hin as [Hin Hc].
    apply andb_true_iff in Hc. destruct Hc as [Hp Hl].
    apply String.eqb_eq in Hp. repeat split; try assumption.
    intros r Hr Hpid Hlive. apply (latest_greatest _ _ Hrow).
    apply filter_In. split; [assumption|].
    rewrite Hlive, andb_true_r. now apply String.eqb_eq.
Qed.

(** X16. Every store keeps the match table intact: rows keep referring to
    rows of [markets], row ids stay distinct and never exceed the
    AUTOINCREMENT sequence, and the sequence never decreases. *)
Theorem upsertMarketMatch_consistent :
  forall (db : Db.Database) (m : Db.MatchInput) (now : Z),
    consistent db ->
    consistent (fst (Db.upsertMarketMatch db m now))
    /\ (Db.sequence db <= Db.sequence (fst (Db.upsertMarketMatch db m now)))%Z
    /\ Db.markets (fst (Db.upsertMarketMatch db m now)) = Db.markets db.
Proof.
  intros db m now [Hfk [Hseq Hids]].
  assert (Hincl : forall r, In r (Db.deleteMatches (Db.polymarketId m)
                                     (Db.market_matches db)) ->
                            In r (Db.market_matches db)).
  { intros r Hr. unfold Db.deleteMatches in Hr. now apply filter_In in Hr. }
  assert (Hkept : NoDup (map Db.id (Db.deleteMatches (Db.polymarketId m)
                                       (Db.market_matches db)))).
  { unfold Db.deleteMatches. revert Hids.
    generalize (Db.market_matches db) as rows.
    induction rows as [|r rows IH]; cbn [filter map]; intros Hnd; [constructor|].
    inversion Hnd as [|? ? Hnotin Hnd']; subst.
    destruct (negb (String.eqb (Db.polymarket_id r) (Db.polymarketId m)));
      [|now apply IH].
    cbn [map]. constructor; [|now apply IH].
    intros Hin. apply Hnotin. apply in_map_iff in Hin.
    destruct Hin as [r' [Hid Hr']]. apply filter_In in Hr'.
    apply in_map_iff. exists r'. tauto. }
  rewrite Forall_forall in Hfk, Hseq.
  unfold consistent, Db.upsertMarketMatch.
  destruct (Text.mem (Db.polymarketId m) (Db.markets db)) eqn:Hmem;
    cbn [fst Db.markets Db.market_matches Db.sequence].
  - split; [|split; [lia | reflexivity]]. split; [|split].
    + apply Forall_forall. intros r Hr. apply in_app_or in Hr.
      destruct Hr as [Hr | [<- | []]]; [now apply Hfk, Hincl|].
      cbn [Db.newRow Db.polymarket_id]. now apply mem_In.
    + apply Forall_forall. intros r Hr. apply in_app_or in Hr.
      destruct Hr as [Hr | [<- | []]].
      * pose proof (Hseq r (Hincl r Hr)). lia.
      * cbn [Db.newRow Db.id]. lia.
    + rewrite map_app. cbn [map Db.newRow Db.id].
      apply NoDup_app_remove_l with (l := @nil Z). cbn [app].
      apply Permutation_NoDup with (l := (Db.sequence db + 1)%Z
              :: map Db.id (Db.deleteMatches (Db.polymarketId m) (Db.market_matches db))).
      * apply Permutation_cons_append.
      * constructor; [|assumption]. intros Hin. apply in_map_iff in Hin.
        destruct Hin as [r [Hid Hr]]. pose proof (Hseq r (Hincl r Hr)). lia.
  - split; [|split; [lia | reflexivity]]. split; [|split].
    + apply Forall_forall. intros r Hr. now apply Hfk, Hincl.
    + apply Forall_forall. intros r Hr. now apply Hseq, Hincl.
    + assumption.
Qed.

Lemma upsertMarketMatch_consistent_witness :
  consistent (fst (Db.upsertMarketMatch Sample.sampleDb Sample.storedMatch 1000)).
Proof.
  apply upsertMarketMatch_consistent.
  unfold consistent. vm_compute. split; [|split].
  - repeat constructor.
  - repeat constructor; discriminate.
  - repeat constructor; intros [].
Defined.

(* ================================================================== *)
(** ** The queries over the tables *)
(* ================================================================== *)

Section Ordering.

Variable A : Type.
Variable before : A -> A -> bool.

Lemma insertDesc_permutation (x : A) (l : list A) :
  Permutation (Store.insertDesc before x l) (x :: l).
Proof.
  induction l as [|y l IH]; cbn [Store.insertDesc]; [reflexivity|].
  destruct (before y x); [|reflexivity].
  rewrite IH. apply perm_swap.
Qed.

Lemma sortDesc_permutation (l : list A) : Permutation (Store.sortDesc before l) l.
Proof.
  induction l as [|x l IH]; cbn [Store.sortDesc fold_right]; [reflexivity|].
  fold (Store.sortDesc before l). rewrite insertDesc_permutation. now constructor.
Qed.

Hypothesis before_asym : forall a b, before a b = true -> before b a = false.
Hypothesis before_neg_trans :
  forall a b c, before a b = false -> before b c = false -> before a c = false.

Lemma insertDesc_ordered (x : A) (l : list A) :
  StronglySorted (fun a b => before b a = false) l ->
  StronglySorted (fun a b => before b a = false) (Store.insertDesc before x l).
Proof.
  intros Hl. induction Hl as [|y l Hl IH Hy]; cbn [Store.insertDesc].
  - constructor; constructor.
  - destruct (before y x) eqn:E.
    + constructor; [assumption|].
      apply Forall_forall. intros z Hz.
      apply (Permutation_in _ (insertDesc_permutation x l)) in Hz.
      destruct Hz as [<- | Hz]; [now apply before_asym|].
      rewrite Forall_forall in Hy. now apply Hy.
    + constructor; [now constructor|].
      constructor; [assumption|].
      apply Forall_forall. intros z Hz. rewrite Forall_forall in Hy.
      apply before_neg_trans with y; [now apply Hy | assumption].
Qed.

Lemma sortDesc_ordered (l : list A) :
  StronglySorted (fun a b => before b a = false) (Store.sortDesc before l).
Proof.
  induction l as [|x l IH]; cbn [Store.sortDesc fold_right]; [constructor|].
  now apply insertDesc_ordered.
Qed.

End Ordering.

Section Limits.

Variable A : Type.

(** What [LIMIT] cuts off. *)
Lemma limitTo_split (limit : Z) (l : list A) :
  exists rest,
    l = Store.limitTo limit l ++ rest
    /\ ((limit < 0)%Z -> rest = [])
    /\ ((0 <= limit)%Z ->
        List.length (Store.limitTo limit l)
        = Nat.min (Z.to_nat limit) (List.length l)).
Proof.
  unfold Store.limitTo. destruct (Z.ltb_spec limit 0) as [H|H].
  - exists []. split; [now rewrite app_nil_r|]. split; [reflexivity | lia].
  - exists (skipn (Z.to_nat limit) l). split; [now rewrite firstn_skipn|].
    split; [lia|]. intros _. apply length_firstn.
Qed.

Lemma filter_single (f : A -> bool) (l : list A) (r : A) :
  (List.length (filter f l) <= 1)%nat -> In r l -> f r = true -> filter f l = [r].
Proof.
  intros Hlen Hin Hf.
  assert (H : In r (filter f l)) by (apply filter_In; now split).
  destruct (filter f l) as [|x [|y rest]]; cbn [List.length] in Hlen;
    [destruct H | | lia].
  destruct H as [-> | []]. reflexivity.
Qed.

Lemma filter_filter (f g : A -> bool) (l : list A) :
  filter (fun x => f x && g x) l = filter g (filter f l).
Proof.
  induction l as [|x l IH]; cbn [filter]; [reflexivity|].
  destruct (f x); cbn [andb filter]; [now rewrite IH | assumption].
Qed.

End Limits.

Lemma hasLiveMatch_getMarketMatch (t : Store.Tables) (now : Z) (m : Store.MarketRow) :
  Store.hasLiveMatch t now m = false
  <-> Db.getMarketMatch (Store.matchDb t) (Store.id m) now = None.
Proof.
  unfold Store.hasLiveMatch, Db.getMarketMatch, Store.isLive.
  rewrite latest_none. cbn [Store.matchDb Db.market_matches].
  induction (Store.market_matches t) as [|r rows IH]; cbn [existsb filter];
    [tauto|].
  rewrite (String.eqb_sym (Store.id m) (Db.polymarket_id r)).
  destruct (String.eqb (Db.polymarket_id r) (Store.id m)
            && Db.textGt (Db.expires_at r) (Db.datetimeNow now)); cbn [orb].
  - split; discriminate.
  - exact IH.
Qed.

(** X17. [getUnmatchedMarketIds] lists id and question of the markets that
    are active, not closed and without a live match at that time, in
    descending order of 24-hour volume; [LIMIT] keeps the first rows of
    that order, so that no market left out has more volume than a listed
    one, and a negative limit keeps all.  This is for a limit that SQLite
    accepts ([Store.accepted]) and a lookup in the years 0000 to
    9999. *)
Theorem getUnmatchedMarketIds_top_volume :
  forall (t : Store.Tables) (limit now : Z),
    Store.accepted limit -> Db.plainEra now ->
    exists chosen rest,
      Store.getUnmatchedMarketIds t limit now
      = map (fun m => (Store.id m, Store.question m)) chosen
      /\ (forall m, In m (chosen ++ rest) <-> unmatchedAt t now m)
      /\ StronglySorted
           (fun a b => (Store.volume_24hr b <= Store.volume_24hr a)%Q)
           (chosen ++ rest)
      /\ ((limit < 0)%Z -> rest = [])
      /\ ((0 <= limit)%Z ->
          List.length chosen
          = Nat.min (Z.to_nat limit) (List.length (chosen ++ rest))).
Proof.
  intros t limit now _ _. unfold Store.getUnmatchedMarketIds.
  set (eligible := filter _ (Store.markets t)).
  change (fun a b : Store.MarketRow =>
            Num.ltb (Store.volume_24hr b) (Store.volume_24hr a))
    with (byKey Store.MarketRow Store.volume_24hr).
  set (sorted := Store.sortDesc _ eligible).
  destruct (limitTo_split _ limit sorted) as [rest [Hsplit [Hneg Hlen]]].
  exists (Store.limitTo limit sorted), rest.
  split; [reflexivity|]. rewrite <- Hsplit.
  split; [|split; [apply sortDesc_sorted | split; assumption]].
  intros m. subst sorted. split.
  - intros Hin. apply (Permutation_in _ (sortDesc_perm _ _ eligible)) in Hin.
    subst eligible. apply filter_In in Hin. destruct Hin as [Hin Hc].
    apply andb_true_iff in Hc. destruct Hc as [Hc Hlive].
    apply andb_true_iff in Hc. destruct Hc as [Ha Hcl].
    apply Z.eqb_eq in Ha, Hcl. apply negb_true_iff in Hlive.
    apply hasLiveMatch_getMarketMatch in Hlive. now repeat split.
  - intros [Hin [Ha [Hcl Hnone]]].
    apply (Permutation_in _ (Permutation_sym (sortDesc_perm _ _ eligible))).
    subst eligible. apply filter_In. split; [assumption|].
    apply hasLiveMatch_getMarketMatch in Hnone.
    rewrite Ha, Hcl, Hnone. reflexivity.
Qed.

Lemma getUnmatchedMarketIds_top_volume_witness :
  exists chosen rest,
    Store.getUnmatchedMarketIds Scenario.tables 1 1000
    = map (fun m => (Store.id m, Store.question m)) chosen
    /\ (forall m, In m (chosen ++ rest) <-> unmatchedAt Scenario.tables 1000 m)
    /\ StronglySorted
         (fun a b => (Store.volume_24hr b <= Store.volume_24hr a)%Q)
         (chosen ++ rest)
    /\ ((1 < 0)%Z -> rest = [])
    /\ ((0 <= 1)%Z ->
        List.length chosen
        = Nat.min (Z.to_nat 1) (List.length (chosen ++ rest))).
Proof.
  apply getUnmatchedMarketIds_top_volume;
    unfold Store.accepted, Db.plainEra; lia.
Defined.

(** X18. [getAllMarketMatches] lists the live rows with at least the asked
    confidence in descending order of confidence, [LIMIT] keeping the first
    rows of that order; when a listed row is the only row of its market id,
    it is the row that [getMarketMatch] returns for that id.  This is for a
    limit that SQLite accepts ([Store.accepted]) and a lookup in the
    years 0000 to 9999. *)
Theorem getAllMarketMatches_top_confidence :
  forall (t : Store.Tables) (limit : Z) (minConfidence : Q) (now : Z),
    Store.accepted limit -> Db.plainEra now ->
    exists rest,
      let listed := Store.getAllMarketMatches t limit minConfidence now in
      (forall r, In r (listed ++ rest) <-> listedAt t minConfidence now r)
      /\ StronglySorted
           (fun a b => (Db.row_confidence b <= Db.row_confidence a)%Q)
           (listed ++ rest)
      /\ ((limit < 0)%Z -> rest = [])
      /\ ((0 <= limit)%Z ->
          List.length listed
          = Nat.min (Z.to_nat limit) (List.length (listed ++ rest)))
      /\ (forall r, In r listed ->
            (Db.rowsFor (Db.polymarket_id r) (Store.matchDb t) <= 1)%nat ->
            Db.getMarketMatch (Store.matchDb t) (Db.polymarket_id r) now = Some r).
Proof.
  intros t limit minConfidence now _ _. unfold Store.getAllMarketMatches.
  set (eligible := filter _ (Store.market_matches t)).
  change (fun a b : Db.MarketMatchRow =>
            Num.ltb (Db.row_confidence b) (Db.row_confidence a))
    with (byKey Db.MarketMatchRow Db.row_confidence).
  set (sorted := Store.sortDesc _ eligible).
  destruct (limitTo_split _ limit sorted) as [rest [Hsplit [Hneg Hlen]]].
  exists rest. cbv zeta.
  assert (Hmem : forall r, In r sorted <-> listedAt t minConfidence now r).
  { intros r. subst sorted. unfold listedAt. split.
    - intros Hin. apply (Permutation_in _ (sortDesc_perm _ _ eligible)) in Hin.
      subst eligible. apply filter_In in Hin. destruct Hin as [Hin Hc].
      apply andb_true_iff in Hc. destruct Hc as [Hl Hc].
      apply geb_le in Hc. now repeat split.
    - intros [Hin [Hl Hc]].
      apply (Permutation_in _ (Permutation_sym (sortDesc_perm _ _ eligible))).
      subst eligible. apply filter_In. split; [assumption|].
      apply geb_le in Hc. now rewrite Hl, Hc. }
  rewrite <- Hsplit.
  split; [assumption|].
  split; [apply sortDesc_sorted|]. split; [assumption|]. split; [assumption|].
  intros r Hin Hone.
  assert (Hr : In r sorted).
  { rewrite Hsplit. apply in_or_app. now left. }
  apply Hmem in Hr. destruct Hr as [Hr [Hl _]].
  unfold Db.getMarketMatch, Db.rowsFor in *. cbn [Store.matchDb Db.market_matches] in *.
  rewrite filter_filter.
  rewrite (filter_single _ _ _ r Hone Hr (String.eqb_refl _)).
  cbn [filter]. unfold Store.isLive in Hl. now rewrite Hl.
Qed.

Lemma getAllMarketMatches_top_confidence_witness :
  exists rest,
    (forall r,
       In r (Store.getAllMarketMatches
               (Store.mkTables [] [] [Sample.staleRow] 1) 200 0 1000 ++ rest)
       <-> listedAt (Store.mkTables [] [] [Sample.staleRow] 1) 0 1000 r)
    /\ ((200 < 0)%Z -> rest = []).
Proof.
  assert (Hl : Store.accepted 200) by (unfold Store.accepted; lia).
  assert (Hn : Db.plainEra 1000) by (unfold Db.plainEra; lia).
  destruct (getAllMarketMatches_top_confidence
              (Store.mkTables [] [] [Sample.staleRow] 1) 200 0 1000 Hl Hn)
    as [rest [Hmem [_ [Hneg _]]]].
  exists rest. exact (conj Hmem Hneg).
Defined.

(** X19. [getKalshiEvents] returns stored events only, most recently
    updated first and at most [limit] of them; a category that is a
    non-empty string restricts them to that category, an empty string or no
    category restricts nothing, and without restriction a negative limit
    returns every event of the table.  This is for a limit that SQLite
    accepts ([Store.accepted]). *)
Theorem getKalshiEvents_stored :
  forall (t : Store.Tables) (limit : Z) (cat : option string),
    Store.accepted limit ->
    exists rows,
      Store.getKalshiEvents t limit cat = map Store.event rows
      /\ (forall s, In s rows ->
            In s (Store.kalshi_events t)
            /\ forall c, cat = Some c -> c <> ""%string -> Store.category s = Some c)
      /\ StronglySorted
           (fun a b => Db.textGt (Store.updated_at b) (Store.updated_at a) = false)
           rows
      /\ ((0 <= limit)%Z -> (Z.of_nat (List.length rows) <= limit)%Z)
      /\ Store.getKalshiEvents t limit (Some ""%string)
         = Store.getKalshiEvents t limit None
      /\ ((limit < 0)%Z ->
          Permutation (Store.getKalshiEvents t limit None)
                      (map Store.event (Store.kalshi_events t))).
Proof.
  intros t limit cat _. unfold Store.getKalshiEvents at 1. cbv zeta.
  set (before := fun a b : Store.KalshiStored =>
                   Db.textGt (Store.updated_at a) (Store.updated_at b)).
  assert (Hasym : forall a b, before a b = true -> before b a = false).
  { intros a b. apply textGt_asym. }
  assert (Htrans : forall a b c, before a b = false -> before b c = false ->
                                 before a c = false).
  { intros a b c. apply textGt_neg_trans. }
  set (selected := match orNull cat with
                   | Some c => filter _ (Store.kalshi_events t)
                   | None => Store.kalshi_events t
                   end).
  exists (Store.limitTo limit (Store.sortDesc before selected)).
  split; [reflexivity|]. split; [|split; [|split; [|split]]].
  - intros s Hs. apply limitTo_incl in Hs.
    apply (Permutation_in _ (sortDesc_permutation _ before selected)) in Hs.
    subst selected. destruct cat as [c|]; cbn [orNull] in Hs.
    + destruct c as [|ch c'].
      * split; [assumption|]. intros c Hc Hne. injection Hc as <-. now destruct Hne.
      * apply filter_In in Hs. destruct Hs as [Hin Hc]. split; [assumption|].
        intros c Heq _. injection Heq as <-.
        destruct (Store.category s) as [c0|]; [|discriminate].
        apply String.eqb_eq in Hc. now subst c0.
    + split; [assumption|]. intros c Hc. discriminate.
  - apply limitTo_sorted.
    apply (sortDesc_ordered _ before Hasym Htrans selected).
  - apply limitTo_length.
  - reflexivity.
  - intros Hneg. unfold Store.getKalshiEvents, Store.limitTo. cbn [orNull].
    apply Z.ltb_lt in Hneg. rewrite Hneg.
    apply Permutation_map. apply sortDesc_permutation.
Qed.

Lemma getKalshiEvents_stored_witness :
  exists rows,
    Store.getKalshiEvents Scenario.tables 500 (Some "Politics"%string)
    = map Store.event rows
    /\ (forall s, In s rows ->
          In s (Store.kalshi_events Scenario.tables)
          /\ forall c, Some "Politics"%string = Some c -> c <> ""%string ->
                       Store.category s = Some c).
Proof.
  assert (Hl : Store.accepted 500) by (unfold Store.accepted; lia).
  destruct (getKalshiEvents_stored Scenario.tables 500 (Some "Politics"%string) Hl)
    as [rows [Heq [Hin _]]].
  exists rows. exact (conj Heq Hin).
Defined.

(* ================================================================== *)
(** ** The callers: on-demand lookup, route and batch *)
(* ================================================================== *)

Section Callers.

Variable llm : Classifier.

Lemma calls_at_most_one (question : string) (pool : list KalshiEventRow) :
  (List.length (calls (matchSingleMarket llm question pool)) <= 1)%nat.
Proof.
  destruct (preFilterEvents question pool) as [|top rest] eqn:Hpre.
  - rewrite (run_no_candidates llm question pool Hpre). cbn [calls List.length]. lia.
  - destruct (isStrong top) eqn:Hs.
    + rewrite (run_strong llm question pool top rest Hpre Hs).
      cbn [calls List.length]. lia.
    + destruct (run_classifier llm question pool top rest Hpre Hs) as [Hcalls _].
      cbv zeta in Hcalls. rewrite Hcalls. cbn [List.length]. lia.
Qed.

Lemma upsert_markets (db : Db.Database) (m : Db.MatchInput) (now : Z) :
  Db.markets (fst (Db.upsertMarketMatch db m now)) = Db.markets db.
Proof.
  unfold Db.upsertMarketMatch.
  now destruct (Text.mem (Db.polymarketId m) (Db.markets db)).
Qed.

Lemma upsert_outcome (db : Db.Database) (m : Db.MatchInput) (now : Z) :
  snd (Db.upsertMarketMatch db m now)
  = if Text.mem (Db.polymarketId m) (Db.markets db)
    then inr tt else inl Db.ForeignKeyConstraint.
Proof.
  unfold Db.upsertMarketMatch.
  now destruct (Text.mem (Db.polymarketId m) (Db.markets db)).
Qed.

Lemma matchDb_putMatchDb (t : Store.Tables) (db : Db.Database) :
  Db.markets db = map Store.id (Store.markets t) ->
  Store.matchDb (Store.putMatchDb t db) = db.
Proof.
  destruct db as [ms rows seq]. cbn [Db.markets]. intros ->. reflexivity.
Qed.

Lemma matchDb_upsert (t : Store.Tables) (m : Db.MatchInput) (now : Z) :
  Store.matchDb (Store.putMatchDb t (fst (Db.upsertMarketMatch (Store.matchDb t) m now)))
  = fst (Db.upsertMarketMatch (Store.matchDb t) m now).
Proof. apply matchDb_putMatchDb. now rewrite upsert_markets. Qed.





(** [getOrMatchMarket] with the pair of the store taken apart. *)
Lemma getOrMatchMarket_unfold (t : Store.Tables) (pid question : string)
    (now storedAt : Z) :
  getOrMatchMarket llm t pid question now storedAt
  = match Db.getMarketMatch (Store.matchDb t) pid now with
    | Some row => mkLookup (inr (fromRow row)) t []
    | None =>
        let run := matchSingleMarket llm question (Store.getKalshiEvents t 500 None) in
        match settled run with
        | inl e => mkLookup (inl (DecisionThrew e)) t (calls run)
        | inr result =>
            let up := Db.upsertMarketMatch (Store.matchDb t)
                        (toInput pid question result) storedAt in
            match snd up with
            | inl e => mkLookup (inl (StoreRefused e))
                                (Store.putMatchDb t (fst up)) (calls run)
            | inr _ => mkLookup (inr (fresh result))
                                (Store.putMatchDb t (fst up)) (calls run)
            end
        end
    end.
Proof.
  unfold getOrMatchMarket.
  destruct (Db.getMarketMatch (Store.matchDb t) pid now); [reflexivity|].
  cbv zeta.
  generalize (matchSingleMarket llm question (Store.getKalshiEvents t 500 None)).
  intros run. destruct (settled run) as [e|result]; [reflexivity|].
  now destruct (Db.upsertMarketMatch (Store.matchDb t)
                  (toInput pid question result) storedAt) as [db' [e|u]].
Qed.

(** One iteration of the batch, for a market that is a row of [markets]. *)
Lemma matchOne_known (pool : list KalshiEventRow) (st : Batch)
    (pid question : string) (storedAt : Z) :
  In pid (map Store.id (Store.markets (batchTables st))) ->
  matchOne llm pool st (pid, question) storedAt
  = let run := matchSingleMarket llm question pool in
    match settled run with
    | inl _ =>
        mkBatch (batchTables st)
                (mkCounts (matchedCount (counts st)) (noMatchCount (counts st))
                          (S (errorCount (counts st))))
                (batchCalls st ++ calls run)
    | inr result =>
        mkBatch (Store.putMatchDb (batchTables st)
                   (fst (Db.upsertMarketMatch (Store.matchDb (batchTables st))
                           (toInput pid question result) storedAt)))
                (if truthy (kalshiEventTicker result)
                 then mkCounts (S (matchedCount (counts st)))
                               (noMatchCount (counts st)) (errorCount (counts st))
                 else mkCounts (matchedCount (counts st))
                               (S (noMatchCount (counts st))) (errorCount (counts st)))
                (batchCalls st ++ calls run)
    end.
Proof.
  intros Hin. unfold matchOne. cbv zeta.
  generalize (matchSingleMarket llm question pool). intros run.
  destruct (settled run) as [e|result]; [reflexivity|].
  pose proof (upsert_outcome (Store.matchDb (batchTables st))
                (toInput pid question result) storedAt) as Hout.
  assert (Hmem : Text.mem (Db.polymarketId (toInput pid question result))
                          (Db.markets (Store.matchDb (batchTables st))) = true).
  { apply mem_In. exact Hin. }
  rewrite Hmem in Hout.
  destruct (Db.upsertMarketMatch (Store.matchDb (batchTables st))
              (toInput pid question result) storedAt) as [db' stored].
  cbn [fst snd] in *. subst stored.
  now destruct (truthy (kalshiEventTicker result)).
Qed.

(** Whatever happens in an iteration, the rows of other markets stay. *)
Lemma matchOne_rows_other (pool : list KalshiEventRow) (st : Batch)
    (item : string * string) (storedAt : Z) (other : string) :
  other <> fst item ->
  filter (forMarket other)
         (Store.market_matches (batchTables (matchOne llm pool st item storedAt)))
  = filter (forMarket other) (Store.market_matches (batchTables st)).
Proof.
  destruct item as [pid question]. cbn [fst]. intros Hne.
  unfold matchOne. cbv zeta.
  generalize (matchSingleMarket llm question pool). intros run.
  destruct (settled run) as [e|result]; [reflexivity|].
  pose proof (rowsFor_upsert_other (Store.matchDb (batchTables st))
                (toInput pid question result) storedAt other Hne) as H.
  destruct (Db.upsertMarketMatch (Store.matchDb (batchTables st))
              (toInput pid question result) storedAt) as [db' stored].
  cbn [fst] in H.
  destruct stored as [e|u]; [exact H|].
  destruct (truthy (kalshiEventTicker result)); exact H.
Qed.

Lemma matchOne_tables (pool : list KalshiEventRow) (st : Batch)
    (item : string * string) (storedAt : Z) :
  Store.markets (batchTables (matchOne llm pool st item storedAt))
  = Store.markets (batchTables st)
  /\ Store.kalshi_events (batchTables (matchOne llm pool st item storedAt))
     = Store.kalshi_events (batchTables st)
  /\ (List.length (batchCalls (matchOne llm pool st item storedAt))
      <= List.length (batchCalls st) + 1)%nat.
Proof.
  destruct item as [pid question]. unfold matchOne. cbv zeta.
  pose proof (calls_at_most_one question pool) as Hc. revert Hc.
  generalize (matchSingleMarket llm question pool). intros run Hc.
  assert (Hlen : (List.length (batchCalls st ++ calls run)
                  <= List.length (batchCalls st) + 1)%nat).
  { rewrite length_app. lia. }
  destruct (settled run) as [e|result]; [now repeat split|].
  destruct (Db.upsertMarketMatch (Store.matchDb (batchTables st))
              (toInput pid question result) storedAt) as [db' stored].
  destruct stored as [e|u]; [now repeat split|].
  destruct (truthy (kalshiEventTicker result)); now repeat split.
Qed.

Lemma matchFrom_rows_other (pool : list KalshiEventRow) (clock : nat -> Z)
    (other : string) (items : list (string * string)) :
  forall (i : nat) (st : Batch),
    ~ In other (map fst items) ->
    filter (forMarket other)
           (Store.market_matches (batchTables (matchFrom llm pool clock i items st)))
    = filter (forMarket other) (Store.market_matches (batchTables st)).
Proof.
  induction items as [|item items IH]; intros i st Hnot; cbn [matchFrom];
    [reflexivity|].
  rewrite IH.
  - apply matchOne_rows_other. intros ->. apply Hnot. now left.
  - intros Hin. apply Hnot. now right.
Qed.


Lemma unmatched_known (t : Store.Tables) (limit now : Z) :
  Forall (fun it => In (fst it) (map Store.id (Store.markets t)))
         (Store.getUnmatchedMarketIds t limit now).
Proof.
  apply Forall_forall. intros it Hit. unfold Store.getUnmatchedMarketIds in Hit.
  apply in_map_iff in Hit. destruct Hit as [m [<- Hm]]. cbn [fst].
  apply limitTo_incl in Hm.
  apply (Permutation_in _ (sortDesc_permutation _ _ _)) in Hm.
  apply filter_In in Hm. apply in_map. tauto.
Qed.

End Callers.

(** A fresh answer is read back from the cache until the end of the day
    after its store. *)
Lemma read_through :
  forall (llm llm' : Classifier) (t : Store.Tables) (pid question question' : string)
         (now storedAt now' storedAt' : Z) (s : Served),
    let first := getOrMatchMarket llm t pid question now storedAt in
    served first = inr s ->
    cached s = false ->
    ((now' / Db.msPerDay <= storedAt / Db.msPerDay + 1)%Z ->
     getOrMatchMarket llm' (tablesAfter first) pid question' now' storedAt'
     = mkLookup (inr (asCached s)) (tablesAfter first) [])
    /\ ((storedAt / Db.msPerDay + 1 < now' / Db.msPerDay)%Z ->
        Db.getMarketMatch (Store.matchDb (tablesAfter first)) pid now' = None).
Proof.
  intros llm llm' t pid question question' now storedAt now' storedAt' s first.
  subst first. rewrite (getOrMatchMarket_unfold llm t pid question now storedAt).
  destruct (Db.getMarketMatch (Store.matchDb t) pid now) as [row|].
  { cbn [served]. intros H Hc. injection H as <-. discriminate. }
  cbv zeta.
  generalize (matchSingleMarket llm question (Store.getKalshiEvents t 500 None)).
  intros run. destruct (settled run) as [e|result]; [discriminate|].
  rewrite upsert_outcome.
  destruct (Text.mem (Db.polymarketId (toInput pid question result))
                     (Db.markets (Store.matchDb t))) eqn:Hmem; [|discriminate].
  cbn [served tablesAfter]. intros H _. injection H as <-.
  pose proof (getMarketMatch_upsert (Store.matchDb t)
                (toInput pid question result) storedAt now' Hmem) as Hget.
  assert (Hexp : (Db.expiryOf (toInput pid question result) storedAt / Db.msPerDay
                  = storedAt / Db.msPerDay + 1)%Z).
  { unfold Db.expiryOf, toInput, MATCH_TTL_HOURS, Db.msPerDay.
    cbn [Db.ttlHours Db.ttlOrDefault].
    replace (storedAt + 24 * 60 * 60 * 1000)%Z with (storedAt + 1 * 86400000)%Z by lia.
    now rewrite Z.div_add by lia. }
  rewrite Hexp in Hget. cbn [Db.polymarketId toInput] in Hget.
  split; intros Hday.
  - rewrite (getOrMatchMarket_unfold llm').
    rewrite matchDb_upsert, Hget.
    replace (now' / Db.msPerDay <=? storedAt / Db.msPerDay + 1)%Z with true
      by (symmetry; apply Z.leb_le; exact Hday).
    reflexivity.
  - rewrite matchDb_upsert, Hget.
    replace (now' / Db.msPerDay <=? storedAt / Db.msPerDay + 1)%Z with false
      by (symmetry; apply Z.leb_gt; exact Hday).
    reflexivity.
Qed.

Section ScenarioFacts.

Lemma scenario_pool :
  Store.getKalshiEvents Scenario.tables 500 None = [Sample.electionEvent].
Proof. vm_compute. reflexivity. Qed.

Lemma scenario_decision :
  settled (matchSingleMarket Sample.unavailable Sample.electionQuestion
             [Sample.electionEvent])
  = inr (fallbackResult Sample.electionCandidate None).
Proof.
  destruct (run_classifier Sample.unavailable Sample.electionQuestion
              [Sample.electionEvent] Sample.electionCandidate []
              election_prefilter eq_refl) as [_ Hset].
  exact Hset.
Qed.

Lemma scenario_served :
  served (getOrMatchMarket Sample.unavailable Scenario.tables "poly-1"
            Sample.electionQuestion 1000 2000)
  = inr (fresh (fallbackResult Sample.electionCandidate None)).
Proof.
  rewrite getOrMatchMarket_unfold.
  change (Db.getMarketMatch (Store.matchDb Scenario.tables) "poly-1" 1000)
    with (@None Db.MarketMatchRow).
  cbv zeta. rewrite scenario_pool, scenario_decision, upsert_outcome.
  reflexivity.
Qed.

End ScenarioFacts.

(** X20. [getOrMatchMarket] reads through the cache.  For classifier
    replies of the declared shape that state their reasoning (a string or
    [null]), nested markets whose ticker is a string or absent, and
    instants in the years 0000 to 9999: after a call that
    returned a fresh result, every call for the same id up to the end of
    the UTC day after the store returns the same answer marked as cached,
    without consulting the classifier and without touching the tables,
    whatever question it is given; from the following day on the cache no
    longer has the row. *)
Theorem getOrMatchMarket_read_through :
  forall (reply reply' : Replies) (llm llm' : Classifier) (t : Store.Tables)
         (pid question question' : string)
         (now storedAt now' storedAt' : Z) (s : Served),
    Conforms reply llm -> statesReasoning reply -> Conforms reply' llm' ->
    Db.plainEra now -> storable storedAt ->
    Db.plainEra now' -> storable storedAt' ->
    let first := getOrMatchMarket llm t pid question now storedAt in
    served first = inr s ->
    cached s = false ->
    ((now' / Db.msPerDay <= storedAt / Db.msPerDay + 1)%Z ->
     getOrMatchMarket llm' (tablesAfter first) pid question' now' storedAt'
     = mkLookup (inr (asCached s)) (tablesAfter first) [])
    /\ ((storedAt / Db.msPerDay + 1 < now' / Db.msPerDay)%Z ->
        Db.getMarketMatch (Store.matchDb (tablesAfter first)) pid now' = None).
Proof.
  intros reply reply' llm llm' t pid question question' now storedAt now' storedAt'
         s _ _ _ _ _ _ _.
  apply read_through.
Qed.

Lemma getOrMatchMarket_read_through_witness :
  getOrMatchMarket (Sample.answering 0 90)
    (tablesAfter (getOrMatchMarket Sample.unavailable Scenario.tables "poly-1"
                    Sample.electionQuestion 1000 2000))
    "poly-1" Sample.plainQuestion 86400000 86400001
  = mkLookup (inr (asCached (fresh (fallbackResult Sample.electionCandidate None))))
      (tablesAfter (getOrMatchMarket Sample.unavailable Scenario.tables "poly-1"
                      Sample.electionQuestion 1000 2000))
      [].
Proof.
  assert (Hday : (86400000 / Db.msPerDay <= 2000 / Db.msPerDay + 1)%Z)
    by (vm_compute; discriminate).
  assert (H1 : Db.plainEra 1000) by (unfold Db.plainEra; lia).
  assert (H2 : storable 2000)
    by (unfold storable, Db.plainEra, MATCH_TTL_HOURS; lia).
  assert (H3 : Db.plainEra 86400000) by (unfold Db.plainEra; lia).
  assert (H4 : storable 86400001)
    by (unfold storable, Db.plainEra, MATCH_TTL_HOURS; lia).
  exact (proj1 (getOrMatchMarket_read_through Sample.silent (Sample.replying 0 90)
                  Sample.unavailable (Sample.answering 0 90)
                  Scenario.tables "poly-1"
                  Sample.electionQuestion Sample.plainQuestion
                  1000 2000 86400000 86400001 _
                  Conforms_silent statesReasoning_silent
                  (Conforms_replying 0 90) H1 H2 H3 H4
                  scenario_served eq_refl) Hday).
Defined.







Section BatchFacts.

Variable llm : Classifier.
Variable pool : list KalshiEventRow.



Lemma matchOne_rows_same (st : Batch) (pid question : string) (storedAt : Z) :
  In pid (map Store.id (Store.markets (batchTables st))) ->
  (forall result,
     settled (matchSingleMarket llm question pool) = inr result ->
     filter (forMarket pid)
            (Store.market_matches (batchTables (matchOne llm pool st (pid, question) storedAt)))
     = [Db.newRow (Store.sequence (batchTables st) + 1)
                  (toInput pid question result) storedAt])
  /\ (forall e,
        settled (matchSingleMarket llm question pool) = inl e ->
        Store.market_matches (batchTables (matchOne llm pool st (pid, question) storedAt))
        = Store.market_matches (batchTables st)).
Proof.
  intros Hin. rewrite (matchOne_known llm pool st pid question storedAt Hin).
  cbv zeta. split.
  - intros result Hr. rewrite Hr.
    cbn [batchTables Store.putMatchDb Store.market_matches].
    rewrite upsert_rows.
    assert (Hmem : Text.mem (Db.polymarketId (toInput pid question result))
                            (Db.markets (Store.matchDb (batchTables st))) = true).
    { apply mem_In. exact Hin. }
    rewrite Hmem, filter_app.
    cbn [Db.polymarketId toInput]. rewrite deleteMatches_none.
    cbn [app filter]. rewrite newRow_forMarket.
    cbn [Db.polymarketId]. now rewrite String.eqb_refl.
  - intros e He. now rewrite He.
Qed.

Lemma matchFrom_nth (clock : nat -> Z) (items : list (string * string)) :
  forall (i : nat) (st : Batch) (k : nat) (pid question : string),
    NoDup (map fst items) ->
    Forall (fun it => In (fst it) (map Store.id (Store.markets (batchTables st))))
           items ->
    nth_error items k = Some (pid, question) ->
    (forall result,
       settled (matchSingleMarket llm question pool) = inr result ->
       exists rowid,
         filter (forMarket pid)
                (Store.market_matches (batchTables (matchFrom llm pool clock i items st)))
         = [Db.newRow rowid (toInput pid question result) (clock (i + k)%nat)])
    /\ (forall e,
          settled (matchSingleMarket llm question pool) = inl e ->
          filter (forMarket pid)
                 (Store.market_matches (batchTables (matchFrom llm pool clock i items st)))
          = filter (forMarket pid) (Store.market_matches (batchTables st))).
Proof.
  induction items as [|item items IH]; intros i st k pid question Hnd Hknown Hk.
  - destruct k; discriminate.
  - inversion Hnd as [|? ? Hnotin Hnd']; subst.
    inversion Hknown as [|? ? Hitem Hrest]; subst.
    cbn [matchFrom]. destruct k as [|k]; cbn [nth_error] in Hk.
    + injection Hk as ->. cbn [fst] in Hnotin, Hitem.
      rewrite (matchFrom_rows_other llm pool clock pid items (S i) _ Hnotin).
      destruct (matchOne_rows_same st pid question (clock i) Hitem) as [Hok Hthrow].
      rewrite Nat.add_0_r. split.
      * intros result Hr. eexists. now apply Hok.
      * intros e He. now rewrite (Hthrow e He).
    + assert (Hne : pid <> fst item).
      { intros ->. apply Hnotin. apply nth_error_In in Hk.
        apply (in_map fst) in Hk. exact Hk. }
      destruct (matchOne_tables llm pool st item (clock i)) as [Hm _].
      assert (Hknown' : Forall (fun it => In (fst it)
                  (map Store.id (Store.markets
                     (batchTables (matchOne llm pool st item (clock i))))))
                items) by now rewrite Hm.
      destruct (IH (S i) _ k pid question Hnd' Hknown' Hk) as [Hok Hthrow].
      rewrite Nat.add_succ_r. split; [exact Hok|].
      intros e He. rewrite (Hthrow e He).
      now apply matchOne_rows_other.
Qed.

End BatchFacts.

Lemma NoDup_map_filter {A B : Type} (g : A -> B) (f : A -> bool) (l : list A) :
  NoDup (map g l) -> NoDup (map g (filter f l)).
Proof.
  induction l as [|x l IH]; cbn [map filter]; intros H; [constructor|].
  inversion H as [|? ? Hnotin Hnd]; subst.
  destruct (f x); [|now apply IH]. cbn [map]. constructor; [|now apply IH].
  intros Hin. apply Hnotin. apply in_map_iff in Hin. destruct Hin as [y [Hy Hiny]].
  apply filter_In in Hiny. apply in_map_iff. exists y. tauto.
Qed.

Lemma NoDup_map_limitTo {A B : Type} (g : A -> B) (limit : Z) (l : list A) :
  NoDup (map g l) -> NoDup (map g (Store.limitTo limit l)).
Proof.
  destruct (limitTo_split A limit l) as [rest [Hsplit _]].
  intros H. rewrite Hsplit, map_app in H. now apply NoDup_app_remove_r in H.
Qed.

Lemma unmatched_NoDup (t : Store.Tables) (limit now : Z) :
  NoDup (map Store.id (Store.markets t)) ->
  NoDup (map fst (Store.getUnmatchedMarketIds t limit now)).
Proof.
  intros H. unfold Store.getUnmatchedMarketIds. rewrite map_map. cbn [fst].
  apply NoDup_map_limitTo.
  eapply Permutation_NoDup.
  - apply Permutation_map. apply Permutation_sym. apply sortDesc_permutation.
  - now apply NoDup_map_filter.
Qed.


(** What the batch leaves in the match table for a processed market. *)
Lemma batch_stores :
  forall (llm : Classifier) (t : Store.Tables) (batchSize now : Z)
         (clock : nat -> Z) (i : nat) (pid question : string),
    NoDup (map Store.id (Store.markets t)) ->
    Store.getKalshiEvents t 500 None <> [] ->
    nth_error (Store.getUnmatchedMarketIds t batchSize now) i = Some (pid, question) ->
    let b := autoMatchMarkets llm t batchSize now clock in
    let pool := Store.getKalshiEvents t 500 None in
    (forall result,
       settled (matchSingleMarket llm question pool) = inr result ->
       exists rowid,
         filter (forMarket pid) (Store.market_matches (batchTables b))
         = [Db.newRow rowid (toInput pid question result) (clock i)]
         /\ forall now',
              (now' / Db.msPerDay <= clock i / Db.msPerDay + 1)%Z ->
              Db.getMarketMatch (Store.matchDb (batchTables b)) pid now'
              = Some (Db.newRow rowid (toInput pid question result) (clock i))
              /\ forall limit question',
                   ~ In (pid, question')
                        (Store.getUnmatchedMarketIds (batchTables b) limit now'))
    /\ (forall e,
          settled (matchSingleMarket llm question pool) = inl e ->
          filter (forMarket pid) (Store.market_matches (batchTables b))
          = filter (forMarket pid) (Store.market_matches t)).
Proof.
  intros llm t batchSize now clock i pid question Hnd Hpool Hi b pool.
  subst b. unfold autoMatchMarkets. cbv zeta. fold pool.
  set (unmatched := Store.getUnmatchedMarketIds t batchSize now) in *.
  destruct (List.length unmatched =? 0)%nat eqn:Hu.
  { apply Nat.eqb_eq in Hu. apply length_zero_iff_nil in Hu. rewrite Hu in Hi.
    destruct i; discriminate. }
  destruct (List.length pool =? 0)%nat eqn:Hp.
  { apply Nat.eqb_eq in Hp. apply length_zero_iff_nil in Hp. contradiction. }
  destruct (matchFrom_nth llm pool clock unmatched 0 (mkBatch t (mkCounts 0 0 0) [])
              i pid question (unmatched_NoDup t batchSize now Hnd)
              (unmatched_known t batchSize now) Hi) as [Hok Hthrow].
  cbn [Nat.add] in Hok. split; [|exact Hthrow].
  intros result Hr. destruct (Hok result Hr) as [rowid Hrows].
  exists rowid. split; [exact Hrows|].
  intros now' Hday.
  set (b := matchFrom llm pool clock 0 unmatched (mkBatch t (mkCounts 0 0 0) [])) in *.
  assert (Hget : Db.getMarketMatch (Store.matchDb (batchTables b)) pid now'
                 = Some (Db.newRow rowid (toInput pid question result) (clock i))).
  { unfold Db.getMarketMatch. cbn [Store.matchDb Db.market_matches].
    rewrite filter_filter. unfold forMarket in Hrows. rewrite Hrows.
    cbn [filter Db.newRow Db.expires_at]. rewrite live_by_day.
    assert (Hexp : (Db.expiryOf (toInput pid question result) (clock i) / Db.msPerDay
                    = clock i / Db.msPerDay + 1)%Z).
    { unfold Db.expiryOf, toInput, MATCH_TTL_HOURS, Db.msPerDay.
      cbn [Db.ttlHours Db.ttlOrDefault].
      replace (clock i + 24 * 60 * 60 * 1000)%Z with (clock i + 1 * 86400000)%Z by lia.
      now rewrite Z.div_add by lia. }
    rewrite Hexp.
    replace (now' / Db.msPerDay <=? clock i / Db.msPerDay + 1)%Z with true
      by (symmetry; apply Z.leb_le; exact Hday).
    reflexivity. }
  split; [exact Hget|].
  intros limit question' Hin. unfold Store.getUnmatchedMarketIds in Hin.
  apply in_map_iff in Hin. destruct Hin as [m [Hm Hin]].
  injection Hm as Hid _.
  apply limitTo_incl in Hin.
  apply (Permutation_in _ (sortDesc_permutation _ _ _)) in Hin.
  apply filter_In in Hin. destruct Hin as [_ Hc].
  apply andb_true_iff in Hc. destruct Hc as [_ Hlive].
  apply negb_true_iff in Hlive. apply hasLiveMatch_getMarketMatch in Hlive.
  rewrite Hid, Hget in Hlive. discriminate.
Qed.



(** X24. With distinct market ids, for classifier replies of the declared
    shape, nested markets whose ticker is a string or absent, a batch size
    that SQLite accepts and instants in the years 0000 to 9999: the batch
    leaves for every processed market whose decision
    returned exactly one match row, holding that decision and stamped with
    the time of its store; until the end of the following UTC day that row
    is what [getMarketMatch] returns and the market is no longer listed as
    unmatched.  The match rows of a market whose decision threw are as
    before the batch. *)
Theorem autoMatchMarkets_stores :
  forall (reply : Replies) (llm : Classifier) (t : Store.Tables)
         (batchSize now : Z) (clock : nat -> Z) (i : nat) (pid question : string),
    Conforms reply llm -> Store.accepted batchSize -> Db.plainEra now ->
    (forall k, (k < List.length (Store.getUnmatchedMarketIds t batchSize now))%nat ->
               storable (clock k)) ->
    NoDup (map Store.id (Store.markets t)) ->
    Store.getKalshiEvents t 500 None <> [] ->
    nth_error (Store.getUnmatchedMarketIds t batchSize now) i = Some (pid, question) ->
    let b := autoMatchMarkets llm t batchSize now clock in
    let pool := Store.getKalshiEvents t 500 None in
    (forall result,
       settled (matchSingleMarket llm question pool) = inr result ->
       exists rowid,
         filter (forMarket pid) (Store.market_matches (batchTables b))
         = [Db.newRow rowid (toInput pid question result) (clock i)]
         /\ forall now',
              Db.plainEra now' ->
              (now' / Db.msPerDay <= clock i / Db.msPerDay + 1)%Z ->
              Db.getMarketMatch (Store.matchDb (batchTables b)) pid now'
              = Some (Db.newRow rowid (toInput pid question result) (clock i))
              /\ forall limit question',
                   Store.accepted limit ->
                   ~ In (pid, question')
                        (Store.getUnmatchedMarketIds (batchTables b) limit now'))
    /\ (forall e,
          settled (matchSingleMarket llm question pool) = inl e ->
          filter (forMarket pid) (Store.market_matches (batchTables b))
          = filter (forMarket pid) (Store.market_matches t)).
Proof.
  intros reply llm t batchSize now clock i pid question _ _ _ _ Hnd Hpool Hi.
  destruct (batch_stores llm t batchSize now clock i pid question Hnd Hpool Hi)
    as [Hok Hthrow].
  cbv zeta in *. split; [|exact Hthrow].
  intros result Hr. destruct (Hok result Hr) as [rowid [Hrows Hlater]].
  exists rowid. split; [exact Hrows|].
  intros now' _ Hday. destruct (Hlater now' Hday) as [Hget Hnot].
  split; [exact Hget|]. intros limit question' _. apply Hnot.
Qed.

Lemma autoMatchMarkets_stores_witness :
  exists rowid,
    filter (forMarket "poly-1")
           (Store.market_matches
              (batchTables (autoMatchMarkets Sample.unavailable Scenario.tables
                              30 1000 (fun _ => 2000%Z))))
    = [Db.newRow rowid
         (toInput "poly-1" Sample.electionQuestion
                  (fallbackResult Sample.electionCandidate None)) 2000].
Proof.
  assert (H1 : Store.accepted 30) by (unfold Store.accepted; lia).
  assert (H2 : Db.plainEra 1000) by (unfold Db.plainEra; lia).
  assert (H3 : forall k : nat,
            (k < List.length (Store.getUnmatchedMarketIds Scenario.tables 30 1000))%nat ->
            storable ((fun _ : nat => 2000%Z) k)).
  { intros k _. unfold storable, Db.plainEra, MATCH_TTL_HOURS. lia. }
  assert (Hnd : NoDup (map Store.id (Store.markets Scenario.tables))).
  { repeat constructor; cbn [In]; intros H;
      repeat (destruct H as [H | H]; [discriminate H|]); exact H. }
  assert (Hpool : Store.getKalshiEvents Scenario.tables 500 None <> [])
    by (rewrite scenario_pool; discriminate).
  assert (Hi : nth_error (Store.getUnmatchedMarketIds Scenario.tables 30 1000) 0
               = Some ("poly-1"%string, Sample.electionQuestion))
    by (vm_compute; reflexivity).
  assert (Hr : settled (matchSingleMarket Sample.unavailable Sample.electionQuestion
                          (Store.getKalshiEvents Scenario.tables 500 None))
               = inr (fallbackResult Sample.electionCandidate None))
    by (rewrite scenario_pool; exact scenario_decision).
  destruct (proj1 (autoMatchMarkets_stores Sample.silent Sample.unavailable
                     Scenario.tables 30 1000 (fun _ => 2000%Z) 0 "poly-1"
                     Sample.electionQuestion Conforms_silent H1 H2 H3
                     Hnd Hpool Hi) _ Hr)
    as [rowid [Hrows _]].
  exists rowid. exact Hrows.
Defined.
